(** * HeteroGATConv: the fused heterogeneous graph-attention layer

    A shallow embedding of
    [python/cugraph-pyg/cugraph_pyg/nn/conv/hetero_gat_conv.py].

    Python exceptions are values of [result]; dicts are insertion-ordered
    association lists; tensors are row lists with their shape; the numeric
    kernels the layer calls (random draws, the attention primitive, the
    sparse-adjacency constructors, the reductions of [group]) are the
    fields of the class [Backend]. *)

From Stdlib Require Import ZArith.
From stdpp Require Import base decidable option list strings.

Set Default Proof Using "Type".
#[local] Set Warnings "-clear-no-such-hyp".
Local Open Scope nat_scope.

(** ** Exceptions *)

Inductive exn : Set :=
  KeyError | IndexError | RuntimeError | ZeroDivisionError | TypeError.

Inductive result (A : Type) : Type :=
| Ok (a : A)
| Raise (e : exn).
Arguments Ok {A} a.
Arguments Raise {A} e.

Definition bind {A B : Type} (m : result A) (k : A -> result B) : result B :=
  match m with
  | Ok a => k a
  | Raise e => Raise e
  end.

Notation "x <- m ;; k" := (bind m (fun x => k))
  (at level 100, m at next level, right associativity).

(** [for x in xs: acc = body(acc, x)], stopping at the first exception. *)
Fixpoint for_each {A S : Type} (body : S -> A -> result S) (xs : list A) (acc : S)
  : result S :=
  match xs with
  | [] => Ok acc
  | x :: xs' => acc' <- body acc x ;; for_each body xs' acc'
  end.

(** [enumerate(xs)], counting from [start]. *)
Fixpoint enumerate_from {A : Type} (start : nat) (xs : list A) : list (nat * A) :=
  match xs with
  | [] => []
  | x :: xs' => (start, x) :: enumerate_from (S start) xs'
  end.

Definition enumerate {A : Type} (xs : list A) : list (nat * A) := enumerate_from 0 xs.

(** [xs[i]] on a Python list or tuple. *)
Definition getitem {A : Type} (xs : list A) (i : nat) : result A :=
  match xs !! i with
  | Some x => Ok x
  | None => Raise IndexError
  end.

(** ** Insertion-ordered dicts *)

Module Dict.
Section dict.
Context {K V : Type} `{EqDecision K}.

Definition t : Type := list (K * V).

Fixpoint get (k : K) (d : list (K * V)) : option V :=
  match d with
  | [] => None
  | (k', v) :: d' => if decide (k = k') then Some v else get k d'
  end.

(** [d[k]] *)
Definition item (k : K) (d : list (K * V)) : result V :=
  match get k d with
  | Some v => Ok v
  | None => Raise KeyError
  end.

(** [d[k] = v]: an existing key keeps its place, a new one goes last. *)
Fixpoint set (k : K) (v : V) (d : list (K * V)) : list (K * V) :=
  match d with
  | [] => [(k, v)]
  | (k', v') :: d' =>
      if decide (k = k') then (k, v) :: d' else (k', v') :: set k v d'
  end.

Definition keys (d : list (K * V)) : list K := d.*1.

(** [dict.fromkeys(ks, v)] *)
Definition fromkeys (ks : list K) (v : V) : list (K * V) :=
  foldl (fun d k => set k v d) [] ks.
End dict.
Arguments t : clear implicits.
End Dict.

(** ** Tensors *)

(** A 2-D tensor: its shape and its rows.  The shape is kept apart from the
    rows because a [(0, k)] tensor has no row to read [k] from. *)
Record Tensor (R : Type) : Type := mkTensor {
  nrows : nat;
  ncols : nat;
  rows : list (list R)
}.
Arguments mkTensor {R} _ _ _.
Arguments nrows {R} _.
Arguments ncols {R} _.
Arguments rows {R} _.

Definition wf_tensor {R : Type} (t : Tensor R) : Prop :=
  length (rows t) = nrows t /\ Forall (fun r => length r = ncols t) (rows t).

(** What [torch.chunk] needs of its argument.  The layer chunks both
    activations (values) and parameters (whose chunks are views that
    [reset_parameters] writes through). *)
Class TensorLike (T : Type) : Type := {
  size : T -> Z -> result nat;
  narrow : T -> Z -> nat -> nat -> T
}.

(** A dimension index of a 2-D tensor: [0] and [-2] are the rows, [1] and
    [-1] the columns, anything else is out of range. *)
Definition dim_is_rows (dim : Z) : bool := ((dim =? 0) || (dim =? -2))%Z.
Definition dim_is_cols (dim : Z) : bool := ((dim =? 1) || (dim =? -1))%Z.

Definition tensor_size {R : Type} (t : Tensor R) (dim : Z) : result nat :=
  if dim_is_rows dim then Ok (nrows t)
  else if dim_is_cols dim then Ok (ncols t)
  else Raise IndexError.

Definition tensor_narrow {R : Type} (t : Tensor R) (dim : Z) (start len : nat)
  : Tensor R :=
  if dim_is_rows dim
  then mkTensor len (ncols t) (take len (drop start (rows t)))
  else mkTensor (nrows t) len ((fun r => take len (drop start r)) <$> rows t).

#[global] Instance tensor_like {R : Type} : TensorLike (Tensor R) :=
  {| size := tensor_size; narrow := tensor_narrow |}.

(** A view of a block of a stored 2-D parameter: rows [v_r0, v_r0 + v_nr),
    columns [v_c0, v_c0 + v_nc) of the tensor stored under [v_key]. *)
Record View : Set := mkView {
  v_key : string;
  v_r0 : nat;
  v_nr : nat;
  v_c0 : nat;
  v_nc : nat
}.

Definition view_size (v : View) (dim : Z) : result nat :=
  if dim_is_rows dim then Ok (v_nr v)
  else if dim_is_cols dim then Ok (v_nc v)
  else Raise IndexError.

Definition view_narrow (v : View) (dim : Z) (start len : nat) : View :=
  if dim_is_rows dim
  then mkView (v_key v) (v_r0 v + start) len (v_c0 v) (v_nc v)
  else mkView (v_key v) (v_r0 v) (v_nr v) (v_c0 v + start) len.

#[global] Instance view_like : TensorLike View :=
  {| size := view_size; narrow := view_narrow |}.

(** *** [torch.split], [torch.chunk] *)

(** The [(start, length)] pairs of [Tensor.split(split_size, dim)]:
    [num_splits = max(ceil(dim_size / split_size), 1)] pieces of
    [split_size], the last one shorter. *)
Definition split_ranges (dim_size split_size : nat) : list (nat * nat) :=
  let num_splits :=
    if split_size =? 0 then 1
    else Nat.max ((dim_size + split_size - 1) / split_size) 1 in
  let last_split_size := split_size - (split_size * num_splits - dim_size) in
  (fun i => (i * split_size,
             if i <? num_splits - 1 then split_size else last_split_size))
    <$> seq 0 num_splits.

(** The pairs of [Tensor.split_with_sizes(sizes, dim)]. *)
Fixpoint split_with_sizes_ranges (start : nat) (sizes : list nat) : list (nat * nat) :=
  match sizes with
  | [] => []
  | n :: sizes' => (start, n) :: split_with_sizes_ranges (start + n) sizes'
  end.

(** [torch.chunk]'s ranges, for [chunks > 0]. *)
Definition chunk_ranges (dim_size chunks : nat) : list (nat * nat) :=
  let split_size := (dim_size + chunks - 1) / chunks in
  if (split_size =? 0) && (dim_size =? 0)
  then split_with_sizes_ranges 0 (replicate chunks 0)
  else split_ranges dim_size split_size.

(** [torch.chunk(t, chunks, dim)]: refuses [chunks <= 0], then cuts [dim]
    into pieces of [ceil(dim_size / chunks)]; it may return fewer than
    [chunks] pieces. *)
Definition torch_chunk {T : Type} `{TensorLike T} (t : T) (chunks : nat) (dim : Z)
  : result (list T) :=
  if chunks =? 0 then Raise RuntimeError
  else
    dim_size <- size t dim ;;
    Ok ((fun '(start, len) => narrow t dim start len) <$> chunk_ranges dim_size chunks).

(** ** The collaborators of the layer *)

(** What [mha_gat_n2n] is given as features: one tensor on a homogeneous
    graph, a (source, destination) pair on a bipartite one.  An entry of the
    split dicts that was never assigned is [None]. *)
Inductive Feat (R : Type) : Type :=
| Single (x : option (Tensor R))
| Pair (x_src x_dst : option (Tensor R)).
Arguments Single {R} x.
Arguments Pair {R} x_src x_dst.

Class Backend : Type := {
  (** Tensor scalar elements and Python floats *)
  scalar : Type;
  scalar_zero : scalar;
  (** what [torch.empty] leaves in a fresh tensor *)
  uninit : scalar;
  (** the process-wide random generator of [torch]: [torch.manual_seed] and
      one draw of [uniform_(-stdv, stdv)] with [stdv = sqrt(6 / fan)] *)
  Generator : Type;
  manual_seed : Z -> Generator;
  uniform : nat -> Generator -> scalar * Generator;
  (** the inner product of [x @ w.T] *)
  dot : list scalar -> list scalar -> scalar;
  (** [torch_geometric.__version__], its first three numbers *)
  pyg_version : nat * nat * nat;
  (** [BaseConv.to_csc], [BaseConv.get_cugraph] *)
  EdgeIndex : Type;
  CSC : Type;
  Graph : Type;
  to_csc : EdgeIndex -> nat * nat -> result CSC;
  get_cugraph : CSC -> bool -> result Graph;
  (** [pylibcugraphops.pytorch.operators.mha_gat_n2n(feat, attn_weights,
      graph, num_heads, activation, negative_slope, concat_heads)] *)
  mha_gat_n2n :
    Feat scalar -> list scalar -> Graph -> nat -> string -> scalar -> bool ->
    result (Tensor scalar);
  (** [out + bias], broadcast over the rows *)
  add_bias : Tensor scalar -> list scalar -> result (Tensor scalar);
  (** [torch.cat(xs, dim=-1)]; [getattr(torch, aggr)(torch.stack(xs), dim=0)] *)
  torch_cat : list (Tensor scalar) -> result (Tensor scalar);
  torch_reduce : string -> list (Tensor scalar) -> result (Tensor scalar)
}.

(** ** The layer *)

Definition EdgeType : Type := string * string * string.
Definition src_of (e : EdgeType) : string := e.1.1.
Definition dst_of (e : EdgeType) : string := e.2.

Section layer.
Context `{B : Backend}.

(** [in_channels : Union[int, dict[str, int]]] *)
Inductive InChannels : Type :=
| IntChannels (n : nat)
| DictChannels (d : list (string * nat)).

(** The arguments of [__init__].  Sizes are naturals. *)
Record Config : Type := mkConfig {
  cfg_in_channels : InChannels;
  cfg_out_channels : nat;
  cfg_node_types : list string;
  cfg_edge_types : list EdgeType;
  cfg_heads : nat;
  cfg_concat : bool;
  cfg_negative_slope : scalar;
  cfg_bias : bool;
  cfg_aggr : string
}.

Record Layer : Type := mkLayer {
  in_channels : list (string * nat);
  out_channels : nat;
  node_types : list string;
  edge_types : list EdgeType;
  num_heads : nat;
  concat_heads : bool;
  negative_slope : scalar;
  aggr : string;
  (** a [defaultdict(lambda: ([], []))] *)
  relations_per_ntype : list (string * (list EdgeType * list EdgeType));
  lin_weights : list (string * Tensor scalar);
  attn_weights : list (EdgeType * list scalar);
  bias : option (list (EdgeType * list scalar))
}.

(** [torch.empty(n)], [torch.empty((r, c))] *)
Definition torch_empty1 (n : nat) : list scalar := replicate n uninit.
Definition torch_empty2 (r c : nat) : Tensor scalar :=
  mkTensor r c (replicate r (replicate c uninit)).

(** [relations_per_ntype[ntype]].  Reading a missing key of the
    defaultdict yields (and stores) a fresh [([], [])]; every read goes
    through here, so the stored copy is never told apart from the
    default and is left out. *)
Definition relations_of
    (rel : list (string * (list EdgeType * list EdgeType))) (ntype : string)
  : list EdgeType * list EdgeType :=
  default ([], []) (Dict.get ntype rel).

(** [pyg_version < (2, 4, 0)], on tuples *)
Definition version_lt (v w : nat * nat * nat) : bool :=
  let '(a, b, c) := v in
  let '(a', b', c') := w in
  (a <? a') || ((a =? a') && ((b <? b') || ((b =? b') && (c <? c')))).

(** *** [__init__], up to the call of [reset_parameters] *)

(** The body of [for edge_type in self.edge_types] (lines 105-120). *)
Definition register_edge_type (cfg : Config)
    (st : list (string * (list EdgeType * list EdgeType))
          * list (EdgeType * option (list scalar)) * list (EdgeType * option (list scalar)))
    (edge_type : EdgeType) :=
  let '(rel, attn, biases) := st in
  let src_type := src_of edge_type in
  let dst_type := dst_of edge_type in
  let rel :=
    let '(srcs, dsts) := relations_of rel src_type in
    Dict.set src_type (srcs ++ [edge_type], dsts) rel in
  let rel :=
    if decide (src_type <> dst_type)
    then
      let '(srcs, dsts) := relations_of rel dst_type in
      Dict.set dst_type (srcs, dsts ++ [edge_type]) rel
    else rel in
  let attn :=
    Dict.set edge_type
      (Some (torch_empty1 (2 * cfg_heads cfg * cfg_out_channels cfg))) attn in
  let biases :=
    if cfg_bias cfg && cfg_concat cfg
    then Dict.set edge_type
           (Some (torch_empty1 (cfg_heads cfg * cfg_out_channels cfg))) biases
    else if cfg_bias cfg
    then Dict.set edge_type (Some (torch_empty1 (cfg_out_channels cfg))) biases
    else Dict.set edge_type None biases in
  (rel, attn, biases).

(** The body of [for ntype in self.node_types] (lines 122-129). *)
Definition allocate_lin_weight (cfg : Config) (in_ch : list (string * nat))
    (rel : list (string * (list EdgeType * list EdgeType)))
    (lin : list (string * option (Tensor scalar))) (ntype : string)
  : result (list (string * option (Tensor scalar))) :=
  let n_src_rel := length (relations_of rel ntype).1 in
  let n_dst_rel := length (relations_of rel ntype).2 in
  let n_rel := n_src_rel + n_dst_rel in
  width <- Dict.item ntype in_ch ;;
  Ok (Dict.set ntype
        (Some (torch_empty2 (n_rel * cfg_heads cfg * cfg_out_channels cfg) width))
        lin).

(** A dict made by [dict.fromkeys(ks)] whose every value has been assigned
    since ([ParameterDict(d)] in [__init__], [feat_dict] in [forward]). *)
Fixpoint all_assigned {K V : Type} (d : list (K * option V)) : result (list (K * V)) :=
  match d with
  | [] => Ok []
  | (k, Some v) :: d' => d'' <- all_assigned d' ;; Ok ((k, v) :: d'')
  | (_, None) :: _ => Raise TypeError
  end.

(** Lines 77-137 of [__init__]: the version gate, the relation index and
    the allocation of the parameters. *)
Definition allocate (cfg : Config) : result Layer :=
  if version_lt pyg_version (2, 4, 0) then Raise RuntimeError
  else
    let in_ch :=
      match cfg_in_channels cfg with
      | IntChannels n => Dict.fromkeys (cfg_node_types cfg) n
      | DictChannels d => d
      end in
    let lin_weights0 := Dict.fromkeys (cfg_node_types cfg) None in
    let attn_weights0 := Dict.fromkeys (cfg_edge_types cfg) None in
    let biases0 := Dict.fromkeys (cfg_edge_types cfg) None in
    let '(rel, attn, biases) :=
      foldl (register_edge_type cfg) ([], attn_weights0, biases0)
            (cfg_edge_types cfg) in
    lin <- for_each (allocate_lin_weight cfg in_ch rel)
                    (cfg_node_types cfg) lin_weights0 ;;
    lin <- all_assigned lin ;;
    attn <- all_assigned attn ;;
    bias <- (if cfg_bias cfg
             then biases <- all_assigned biases ;; Ok (Some biases)
             else Ok None) ;;
    Ok {| in_channels := in_ch;
          out_channels := cfg_out_channels cfg;
          node_types := cfg_node_types cfg;
          edge_types := cfg_edge_types cfg;
          num_heads := cfg_heads cfg;
          concat_heads := cfg_concat cfg;
          negative_slope := cfg_negative_slope cfg;
          aggr := cfg_aggr cfg;
          relations_per_ntype := rel;
          lin_weights := lin;
          attn_weights := attn;
          bias := bias |}.

(** *** [split_tensors] *)

(** The body of [for ntype, t in x_fused_dict.items()] (lines 168-177). *)
Definition split_one {T : Type} `{TensorLike T} (self : Layer) (dim : Z)
    (dicts : list (EdgeType * option T) * list (EdgeType * option T))
    (entry : string * T)
  : result (list (EdgeType * option T) * list (EdgeType * option T)) :=
  let '(x_src_dict, x_dst_dict) := dicts in
  let '(ntype, t) := entry in
  let n_src_rel := length (relations_of (relations_per_ntype self) ntype).1 in
  let n_dst_rel := length (relations_of (relations_per_ntype self) ntype).2 in
  let n_rel := n_src_rel + n_dst_rel in
  t_list <- torch_chunk t n_rel dim ;;
  x_src_dict <-
    for_each (fun d '(i, src_rel) =>
                c <- getitem t_list i ;; Ok (Dict.set src_rel (Some c) d))
             (enumerate (relations_of (relations_per_ntype self) ntype).1)
             x_src_dict ;;
  x_dst_dict <-
    for_each (fun d '(i, dst_rel) =>
                c <- getitem t_list (i + n_src_rel) ;; Ok (Dict.set dst_rel (Some c) d))
             (enumerate (relations_of (relations_per_ntype self) ntype).2)
             x_dst_dict ;;
  Ok (x_src_dict, x_dst_dict).

Definition split_tensors {T : Type} `{TensorLike T} (self : Layer)
    (x_fused_dict : list (string * T)) (dim : Z)
  : result (list (EdgeType * option T) * list (EdgeType * option T)) :=
  let x_src_dict := Dict.fromkeys (edge_types self) None in
  let x_dst_dict := Dict.fromkeys (edge_types self) None in
  for_each (split_one self dim) x_fused_dict (x_src_dict, x_dst_dict).

(** *** [reset_parameters] *)

(** [n] successive draws of the generator. *)
Fixpoint draws (fan n : nat) (g : Generator) : list scalar * Generator :=
  match n with
  | 0 => ([], g)
  | S n' =>
      let '(x, g) := uniform fan g in
      let '(xs, g) := draws fan n' g in
      (x :: xs, g)
  end.

(** [nr] rows of [nc] draws each, row after row. *)
Fixpoint draw_rows (fan nr nc : nat) (g : Generator)
  : list (list scalar) * Generator :=
  match nr with
  | 0 => ([], g)
  | S nr' =>
      let '(r, g) := draws fan nc g in
      let '(rs, g) := draw_rows fan nr' nc g in
      (r :: rs, g)
  end.

(** The denominator of [stdv = math.sqrt(6.0 / (value.size(-2) +
    value.size(-1)))] in [torch_geometric.nn.inits.glorot]. *)
Definition glorot_fan (size_m2 size_m1 : nat) : result nat :=
  if size_m2 + size_m1 =? 0 then Raise ZeroDivisionError
  else Ok (size_m2 + size_m1).

(** Writing [blk] over the block [v] of [w]. *)
Definition write_block (w : Tensor scalar) (v : View) (blk : list (list scalar))
  : Tensor scalar :=
  mkTensor (nrows w) (ncols w)
    (take (v_r0 v) (rows w)
     ++ zip_with (fun old new =>
                    take (v_c0 v) old ++ new ++ drop (v_c0 v + v_nc v) old)
                 (take (v_nr v) (drop (v_r0 v) (rows w))) blk
     ++ drop (v_r0 v + v_nr v) (rows w)).

(** [glorot(value)] on a chunk of a fused weight: [value.data.uniform_]
    writes through the view into the parameter.  On [None] (a value that
    is no tensor and has no parameters) [glorot] does nothing. *)
Definition glorot_view (value : option View)
    (st : list (string * Tensor scalar) * Generator)
  : result (list (string * Tensor scalar) * Generator) :=
  match value with
  | None => Ok st
  | Some v =>
      fan <- glorot_fan (v_nr v) (v_nc v) ;;
      w <- Dict.item (v_key v) st.1 ;;
      let '(blk, g) := draw_rows fan (v_nr v) (v_nc v) st.2 in
      Ok (Dict.set (v_key v) (write_block w v blk) st.1, g)
  end.

(** The shape of [a.view(-1, h, c)] for a 1-D [a] of [numel] elements. *)
Definition view_shape (numel h c : nat) : result (nat * nat * nat) :=
  let newsize := h * c in
  if (numel =? newsize) || ((0 <? newsize) && (numel mod newsize =? 0))
  then if newsize =? 0 then Raise RuntimeError else Ok (numel / newsize, h, c)
  else Raise RuntimeError.

(** [glorot(a.view(-1, num_heads, out_channels))] *)
Definition glorot_attn (a : list scalar) (h c : nat) (g : Generator)
  : result (list scalar * Generator) :=
  shape <- view_shape (length a) h c ;;
  fan <- glorot_fan shape.1.2 shape.2 ;;
  Ok (draws fan (length a) g).

(** [zeros(b)] *)
Definition zeros (b : list scalar) : list scalar := replicate (length b) scalar_zero.

(** The whole parameters as views of themselves. *)
Definition param_views (lin : list (string * Tensor scalar)) : list (string * View) :=
  (fun '(k, w) => (k, mkView k 0 (nrows w) 0 (ncols w))) <$> lin.

Definition set_params (self : Layer) (lin : list (string * Tensor scalar))
    (attn : list (EdgeType * list scalar))
    (b : option (list (EdgeType * list scalar))) : Layer :=
  {| in_channels := in_channels self;
     out_channels := out_channels self;
     node_types := node_types self;
     edge_types := edge_types self;
     num_heads := num_heads self;
     concat_heads := concat_heads self;
     negative_slope := negative_slope self;
     aggr := aggr self;
     relations_per_ntype := relations_per_ntype self;
     lin_weights := lin;
     attn_weights := attn;
     bias := b |}.

(** The body of [for edge_type in self.edge_types] (lines 187-204). *)
Definition reset_edge_type
    (w_src w_dst : list (EdgeType * option View))
    (st : Layer * Generator) (edge_type : EdgeType)
  : result (Layer * Generator) :=
  let '(self, g) := st in
  let src_type := src_of edge_type in
  let dst_type := dst_of edge_type in
  v <- Dict.item edge_type w_src ;;
  lg <- glorot_view v (lin_weights self, g) ;;
  lg <- (if decide (src_type <> dst_type)
         then v <- Dict.item edge_type w_dst ;; glorot_view v lg
         else Ok lg) ;;
  a <- Dict.item edge_type (attn_weights self) ;;
  ag <- glorot_attn a (num_heads self) (out_channels self) lg.2 ;;
  b <- match bias self with
       | Some bs =>
           x <- Dict.item edge_type bs ;;
           Ok (Some (Dict.set edge_type (zeros x) bs))
       | None => Ok None
       end ;;
  Ok (set_params self lg.1 (Dict.set edge_type ag.1 (attn_weights self)) b, ag.2).

(** [reset_parameters(seed)], with the generator of the process threaded
    through. *)
Definition reset_parameters (self : Layer) (seed : option Z) (g : Generator)
  : result (Layer * Generator) :=
  let g := match seed with
           | Some s => manual_seed s
           | None => g
           end in
  ws <- split_tensors self (param_views (lin_weights self)) 0 ;;
  for_each (reset_edge_type ws.1 ws.2) (edge_types self) (self, g).

(** [HeteroGATConv(...)] *)
Definition init (cfg : Config) (g : Generator) : result (Layer * Generator) :=
  self <- allocate cfg ;;
  reset_parameters self None g.

(** *** [forward] *)

(** [x @ w.T] *)
Definition matmul_T (x w : Tensor scalar) : result (Tensor scalar) :=
  if ncols x =? ncols w
  then Ok (mkTensor (nrows x) (nrows w) ((fun xr => dot xr <$> rows w) <$> rows x))
  else Raise RuntimeError.

(** The body of [for ntype, x in x_dict.items()] (lines 213-214). *)
Definition project (self : Layer)
    (feat_dict : list (string * option (Tensor scalar)))
    (entry : string * Tensor scalar)
  : result (list (string * option (Tensor scalar))) :=
  let '(ntype, x) := entry in
  w <- Dict.item ntype (lin_weights self) ;;
  y <- matmul_T x w ;;
  Ok (Dict.set ntype (Some y) feat_dict).

(** Lines 211-214: the fused projections. *)
Definition projector (self : Layer) (x_dict : list (string * Tensor scalar))
  : result (list (string * Tensor scalar)) :=
  let feat_dict := Dict.fromkeys (Dict.keys x_dict) None in
  feat_dict <- for_each (project self) x_dict feat_dict ;;
  all_assigned feat_dict.

(** Lines 223-258: the output of one relation. *)
Definition relation_output (self : Layer)
    (x_dict : list (string * Tensor scalar))
    (x_src_dict x_dst_dict : list (EdgeType * option (Tensor scalar)))
    (edge_type : EdgeType) (edge_index : EdgeIndex)
  : result (Tensor scalar) :=
  let src_type := src_of edge_type in
  let dst_type := dst_of edge_type in
  xs <- Dict.item src_type x_dict ;;
  xd <- Dict.item dst_type x_dict ;;
  csc <- to_csc edge_index (nrows xs, nrows xd) ;;
  out <- (if decide (src_type = dst_type)
          then
            graph <- get_cugraph csc false ;;
            f <- Dict.item edge_type x_src_dict ;;
            a <- Dict.item edge_type (attn_weights self) ;;
            mha_gat_n2n (Single f) a graph (num_heads self) "LeakyReLU"
                        (negative_slope self) (concat_heads self)
          else
            graph <- get_cugraph csc true ;;
            fs <- Dict.item edge_type x_src_dict ;;
            fd <- Dict.item edge_type x_dst_dict ;;
            a <- Dict.item edge_type (attn_weights self) ;;
            mha_gat_n2n (Pair fs fd) a graph (num_heads self) "LeakyReLU"
                        (negative_slope self) (concat_heads self)) ;;
  match bias self with
  | Some bs => b <- Dict.item edge_type bs ;; add_bias out b
  | None => Ok out
  end.

(** The body of [for edge_type, edge_index in edge_index_dict.items()]:
    [out_dict] is a [defaultdict(list)]. *)
Definition dispatch (self : Layer)
    (x_dict : list (string * Tensor scalar))
    (x_src_dict x_dst_dict : list (EdgeType * option (Tensor scalar)))
    (out_dict : list (string * list (Tensor scalar)))
    (entry : EdgeType * EdgeIndex)
  : result (list (string * list (Tensor scalar))) :=
  let '(edge_type, edge_index) := entry in
  out <- relation_output self x_dict x_src_dict x_dst_dict edge_type edge_index ;;
  let dst_type := dst_of edge_type in
  Ok (Dict.set dst_type (default [] (Dict.get dst_type out_dict) ++ [out]) out_dict).

(** [torch_geometric.nn.conv.hetero_conv.group(xs, aggr)] for a string
    [aggr]: nothing for no tensor, the tensor itself for a single one,
    otherwise the concatenation or the named reduction of the stack. *)
Definition group (xs : list (Tensor scalar)) (aggr : string)
  : result (option (Tensor scalar)) :=
  match xs with
  | [] => Ok None
  | [x] => Ok (Some x)
  | _ =>
      if decide (aggr = "cat")
      then out <- torch_cat xs ;; Ok (Some out)
      else out <- torch_reduce aggr xs ;; Ok (Some out)
  end.

(** The body of [for key, value in out_dict.items()] (lines 262-263). *)
Definition reduce_entry (self : Layer)
    (acc : list (string * option (Tensor scalar)))
    (entry : string * list (Tensor scalar))
  : result (list (string * option (Tensor scalar))) :=
  let '(key, value) := entry in
  out <- group value (aggr self) ;;
  Ok (Dict.set key out acc).

Definition forward (self : Layer)
    (x_dict : list (string * Tensor scalar))
    (edge_index_dict : list (EdgeType * EdgeIndex))
  : result (list (string * option (Tensor scalar))) :=
  feat_dict <- projector self x_dict ;;
  xs <- split_tensors self feat_dict 1 ;;
  out_dict <- for_each (dispatch self x_dict xs.1 xs.2) edge_index_dict [] ;;
  for_each (reduce_entry self) out_dict [].

End layer.

(** ** Notions used in the statements *)

(** The relations a node type is the source of, and those it is the
    destination of without being their source, in the order of the list. *)
Definition src_rels (ets : list EdgeType) (ntype : string) : list EdgeType :=
  filter (fun e => src_of e = ntype) ets.

Definition dst_rels (ets : list EdgeType) (ntype : string) : list EdgeType :=
  filter (fun e => dst_of e = ntype /\ src_of e <> dst_of e) ets.

(** The last position of [x] in [l]. *)
Fixpoint last_index {A : Type} `{EqDecision A} (x : A) (l : list A) : option nat :=
  match l with
  | [] => None
  | y :: l' =>
      match last_index x l' with
      | Some i => Some (S i)
      | None => if decide (y = x) then Some 0 else None
      end
  end.

(** [for i, k in enumerate(ks, start): d[k] = f(i)] *)
Definition assign {K V : Type} `{EqDecision K} (f : nat -> V) (start : nat)
    (ks : list K) (d : list (K * V)) : list (K * V) :=
  foldl (fun d '(i, k) => Dict.set k (f i) d) d (enumerate_from start ks).

(** The chunks of [t] when [dim] has size [k * w]: the [i]-th is the slice
    [[i * w, (i + 1) * w)]. *)
Definition even_chunks {T : Type} `{TensorLike T} (t : T) (k w : nat) (dim : Z)
  : list T :=
  (fun i => narrow t dim (i * w) w) <$> seq 0 k.

Section layout.
Context `{B : Backend}.

Definition srcs_of (self : Layer) (ntype : string) : list EdgeType :=
  (relations_of (relations_per_ntype self) ntype).1.

Definition dsts_of (self : Layer) (ntype : string) : list EdgeType :=
  (relations_of (relations_per_ntype self) ntype).2.

Definition n_rel_of (self : Layer) (ntype : string) : nat :=
  length (srcs_of self ntype) + length (dsts_of self ntype).

(** The width of the block of one relation: [heads * out_channels]. *)
Definition block_of (self : Layer) : nat := num_heads self * out_channels self.

(** What the allocation establishes and [reset_parameters] keeps: the
    relation index follows the edge types, the fused weights are those of
    the node types and have the planned shapes, every edge type has its
    attention vector and, with [bias], its bias vector. *)
Record layout_ok (self : Layer) : Prop := {
  ok_rel : forall ntype,
    relations_of (relations_per_ntype self) ntype
    = (src_rels (edge_types self) ntype, dst_rels (edge_types self) ntype);
  ok_lin_keys : forall ntype,
    ntype ∈ Dict.keys (lin_weights self) <-> ntype ∈ node_types self;
  ok_lin_nodup : NoDup (Dict.keys (lin_weights self));
  ok_lin_shape : forall ntype w,
    Dict.get ntype (lin_weights self) = Some w ->
    wf_tensor w
    /\ nrows w = n_rel_of self ntype * num_heads self * out_channels self
    /\ Dict.get ntype (in_channels self) = Some (ncols w);
  ok_attn : forall e,
    e ∈ edge_types self <->
    exists a, Dict.get e (attn_weights self) = Some a
              /\ length a = 2 * num_heads self * out_channels self;
  ok_bias : forall bs e,
    bias self = Some bs ->
    e ∈ edge_types self <-> is_Some (Dict.get e bs)
}.

End layout.

(** What [split_tensors] leaves under an edge type: the chunk of the fused
    tensor of its source type (of its destination type) at the position of
    the edge type in that node type's source list (after the source
    relations, in its destination list); [w] is the size of a chunk.  An
    edge type listed more than once keeps the chunk of its last position. *)
Definition src_chunk {T : Type} `{TensorLike T} `{B : Backend} (self : Layer)
    (fused : list (string * T)) (dim : Z) (w : nat) (e : EdgeType) : option T :=
  match Dict.get (src_of e) fused, last_index e (srcs_of self (src_of e)) with
  | Some t, Some i => Some (narrow t dim (i * w) w)
  | _, _ => None
  end.

Definition dst_chunk {T : Type} `{TensorLike T} `{B : Backend} (self : Layer)
    (fused : list (string * T)) (dim : Z) (w : nat) (e : EdgeType) : option T :=
  match Dict.get (dst_of e) fused, last_index e (dsts_of self (dst_of e)) with
  | Some t, Some j =>
      Some (narrow t dim ((j + length (srcs_of self (dst_of e))) * w) w)
  | _, _ => None
  end.

(** One iteration of [split_tensors] on a tensor whose [dim] is a multiple
    of the relation count. *)
Definition split_step {T : Type} `{TensorLike T} `{B : Backend} (self : Layer)
    (dim : Z) (w : nat)
    (dicts : list (EdgeType * option T) * list (EdgeType * option T))
    (entry : string * T) :=
  (assign (fun i => Some (narrow entry.2 dim (i * w) w)) 0
          (srcs_of self entry.1) dicts.1,
   assign (fun j => Some (narrow entry.2 dim
                            ((j + length (srcs_of self entry.1)) * w) w)) 0
          (dsts_of self entry.1) dicts.2).

(** The shapes of the stored parameters, key by key. *)
Definition shapes_of {R : Type} (lin : list (string * Tensor R))
  : list (string * (nat * nat)) :=
  (fun kw => (kw.1, (nrows kw.2, ncols kw.2))) <$> lin.

Section same_layout.
Context `{B : Backend}.

(** Two states of one layer: the same configuration and relation index,
    parameters of the same shapes. *)
Record same_layout (self self' : Layer) : Prop := {
  same_in_channels : in_channels self' = in_channels self;
  same_out_channels : out_channels self' = out_channels self;
  same_node_types : node_types self' = node_types self;
  same_edge_types : edge_types self' = edge_types self;
  same_num_heads : num_heads self' = num_heads self;
  same_concat_heads : concat_heads self' = concat_heads self;
  same_negative_slope : negative_slope self' = negative_slope self;
  same_aggr : aggr self' = aggr self;
  same_relations : relations_per_ntype self' = relations_per_ntype self;
  same_lin_shapes : shapes_of (lin_weights self') = shapes_of (lin_weights self);
  same_attn_lengths : forall e,
    length <$> Dict.get e (attn_weights self')
    = length <$> Dict.get e (attn_weights self);
  same_bias : match bias self, bias self' with
              | Some bs, Some bs' =>
                  forall e, length <$> Dict.get e bs' = length <$> Dict.get e bs
              | None, None => True
              | _, _ => False
              end
}.

(** Every fused weight has as many rows and row entries as its shape says. *)
Definition lin_wf (self : Layer) : Prop :=
  forall k w, Dict.get k (lin_weights self) = Some w -> wf_tensor w.

End same_layout.

(** A view fits the current parameters. *)
Definition view_fits `{B : Backend} (lin : list (string * Tensor scalar)) (v : View) : Prop :=
  exists t, Dict.get (v_key v) lin = Some t /\ v_c0 v + v_nc v <= ncols t.

(** [e] is at position [i] of [l], and nowhere after it. *)
Definition last_at {A : Type} (l : list A) (i : nat) (e : A) : Prop :=
  l !! i = Some e /\ forall j, i < j -> l !! j <> Some e.

(** The outputs that land on a node type, among the per-relation outputs
    tagged with their edge type, in their order. *)
Definition landing {R : Type} (ntype : string) (tagged : list (EdgeType * Tensor R))
  : list (Tensor R) :=
  (filter (fun p => dst_of p.1 = ntype) tagged).*2.

(** The layer with [self.aggr] set to [a]. *)
Definition with_aggr `{B : Backend} (self : Layer) (a : string) : Layer :=
  {| in_channels := in_channels self;
     out_channels := out_channels self;
     node_types := node_types self;
     edge_types := edge_types self;
     num_heads := num_heads self;
     concat_heads := concat_heads self;
     negative_slope := negative_slope self;
     aggr := a;
     relations_per_ntype := relations_per_ntype self;
     lin_weights := lin_weights self;
     attn_weights := attn_weights self;
     bias := bias self |}.



(** The generator after a list of fills, each of [n] draws with one [fan]. *)
Definition advance `{B : Backend} (schedule : list (nat * nat)) (g : Generator)
  : Generator :=
  foldl (fun g fill => (draws fill.1 fill.2 g).2) g schedule.

(** The fills [reset_parameters] makes for one edge type: its source block
    when its source type has a fused weight, its destination block when the
    two types differ and the destination type has a fused weight, its
    attention vector. *)
Definition fills_of `{B : Backend} (self : Layer) (e : EdgeType) : list (nat * nat) :=
  match Dict.get (src_of e) (lin_weights self) with
  | Some w => [(block_of self + ncols w, block_of self * ncols w)]
  | None => []
  end
  ++ (if decide (src_of e <> dst_of e)
      then match Dict.get (dst_of e) (lin_weights self) with
           | Some w => [(block_of self + ncols w, block_of self * ncols w)]
           | None => []
           end
      else [])
  ++ [(num_heads self + out_channels self,
       2 * num_heads self * out_channels self)].

Definition draw_schedule `{B : Backend} (self : Layer) : list (nat * nat) :=
  e ← edge_types self; fills_of self e.


(** The keys a dict gets when the keys [ks] are set one after the other:
    each at its first appearance. *)
Definition in_order_of_appearance {K : Type} `{EqDecision K} (ks : list K) : list K :=
  foldl (fun seen k => if decide (k ∈ seen) then seen else seen ++ [k]) [] ks.

(** Two stores hold the same rows at the places [P]. *)
Definition agree_rows {R : Type} (P : string -> nat -> Prop)
    (lin_a lin_b : list (string * Tensor R)) : Prop :=
  forall ntype p w_a w_b,
    P ntype p -> Dict.get ntype lin_a = Some w_a -> Dict.get ntype lin_b = Some w_b ->
    rows w_a !! p = rows w_b !! p.

(** The bias vector of an edge type, if the layer has biases. *)
Definition bias_at `{B : Backend} (self : Layer) (e : EdgeType) : option (list scalar) :=
  match bias self with
  | Some bs => Dict.get e bs
  | None => None
  end.

(** The rows [reset_parameters] writes for an edge type: those of its
    source view and, when its two node types differ, of its destination
    view. *)
Definition written `{B : Backend} (self : Layer) (e : EdgeType)
    (ntype : string) (p : nat) : Prop :=
  (exists v, src_chunk self (param_views (lin_weights self)) 0 (block_of self) e
             = Some v
             /\ ntype = v_key v /\ v_r0 v <= p < v_r0 v + v_nr v)
  \/ (src_of e <> dst_of e
      /\ exists v, dst_chunk self (param_views (lin_weights self)) 0 (block_of self) e
                   = Some v
                   /\ ntype = v_key v /\ v_r0 v <= p < v_r0 v + v_nr v).

(** ** A small concrete backend

    Integers for scalars, a counter for the generator, and stand-ins for the
    kernels; the examples below run the layer on it. *)

Module Toy.

Definition toy_dot (x w : list Z) : Z :=
  foldr Z.add 0%Z (zip_with Z.mul x w).

Definition toy_mha (f : Feat Z) (a : list Z) (graph : list (nat * nat) * (nat * nat) * bool)
    (heads : nat) (activation : string) (slope : Z) (concat : bool)
  : result (Tensor Z) :=
  match f with
  | Single (Some x) => Ok x
  | Pair (Some x_src) (Some x_dst) => Ok x_dst
  | _ => Raise TypeError
  end.

Definition toy_add_bias (out : Tensor Z) (b : list Z) : result (Tensor Z) :=
  if length b =? ncols out
  then Ok (mkTensor (nrows out) (ncols out) ((fun r => zip_with Z.add r b) <$> rows out))
  else Raise RuntimeError.

Definition toy_sum (xs : list (Tensor Z)) : result (Tensor Z) :=
  match xs with
  | [] => Raise RuntimeError
  | x :: xs' =>
      Ok (foldl (fun acc y =>
                   mkTensor (nrows acc) (ncols acc)
                            (zip_with (zip_with Z.add) (rows acc) (rows y)))
                x xs')
  end.

#[export] Instance backend : Backend := {|
  scalar := Z;
  scalar_zero := 0%Z;
  uninit := (-1)%Z;
  Generator := nat;
  manual_seed := fun s => 1000 * Z.to_nat (Z.abs s);
  uniform := fun fan g => (Z.of_nat (10 * g + fan), S g);
  dot := toy_dot;
  pyg_version := (2, 4, 0);
  EdgeIndex := list (nat * nat);
  CSC := list (nat * nat) * (nat * nat);
  Graph := list (nat * nat) * (nat * nat) * bool;
  to_csc := fun ei sz => Ok (ei, sz);
  get_cugraph := fun csc bipartite => Ok (csc, bipartite);
  mha_gat_n2n := toy_mha;
  add_bias := toy_add_bias;
  torch_cat := fun xs => Raise RuntimeError;
  torch_reduce := fun name xs => toy_sum xs
|}.

Definition cfg_unreferenced : Config :=
  mkConfig (IntChannels 4) 2 ["A"; "B"] [("A", "r", "A")] 1 true 0%Z true "sum".

Definition cfg_two : Config :=
  mkConfig (IntChannels 3) 2 ["A"; "B"] [("A", "r1", "B"); ("B", "r2", "A"); ("A", "self", "A")]
           1 true 0%Z true "sum".

Definition x_two : list (string * Tensor Z) :=
  [("A", mkTensor 2 3 [[1; 2; 3]; [4; 5; 6]]%Z); ("B", mkTensor 1 3 [[1; 1; 1]]%Z)].

Definition edges_two : list (EdgeType * list (nat * nat)) :=
  [(("A", "r1", "B"), [(0, 0)]); (("B", "r2", "A"), [(0, 1)]);
   (("A", "self", "A"), [])].


Definition dummy_layer : Layer :=
  mkLayer [] 0 [] [] 0 false 0%Z "" [] [] [] None.

Definition layer_two : Layer :=
  Eval vm_compute in
    match init cfg_two 0 with
    | Ok (self, _) => self
    | Raise _ => dummy_layer
    end.

Definition allocated_unreferenced : Layer :=
  Eval vm_compute in
    match allocate cfg_unreferenced with
    | Ok self => self
    | Raise _ => dummy_layer
    end.


Definition feat_two : list (string * Tensor Z) :=
  Eval vm_compute in
    match projector layer_two x_two with
    | Ok feat_dict => feat_dict
    | Raise _ => []
    end.

Definition out_two : list (string * option (Tensor Z)) :=
  Eval vm_compute in
    match forward layer_two x_two edges_two with
    | Ok out => out
    | Raise _ => []
    end.

Definition out_two_mean : list (string * option (Tensor Z)) :=
  Eval vm_compute in
    match forward (with_aggr layer_two "mean") x_two edges_two with
    | Ok out => out
    | Raise _ => []
    end.



Definition reset_two : Layer * nat :=
  Eval vm_compute in
    match reset_parameters layer_two (Some 7%Z) 5 with
    | Ok st => st
    | Raise _ => (dummy_layer, 0)
    end.


Definition cfg_nobias : Config :=
  mkConfig (IntChannels 3) 2 ["A"; "B"] [("A", "r1", "B"); ("B", "r2", "A")]
           1 true 0%Z false "sum".

Definition layer_nobias : Layer :=
  Eval vm_compute in
    match init cfg_nobias 0 with
    | Ok (self, _) => self
    | Raise _ => dummy_layer
    end.

Definition generator_nobias : nat :=
  Eval vm_compute in
    match init cfg_nobias 0 with
    | Ok (_, g) => g
    | Raise _ => 0
    end.

Definition relation_nobias : Tensor Z :=
  Eval vm_compute in
    match relation_output layer_nobias x_two [(("A", "r1", "B"), Some (mkTensor 2 2 [[1; 2]; [3; 4]]%Z))]
            [(("A", "r1", "B"), Some (mkTensor 1 2 [[5; 6]]%Z))]
            ("A", "r1", "B") [(0, 0)] with
    | Ok out => out
    | Raise _ => mkTensor 0 0 []
    end.

Definition reseed_two : Layer * nat :=
  Eval vm_compute in
    match reset_parameters layer_two (Some 3%Z) 0 with
    | Ok st => st
    | Raise _ => (dummy_layer, 0)
    end.

Definition reseed_again : Layer * nat :=
  Eval vm_compute in
    match reset_parameters reset_two.1 (Some 3%Z) reset_two.2 with
    | Ok st => st
    | Raise _ => (dummy_layer, 0)
    end.

Definition cfg_repeated : Config :=
  mkConfig (IntChannels 2) 1 ["A"] [("A", "r", "A"); ("A", "r", "A")]
           1 true 0%Z true "sum".

Definition allocated_repeated : Layer :=
  Eval vm_compute in
    match allocate cfg_repeated with
    | Ok self => self
    | Raise _ => dummy_layer
    end.

Definition reset_repeated : Layer * nat :=
  Eval vm_compute in
    match reset_parameters allocated_repeated None 0 with
    | Ok st => st
    | Raise _ => (dummy_layer, 0)
    end.

End Toy.

(** * Properties *)

(** ** Dicts *)

Section dict_facts.
Context {K V : Type} `{EqDecision K}.
Implicit Types (k : K) (v : V) (d : list (K * V)).

Lemma get_set_eq k v d : Dict.get k (Dict.set k v d) = Some v.
Proof.
  induction d as [|[k' v'] d IH]; simpl.
  - by rewrite decide_True.
  - destruct (decide (k = k')) as [->|Hne]; simpl.
    + by rewrite decide_True.
    + by rewrite decide_False.
Qed.

Lemma get_set_ne k k' v d : k <> k' -> Dict.get k' (Dict.set k v d) = Dict.get k' d.
Proof.
  intros Hne. induction d as [|[k0 v0] d IH]; simpl.
  - by rewrite decide_False.
  - destruct (decide (k = k0)) as [->|Hne0]; simpl.
    + by rewrite !decide_False.
    + destruct (decide (k' = k0)); done.
Qed.

Lemma get_set k k' v d :
  Dict.get k' (Dict.set k v d) = if decide (k = k') then Some v else Dict.get k' d.
Proof.
  destruct (decide (k = k')) as [->|?]; [apply get_set_eq | by apply get_set_ne].
Qed.

Lemma get_Some_keys k d : is_Some (Dict.get k d) <-> k ∈ Dict.keys d.
Proof.
  unfold Dict.keys. induction d as [|[k' v'] d IH]; csimpl.
  - split; [intros [? ?]; done | intros ?%elem_of_nil; done].
  - rewrite elem_of_cons. destruct (decide (k = k')) as [->|Hne].
    + split; eauto.
    + rewrite IH. naive_solver.
Qed.

Lemma get_None_keys k d : Dict.get k d = None <-> k ∉ Dict.keys d.
Proof. rewrite <- get_Some_keys, eq_None_not_Some. done. Qed.

Lemma keys_set k v d :
  Dict.keys (Dict.set k v d)
  = if decide (k ∈ Dict.keys d) then Dict.keys d else Dict.keys d ++ [k].
Proof.
  unfold Dict.keys. induction d as [|[k' v'] d IH]; csimpl.
  - done.
  - destruct (decide (k = k')) as [->|Hne]; csimpl.
    + rewrite decide_True; [done | left].
    + rewrite IH. destruct (decide (k ∈ d.*1)) as [Hin|Hnin].
      * rewrite decide_True; [done | by right].
      * rewrite decide_False; [done |]. rewrite elem_of_cons. naive_solver.
Qed.

Lemma elem_of_keys_set k k' v d :
  k' ∈ Dict.keys (Dict.set k v d) <-> k' = k \/ k' ∈ Dict.keys d.
Proof.
  rewrite keys_set. case_decide.
  - naive_solver.
  - rewrite elem_of_app, list_elem_of_singleton. naive_solver.
Qed.

Lemma NoDup_keys_set k v d : NoDup (Dict.keys d) -> NoDup (Dict.keys (Dict.set k v d)).
Proof.
  intros Hnd. rewrite keys_set. case_decide; [done |].
  apply NoDup_app. split_and!; [done | | apply NoDup_singleton].
  intros x Hx ->%list_elem_of_singleton. done.
Qed.

Lemma get_fromkeys_acc k (ks : list K) v d :
  Dict.get k (foldl (fun d k => Dict.set k v d) d ks)
  = if decide (k ∈ ks) then Some v else Dict.get k d.
Proof.
  revert d. induction ks as [|k0 ks IH]; intros d; simpl.
  - done.
  - rewrite IH. destruct (decide (k ∈ ks)) as [Hin|Hnin].
    + rewrite decide_True; [done | by right].
    + rewrite get_set. destruct (decide (k0 = k)) as [->|Hne].
      * rewrite decide_True; [done | left].
      * rewrite decide_False; [done |]. rewrite elem_of_cons. naive_solver.
Qed.

Lemma get_fromkeys k (ks : list K) v :
  Dict.get k (Dict.fromkeys ks v) = if decide (k ∈ ks) then Some v else None.
Proof. apply get_fromkeys_acc. Qed.

Lemma elem_of_keys_fromkeys k (ks : list K) v :
  k ∈ Dict.keys (Dict.fromkeys ks v) <-> k ∈ ks.
Proof.
  rewrite <- get_Some_keys, get_fromkeys. case_decide; [naive_solver |].
  split; [intros [? ?]; done | done].
Qed.

Lemma NoDup_keys_fromkeys (ks : list K) v : NoDup (Dict.keys (Dict.fromkeys ks v)).
Proof.
  unfold Dict.fromkeys. generalize (NoDup_nil_2 (A:=K)).
  change (@nil K) with (Dict.keys (@nil (K * V))). generalize (@nil (K * V)).
  induction ks as [|k0 ks IH]; intros d Hd; simpl; [done |].
  apply IH. by apply NoDup_keys_set.
Qed.

End dict_facts.

(** ** Loops and assignments *)

Lemma bind_Ok_inv {A C : Type} (m : result A) (k : A -> result C) (c : C) :
  bind m k = Ok c -> exists a, m = Ok a /\ k a = Ok c.
Proof. destruct m as [a|e]; simpl; [eauto | done]. Qed.

Lemma for_each_app {A S : Type} (body : S -> A -> result S) (xs ys : list A) (acc : S) :
  for_each body (xs ++ ys) acc = bind (for_each body xs acc) (for_each body ys).
Proof.
  revert acc. induction xs as [|x xs IH]; intros acc; simpl; [done |].
  destruct (body acc x); simpl; [apply IH | done].
Qed.

(** A loop whose body never raises is a fold. *)
Lemma for_each_pure {A S : Type} (body : S -> A -> result S) (step : S -> A -> S)
    (xs : list A) (acc : S) :
  (forall s x, x ∈ xs -> body s x = Ok (step s x)) ->
  for_each body xs acc = Ok (foldl step acc xs).
Proof.
  revert acc. induction xs as [|x xs IH]; intros acc Hbody; simpl; [done |].
  rewrite Hbody by left. simpl. apply IH. intros s y Hy. apply Hbody. by right.
Qed.

(** An invariant kept by every successful iteration holds at the end. *)
Lemma for_each_invariant {A S : Type} (P : S -> Prop) (body : S -> A -> result S)
    (xs : list A) (acc acc' : S) :
  (forall s x s', x ∈ xs -> P s -> body s x = Ok s' -> P s') ->
  P acc -> for_each body xs acc = Ok acc' -> P acc'.
Proof.
  revert acc. induction xs as [|x xs IH]; intros acc Hstep Hacc; simpl.
  - by intros [= <-].
  - intros (s & Hs & Hrest)%bind_Ok_inv. eapply IH; [| |exact Hrest].
    + intros ? y ? Hy. apply Hstep. by right.
    + eapply Hstep; [left | exact Hacc | exact Hs].
Qed.

Lemma all_assigned_inv {K V : Type} (d : list (K * option V)) (d' : list (K * V)) :
  all_assigned d = Ok d' -> d = (fun kv => (kv.1, Some kv.2)) <$> d'.
Proof.
  revert d'. induction d as [|[k [v|]] d IH]; intros d'; simpl.
  - by intros [= <-].
  - intros (d'' & Hd'' & [= <-])%bind_Ok_inv. csimpl. f_equal. by apply IH.
  - done.
Qed.

Lemma all_assigned_fmap {K V : Type} (d' : list (K * V)) :
  all_assigned ((fun kv => (kv.1, Some kv.2)) <$> d') = Ok d'.
Proof.
  induction d' as [|[k v] d' IH]; csimpl; [done |]. by rewrite IH.
Qed.

Lemma get_fmap_Some {K V : Type} `{EqDecision K} (k : K) (d' : list (K * V)) :
  Dict.get k ((fun kv => (kv.1, Some kv.2)) <$> d') = Some <$> Dict.get k d'.
Proof.
  induction d' as [|[k' v] d' IH]; csimpl; [done |]. by case_decide.
Qed.

Lemma keys_fmap_Some {K V : Type} (d' : list (K * V)) :
  Dict.keys ((fun kv => (kv.1, Some kv.2)) <$> d') = Dict.keys d'.
Proof. unfold Dict.keys. rewrite <- list_fmap_compose. done. Qed.

Section assign_facts.
Context {K V : Type} `{EqDecision K}.
Implicit Types (k : K) (d : list (K * V)) (f : nat -> V).

Lemma last_index_None k (l : list K) : last_index k l = None <-> k ∉ l.
Proof.
  induction l as [|x l IH]; simpl.
  - split; [intros _; apply not_elem_of_nil | done].
  - rewrite not_elem_of_cons. destruct (last_index k l) as [i|].
    + split; [done | intros [_ Hnin]]. by apply IH in Hnin.
    + case_decide; naive_solver.
Qed.

Lemma last_index_Some k (l : list K) (i : nat) :
  last_index k l = Some i <->
  l !! i = Some k /\ forall j, i < j -> l !! j <> Some k.
Proof.
  revert i. induction l as [|x l IH]; intros i; simpl.
  - split; [done | intros [? _]; done].
  - destruct (last_index k l) as [i'|] eqn:Hl.
    + destruct (proj1 (IH i') eq_refl) as [Hi' Hlast']. split.
      * intros [= <-]. split; [done |].
        intros [|j] Hj; [lia |]. simpl. apply Hlast'. lia.
      * intros [Hi Hlast]. destruct i as [|i].
        -- exfalso. apply (Hlast (S i')); [lia | done].
        -- assert (Some i' = Some i) as [= ->]; [|done].
           apply IH. split; [done |].
           intros j Hj. apply (Hlast (S j)). lia.
    + apply last_index_None in Hl. case_decide as Hx.
      * subst x. split.
        -- intros [= <-]. split; [done |]. intros [|j] Hj; [lia |]. simpl.
           intros Hk%list_elem_of_lookup_2. done.
        -- intros [Hi _]. destruct i as [|i]; [done |]. simpl in Hi.
           apply list_elem_of_lookup_2 in Hi. done.
      * split; [done |]. intros [Hi _]. destruct i as [|i]; simpl in Hi.
        -- congruence.
        -- apply list_elem_of_lookup_2 in Hi. done.
Qed.

Lemma last_index_NoDup k (l : list K) (i : nat) :
  NoDup l -> l !! i = Some k -> last_index k l = Some i.
Proof.
  intros Hnd Hi. apply last_index_Some. split; [done |].
  intros j Hj Hk. assert (i = j) by (eapply NoDup_lookup; eauto). lia.
Qed.

Lemma assign_cons f start k (ks : list K) d :
  assign f start (k :: ks) d = assign f (S start) ks (Dict.set k (f start) d).
Proof. done. Qed.

Lemma get_assign f start (ks : list K) k d :
  Dict.get k (assign f start ks d)
  = match last_index k ks with
    | Some i => Some (f (start + i))
    | None => Dict.get k d
    end.
Proof.
  revert start d. induction ks as [|x ks IH]; intros start d; [done |].
  rewrite assign_cons, IH. simpl. destruct (last_index k ks) as [i|].
  - do 2 f_equal. lia.
  - rewrite get_set. case_decide; [|done]. do 2 f_equal. lia.
Qed.

Lemma elem_of_keys_assign f start (ks : list K) k d :
  k ∈ Dict.keys (assign f start ks d) <-> k ∈ Dict.keys d \/ k ∈ ks.
Proof.
  revert start d. induction ks as [|x ks IH]; intros start d.
  - unfold assign. simpl. rewrite elem_of_nil. naive_solver.
  - rewrite assign_cons, IH, elem_of_keys_set, elem_of_cons. naive_solver.
Qed.

Lemma NoDup_keys_assign f start (ks : list K) d :
  NoDup (Dict.keys d) -> NoDup (Dict.keys (assign f start ks d)).
Proof.
  revert start d. induction ks as [|x ks IH]; intros start d Hnd; [done |].
  rewrite assign_cons. apply IH. by apply NoDup_keys_set.
Qed.

End assign_facts.

(** ** [torch.chunk] on a dimension that is a multiple of the chunk count *)

Lemma split_with_sizes_ranges_zeros (start n : nat) :
  split_with_sizes_ranges start (replicate n 0) = (fun _ => (start, 0)) <$> seq 0 n.
Proof.
  revert start. induction n as [|n IH]; intros start; simpl; [done |].
  rewrite Nat.add_0_r, IH. f_equal. by rewrite <- (fmap_S_seq 0), <- list_fmap_compose.
Qed.

Lemma chunk_split_size (k w : nat) : 0 < k -> (k * w + k - 1) / k = w.
Proof.
  intros Hk. replace (k * w + k - 1) with (w * k + (k - 1)) by lia.
  rewrite Nat.div_add_l by lia. rewrite Nat.div_small by lia. lia.
Qed.

(** [k] chunks of [w], one after the other, and nothing left over. *)
Lemma chunk_ranges_exact (k w : nat) :
  0 < k -> chunk_ranges (k * w) k = (fun i => (i * w, w)) <$> seq 0 k.
Proof.
  intros Hk. unfold chunk_ranges. rewrite chunk_split_size by done.
  destruct w as [|w].
  - rewrite Nat.mul_0_r. simpl. rewrite split_with_sizes_ranges_zeros.
    apply list_fmap_ext. intros _ i _. f_equal. lia.
  - replace (S w =? 0) with false by done. simpl andb. cbv iota.
    unfold split_ranges. replace (S w =? 0) with false by done.
    replace ((k * S w + S w - 1) / S w) with k.
    2:{ replace (k * S w + S w - 1) with (k * S w + w) by lia.
        rewrite Nat.div_add_l by lia. rewrite Nat.div_small by lia. lia. }
    replace (Nat.max k 1) with k by lia.
    replace (S w - (S w * k - k * S w)) with (S w) by lia.
    apply list_fmap_ext. intros _ i _. by destruct (i <? k - 1).
Qed.

Lemma length_chunk_ranges_exact (k w : nat) :
  0 < k -> length (chunk_ranges (k * w) k) = k.
Proof. intros Hk. by rewrite chunk_ranges_exact, length_fmap, length_seq. Qed.

Section chunk_facts.
Context {T : Type} `{TL : TensorLike T}.

Lemma torch_chunk_exact (t : T) (k w : nat) (dim : Z) :
  0 < k -> size t dim = Ok (k * w) ->
  torch_chunk t k dim = Ok (even_chunks t k w dim).
Proof.
  intros Hk Hsize. unfold torch_chunk, even_chunks.
  replace (k =? 0) with false by (symmetry; apply Nat.eqb_neq; lia).
  rewrite Hsize. simpl. rewrite chunk_ranges_exact by done.
  by rewrite <- list_fmap_compose.
Qed.

Lemma torch_chunk_zero (t : T) (dim : Z) : torch_chunk t 0 dim = Raise RuntimeError.
Proof. done. Qed.

Lemma torch_chunk_Ok_pos (t : T) (k : nat) (dim : Z) (ts : list T) :
  torch_chunk t k dim = Ok ts -> 0 < k.
Proof. destruct k; [done | lia]. Qed.

Lemma length_even_chunks (t : T) (k w : nat) (dim : Z) :
  length (even_chunks t k w dim) = k.
Proof. unfold even_chunks. by rewrite length_fmap, length_seq. Qed.

Lemma lookup_even_chunks (t : T) (k w : nat) (dim : Z) (i : nat) :
  i < k -> even_chunks t k w dim !! i = Some (narrow t dim (i * w) w).
Proof.
  intros Hi. unfold even_chunks. rewrite list_lookup_fmap.
  by rewrite lookup_seq_lt.
Qed.

(** The two [enumerate] loops of [split_tensors] are assignments of the
    chunks, as long as the chunk list is long enough. *)
Lemma for_each_getitem (t_list : list T) (off start : nat) (ks : list EdgeType)
    (d : list (EdgeType * option T)) :
  start + length ks + off <= length t_list ->
  for_each (fun d '(i, k) => c <- getitem t_list (i + off) ;; Ok (Dict.set k (Some c) d))
           (enumerate_from start ks) d
  = Ok (assign (fun i => t_list !! (i + off)) start ks d).
Proof.
  revert start d. induction ks as [|k ks IH]; intros start d Hlen; [done |].
  simpl in *. unfold getitem.
  destruct (lookup_lt_is_Some_2 t_list (start + off)) as [c Hc]; [lia |].
  rewrite Hc. simpl. rewrite IH by lia. by rewrite assign_cons, Hc.
Qed.

Lemma for_each_getitem_short (t_list : list T) (off start : nat) (ks : list EdgeType)
    (d : list (EdgeType * option T)) :
  length t_list < start + length ks + off -> ks <> [] ->
  for_each (fun d '(i, k) => c <- getitem t_list (i + off) ;; Ok (Dict.set k (Some c) d))
           (enumerate_from start ks) d
  = Raise IndexError.
Proof.
  revert start d. induction ks as [|k ks IH]; intros start d Hlen Hne; [done |].
  simpl in *. unfold getitem.
  destruct (t_list !! (start + off)) as [c|] eqn:Hc; simpl; [|done].
  apply lookup_lt_Some in Hc. apply IH; [lia |]. destruct ks; [simpl in *; lia | done].
Qed.

End chunk_facts.

(** ** The allocation *)

Section allocate_facts.
Context `{B : Backend}.

Lemma relations_of_set (rel : list (string * (list EdgeType * list EdgeType)))
    (k ntype : string) (v : list EdgeType * list EdgeType) :
  relations_of (Dict.set k v rel) ntype
  = if decide (k = ntype) then v else relations_of rel ntype.
Proof. unfold relations_of. rewrite get_set. by case_decide. Qed.

Lemma src_rels_cons (e : EdgeType) (ets : list EdgeType) (ntype : string) :
  src_rels (e :: ets) ntype
  = (if decide (src_of e = ntype) then [e] else []) ++ src_rels ets ntype.
Proof. unfold src_rels. rewrite filter_cons. by case_decide. Qed.

Lemma dst_rels_cons (e : EdgeType) (ets : list EdgeType) (ntype : string) :
  dst_rels (e :: ets) ntype
  = (if decide (dst_of e = ntype /\ src_of e <> dst_of e) then [e] else [])
    ++ dst_rels ets ntype.
Proof. unfold dst_rels. rewrite filter_cons. by case_decide. Qed.

(** The bias slot of an edge type, as lines 115-120 fill it. *)
Lemma register_edge_type_rel (cfg : Config) rel attn biases (e : EdgeType) (ntype : string) :
  relations_of (register_edge_type cfg (rel, attn, biases) e).1.1 ntype
  = ((relations_of rel ntype).1 ++ (if decide (src_of e = ntype) then [e] else []),
     (relations_of rel ntype).2
     ++ (if decide (dst_of e = ntype /\ src_of e <> dst_of e) then [e] else [])).
Proof.
  unfold register_edge_type.
  destruct (relations_of rel (src_of e)) as [s0 d0] eqn:Hsrc.
  destruct (decide (src_of e <> dst_of e)) as [Hne|Heq].
  - destruct (relations_of (Dict.set (src_of e) (s0 ++ [e], d0) rel) (dst_of e))
      as [s1 d1] eqn:Hdst.
    simpl. rewrite relations_of_set in Hdst. rewrite decide_False in Hdst by done.
    rewrite !relations_of_set.
    destruct (decide (dst_of e = ntype)) as [Hd|Hd].
    + rewrite decide_False by congruence. rewrite decide_True by done.
      rewrite <- Hd, Hdst. simpl. by rewrite app_nil_r.
    + rewrite (decide_False (P:=_ /\ _)) by naive_solver.
      destruct (decide (src_of e = ntype)) as [Hs|Hs].
      * rewrite <- Hs, Hsrc. simpl. by rewrite app_nil_r.
      * by rewrite !app_nil_r, <- surjective_pairing.
  - simpl. rewrite relations_of_set.
    rewrite (decide_False (P:=_ /\ _)) by naive_solver.
    destruct (decide (src_of e = ntype)) as [Hs|Hs].
    + rewrite <- Hs, Hsrc. simpl. by rewrite app_nil_r.
    + by rewrite !app_nil_r, <- surjective_pairing.
Qed.

Lemma register_edge_type_attn (cfg : Config) rel attn biases (e e' : EdgeType) :
  Dict.get e' (register_edge_type cfg (rel, attn, biases) e).1.2
  = if decide (e = e')
    then Some (Some (torch_empty1 (2 * cfg_heads cfg * cfg_out_channels cfg)))
    else Dict.get e' attn.
Proof.
  unfold register_edge_type.
  destruct (relations_of rel (src_of e)) as [s0 d0].
  destruct (decide (src_of e <> dst_of e)).
  - destruct (relations_of _ (dst_of e)) as [s1 d1]. simpl. apply get_set.
  - simpl. apply get_set.
Qed.

Lemma register_edge_type_bias (cfg : Config) rel attn biases (e e' : EdgeType) :
  Dict.get e' (register_edge_type cfg (rel, attn, biases) e).2
  = if decide (e = e')
    then Some (if cfg_bias cfg && cfg_concat cfg
               then Some (torch_empty1 (cfg_heads cfg * cfg_out_channels cfg))
               else if cfg_bias cfg then Some (torch_empty1 (cfg_out_channels cfg))
               else None)
    else Dict.get e' biases.
Proof.
  unfold register_edge_type.
  destruct (relations_of rel (src_of e)) as [s0 d0].
  destruct (decide (src_of e <> dst_of e)).
  - destruct (relations_of _ (dst_of e)) as [s1 d1]. simpl.
    destruct (cfg_bias cfg), (cfg_concat cfg); simpl; apply get_set.
  - simpl. destruct (cfg_bias cfg), (cfg_concat cfg); simpl; apply get_set.
Qed.

Lemma register_edge_types (cfg : Config) (ets : list EdgeType) rel attn biases :
  let st := foldl (register_edge_type cfg) (rel, attn, biases) ets in
  (forall ntype,
     relations_of st.1.1 ntype
     = ((relations_of rel ntype).1 ++ src_rels ets ntype,
        (relations_of rel ntype).2 ++ dst_rels ets ntype))
  /\ (forall e,
        Dict.get e st.1.2
        = if decide (e ∈ ets)
          then Some (Some (torch_empty1 (2 * cfg_heads cfg * cfg_out_channels cfg)))
          else Dict.get e attn)
  /\ (forall e,
        Dict.get e st.2
        = if decide (e ∈ ets)
          then Some (if cfg_bias cfg && cfg_concat cfg
                     then Some (torch_empty1 (cfg_heads cfg * cfg_out_channels cfg))
                     else if cfg_bias cfg
                          then Some (torch_empty1 (cfg_out_channels cfg))
                          else None)
          else Dict.get e biases).
Proof.
  cbv zeta. revert rel attn biases.
  induction ets as [|e ets IH]; intros rel attn biases.
  - simpl. split_and!.
    + intros ntype. unfold src_rels, dst_rels. simpl.
      by rewrite !app_nil_r, <- surjective_pairing.
    + done.
    + done.
  - cbn [foldl]. destruct (register_edge_type cfg (rel, attn, biases) e)
      as [[rel1 attn1] biases1] eqn:Hstep.
    destruct (IH rel1 attn1 biases1) as (IHrel & IHattn & IHbias).
    pose proof (register_edge_type_rel cfg rel attn biases e) as Hrel.
    pose proof (register_edge_type_attn cfg rel attn biases e) as Hattn.
    pose proof (register_edge_type_bias cfg rel attn biases e) as Hbias.
    rewrite Hstep in Hrel, Hattn, Hbias. cbn [fst snd] in Hrel, Hattn, Hbias.
    split_and!.
    + intros ntype. rewrite IHrel, Hrel, src_rels_cons, dst_rels_cons.
      cbn [fst snd]. by rewrite <- !app_assoc.
    + intros e'. rewrite IHattn, Hattn.
      destruct (decide (e' ∈ ets)) as [Hin|Hnin].
      * rewrite decide_True; [done | by right].
      * destruct (decide (e = e')) as [->|Hne].
        -- rewrite decide_True; [done | left].
        -- rewrite decide_False; [done |]. rewrite elem_of_cons. naive_solver.
    + intros e'. rewrite IHbias, Hbias.
      destruct (decide (e' ∈ ets)) as [Hin|Hnin].
      * rewrite decide_True; [done | by right].
      * destruct (decide (e = e')) as [->|Hne].
        -- rewrite decide_True; [done | left].
        -- rewrite decide_False; [done |]. rewrite elem_of_cons. naive_solver.
Qed.

Lemma wf_torch_empty2 (r c : nat) : wf_tensor (torch_empty2 r c).
Proof.
  unfold wf_tensor, torch_empty2. simpl. split; [apply length_replicate |].
  apply Forall_replicate. apply length_replicate.
Qed.

(** The loop over the node types: each gets its empty fused weight. *)
Lemma allocate_lin_weights (cfg : Config) (in_ch : list (string * nat))
    rel (nts : list string) (lin lin' : list (string * option (Tensor scalar))) :
  for_each (allocate_lin_weight cfg in_ch rel) nts lin = Ok lin' ->
  (forall ntype, ntype ∈ nts -> is_Some (Dict.get ntype in_ch))
  /\ forall ntype,
       Dict.get ntype lin'
       = if decide (ntype ∈ nts)
         then Some (Some (torch_empty2
                            ((length (relations_of rel ntype).1
                              + length (relations_of rel ntype).2)
                             * cfg_heads cfg * cfg_out_channels cfg)
                            (default 0 (Dict.get ntype in_ch))))
         else Dict.get ntype lin.
Proof.
  revert lin. induction nts as [|nt nts IH]; intros lin; simpl.
  - intros [= <-]. split; [intros ? ?%elem_of_nil; done | done].
  - intros (lin1 & Hstep & Hrest)%bind_Ok_inv.
    unfold allocate_lin_weight in Hstep.
    apply bind_Ok_inv in Hstep as (width & Hwidth & [= <-]).
    unfold Dict.item in Hwidth.
    destruct (Dict.get nt in_ch) as [width'|] eqn:Hget; [|done].
    injection Hwidth as ->.
    destruct (IH _ Hrest) as [IHin IHget]. split.
    + intros ntype [->|Hin]%elem_of_cons; [by rewrite Hget | by apply IHin].
    + intros ntype. rewrite IHget.
      destruct (decide (ntype ∈ nts)) as [Hin|Hnin].
      * rewrite decide_True; [done | by right].
      * rewrite get_set. destruct (decide (nt = ntype)) as [->|Hne].
        -- rewrite decide_True by left. by rewrite Hget.
        -- rewrite decide_False; [done |]. rewrite elem_of_cons. naive_solver.
Qed.

Lemma allocate_lin_weights_keys (cfg : Config) (in_ch : list (string * nat))
    rel (nts : list string) (lin lin' : list (string * option (Tensor scalar))) :
  for_each (allocate_lin_weight cfg in_ch rel) nts lin = Ok lin' ->
  (forall ntype, ntype ∈ nts -> ntype ∈ Dict.keys lin) ->
  Dict.keys lin' = Dict.keys lin.
Proof.
  revert lin. induction nts as [|nt nts IH]; intros lin; simpl.
  - by intros [= <-].
  - intros (lin1 & Hstep & Hrest)%bind_Ok_inv Hin.
    unfold allocate_lin_weight in Hstep.
    apply bind_Ok_inv in Hstep as (width & Hwidth & [= <-]).
    assert (Hk : Dict.keys (Dict.set nt
                   (Some (torch_empty2
                            ((length (relations_of rel nt).1
                              + length (relations_of rel nt).2)
                             * cfg_heads cfg * cfg_out_channels cfg) width)) lin)
                 = Dict.keys lin).
    { rewrite keys_set. rewrite decide_True; [done |]. apply Hin. left. }
    rewrite (IH _ Hrest); [done |].
    intros ntype Hnt. rewrite Hk. apply Hin. by right.
Qed.

End allocate_facts.

Section allocate_layout.
Context `{B : Backend}.

Lemma allocate_fields (cfg : Config) (self : Layer) :
  allocate cfg = Ok self ->
  node_types self = cfg_node_types cfg
  /\ edge_types self = cfg_edge_types cfg
  /\ num_heads self = cfg_heads cfg
  /\ out_channels self = cfg_out_channels cfg
  /\ concat_heads self = cfg_concat cfg
  /\ negative_slope self = cfg_negative_slope cfg
  /\ aggr self = cfg_aggr cfg
  /\ in_channels self
     = match cfg_in_channels cfg with
       | IntChannels n => Dict.fromkeys (cfg_node_types cfg) n
       | DictChannels d => d
       end
  /\ (is_Some (bias self) <-> cfg_bias cfg = true).
Proof.
  unfold allocate. destruct (version_lt pyg_version (2, 4, 0)); [done |].
  destruct (foldl _ _ _) as [[rel attn] biases].
  intros (lin & _ & (lin' & _ & (attn' & _ & (b & Hb & [= <-])%bind_Ok_inv)
    %bind_Ok_inv)%bind_Ok_inv)%bind_Ok_inv.
  simpl. split_and!; try done.
  destruct (cfg_bias cfg).
  - apply bind_Ok_inv in Hb as (? & _ & [= <-]). split; eauto.
  - injection Hb as <-. split; [intros [? ?]; done | done].
Qed.

Lemma allocate_weights (cfg : Config) (self : Layer) :
  allocate cfg = Ok self ->
  (forall ntype,
     relations_of (relations_per_ntype self) ntype
     = (src_rels (cfg_edge_types cfg) ntype, dst_rels (cfg_edge_types cfg) ntype))
  /\ (forall ntype, ntype ∈ cfg_node_types cfg ->
        is_Some (Dict.get ntype (in_channels self)))
  /\ (forall ntype,
        Dict.get ntype (lin_weights self)
        = if decide (ntype ∈ cfg_node_types cfg)
          then Some (torch_empty2
                       (n_rel_of self ntype * cfg_heads cfg * cfg_out_channels cfg)
                       (default 0 (Dict.get ntype (in_channels self))))
          else None)
  /\ NoDup (Dict.keys (lin_weights self))
  /\ (forall e,
        Dict.get e (attn_weights self)
        = if decide (e ∈ cfg_edge_types cfg)
          then Some (torch_empty1 (2 * cfg_heads cfg * cfg_out_channels cfg))
          else None)
  /\ (forall bs e, bias self = Some bs ->
        e ∈ cfg_edge_types cfg <-> is_Some (Dict.get e bs)).
Proof.
  unfold allocate. destruct (version_lt pyg_version (2, 4, 0)); [done |].
  pose proof (register_edge_types cfg (cfg_edge_types cfg) []
                (Dict.fromkeys (cfg_edge_types cfg) None)
                (Dict.fromkeys (cfg_edge_types cfg) None)) as Hreg.
  cbv zeta in Hreg.
  destruct (foldl _ _ _) as [[rel attn] biases]. cbn [fst snd] in Hreg.
  destruct Hreg as (Hrel & Hattn & Hbias).
  intros (lin & Hlin & (lin' & Hlin' & (attn' & Hattn' & (b & Hb & [= <-])%bind_Ok_inv)
    %bind_Ok_inv)%bind_Ok_inv)%bind_Ok_inv.
  unfold n_rel_of, srcs_of, dsts_of. cbn [relations_per_ntype lin_weights
    attn_weights bias in_channels].
  pose proof (allocate_lin_weights_keys _ _ _ _ _ _ Hlin) as Hkeys.
  apply allocate_lin_weights in Hlin as [Hin Hget].
  apply all_assigned_inv in Hlin'. apply all_assigned_inv in Hattn'.
  split_and!.
  - intros ntype. rewrite Hrel. done.
  - done.
  - intros ntype. specialize (Hget ntype). rewrite Hlin', get_fmap_Some in Hget.
    rewrite get_fromkeys in Hget.
    destruct (decide (ntype ∈ cfg_node_types cfg)).
    + destruct (Dict.get ntype lin'); [by injection Hget as -> | done].
    + by destruct (Dict.get ntype lin').
  - rewrite <- (keys_fmap_Some lin'), <- Hlin', Hkeys.
    + apply NoDup_keys_fromkeys.
    + intros ntype. by rewrite elem_of_keys_fromkeys.
  - intros e. specialize (Hattn e). rewrite Hattn', get_fmap_Some in Hattn.
    rewrite get_fromkeys in Hattn.
    destruct (decide (e ∈ cfg_edge_types cfg)).
    + destruct (Dict.get e attn'); [by injection Hattn as -> | done].
    + by destruct (Dict.get e attn').
  - intros bs e Hbs. destruct (cfg_bias cfg); [|by injection Hb as <-].
    apply bind_Ok_inv in Hb as (bs' & Hbs' & [= <-]). injection Hbs as ->.
    apply all_assigned_inv in Hbs'.
    specialize (Hbias e). rewrite Hbs', get_fmap_Some, get_fromkeys in Hbias.
    destruct (decide (e ∈ cfg_edge_types cfg)) as [Hin'|Hnin].
    + destruct (Dict.get e bs); simpl in Hbias; [split; eauto | done].
    + destruct (Dict.get e bs); simpl in Hbias; [done |].
      split; [done | intros [? ?]; done].
Qed.

Lemma allocate_layout_ok (cfg : Config) (self : Layer) :
  allocate cfg = Ok self -> layout_ok self.
Proof.
  intros Halloc.
  destruct (allocate_fields _ _ Halloc)
    as (Hnts & Hets & Hh & Hc & _ & _ & _ & _ & _).
  destruct (allocate_weights _ _ Halloc)
    as (Hrel & Hin & Hlin & Hnd & Hattn & Hbias).
  split.
  - intros ntype. by rewrite Hets.
  - intros ntype. rewrite <- get_Some_keys, Hlin, Hnts.
    case_decide; [split; eauto | split; [intros [? ?]; done | done]].
  - done.
  - intros ntype w. rewrite Hlin. case_decide as Hnt; [|done].
    intros [= <-]. split_and!.
    + apply wf_torch_empty2.
    + simpl. by rewrite Hh, Hc.
    + simpl. destruct (Hin _ Hnt) as [n ->]. done.
  - intros e. rewrite Hattn, Hets, Hh, Hc.
    case_decide; split; try done.
    + intros _. eexists. split; [done |]. apply length_replicate.
    + intros (? & ? & _). done.
  - intros bs e Hbs. rewrite Hets. by apply Hbias.
Qed.

End allocate_layout.

(** ** [split_tensors] *)

Lemma for_each_ext {A S : Type} (body body' : S -> A -> result S) (xs : list A) (acc : S) :
  (forall s x, body s x = body' s x) -> for_each body xs acc = for_each body' xs acc.
Proof.
  intros Hext. revert acc. induction xs as [|x xs IH]; intros acc; simpl; [done |].
  rewrite Hext. destruct (body' acc x); simpl; [apply IH | done].
Qed.

Lemma assign_ext {K V : Type} `{EqDecision K} (f f' : nat -> V) (start : nat)
    (ks : list K) (d : list (K * V)) :
  (forall i, start <= i < start + length ks -> f i = f' i) ->
  assign f start ks d = assign f' start ks d.
Proof.
  revert start d. induction ks as [|k ks IH]; intros start d Hext; [done |].
  rewrite !assign_cons. simpl in Hext. rewrite (Hext start) by lia.
  apply IH. intros i Hi. apply Hext. lia.
Qed.

Section split_facts.
Context `{B : Backend} {T : Type} `{TL : TensorLike T}.
Implicit Types (self : Layer) (t : T) (fused : list (string * T)).

Lemma split_one_even self (dim : Z) (w : nat) dicts (ntype : string) t :
  0 < n_rel_of self ntype ->
  size t dim = Ok (n_rel_of self ntype * w) ->
  split_one self dim dicts (ntype, t) = Ok (split_step self dim w dicts (ntype, t)).
Proof.
  intros Hpos Hsize. destruct dicts as [xs xd]. unfold split_one, split_step.
  fold (srcs_of self ntype) (dsts_of self ntype) (n_rel_of self ntype).
  rewrite (torch_chunk_exact t _ w) by done. simpl.
  rewrite (for_each_ext _
    (fun d '(i, k) =>
       c <- getitem (even_chunks t (n_rel_of self ntype) w dim) (i + 0) ;;
       Ok (Dict.set k (Some c) d))).
  2:{ intros s [i k]. by rewrite Nat.add_0_r. }
  unfold enumerate. rewrite for_each_getitem.
  2:{ rewrite length_even_chunks. unfold n_rel_of. lia. }
  simpl. rewrite for_each_getitem.
  2:{ rewrite length_even_chunks. unfold n_rel_of. lia. }
  simpl. f_equal. f_equal.
  - apply assign_ext. intros i Hi. rewrite Nat.add_0_r.
    apply lookup_even_chunks. unfold n_rel_of. lia.
  - apply assign_ext. intros i Hi.
    apply lookup_even_chunks. unfold n_rel_of. lia.
Qed.

(** A node type without relation makes [torch.chunk] refuse [chunks=0]. *)
Lemma split_one_zero self (dim : Z) dicts (ntype : string) t :
  n_rel_of self ntype = 0 ->
  split_one self dim dicts (ntype, t) = Raise RuntimeError.
Proof.
  intros Hzero. destruct dicts as [xs xd]. unfold split_one.
  fold (srcs_of self ntype) (dsts_of self ntype) (n_rel_of self ntype).
  by rewrite Hzero.
Qed.

Lemma split_one_Ok_pos self (dim : Z) dicts (ntype : string) t dicts' :
  split_one self dim dicts (ntype, t) = Ok dicts' -> 0 < n_rel_of self ntype.
Proof.
  intros Hok. destruct (n_rel_of self ntype) eqn:Hn; [|lia].
  by rewrite split_one_zero in Hok.
Qed.

Lemma split_tensors_even self fused (dim : Z) (w : nat) :
  (forall ntype t, (ntype, t) ∈ fused ->
     0 < n_rel_of self ntype /\ size t dim = Ok (n_rel_of self ntype * w)) ->
  split_tensors self fused dim
  = Ok (foldl (split_step self dim w)
              (Dict.fromkeys (edge_types self) None,
               Dict.fromkeys (edge_types self) None) fused).
Proof.
  intros Heven. unfold split_tensors. apply for_each_pure.
  intros dicts [ntype t] Hin. destruct (Heven _ _ Hin). by apply split_one_even.
Qed.

Lemma split_tensors_zero self fused (dim : Z) (w : nat) :
  (forall ntype t, (ntype, t) ∈ fused -> size t dim = Ok (n_rel_of self ntype * w)) ->
  (exists ntype, ntype ∈ Dict.keys fused /\ n_rel_of self ntype = 0) ->
  split_tensors self fused dim = Raise RuntimeError.
Proof.
  unfold split_tensors. generalize (Dict.fromkeys (edge_types self) (@None T)) at 1.
  generalize (Dict.fromkeys (edge_types self) (@None T)).
  induction fused as [|[nt t] fused IH]; intros xd xs Hsize (ntype & Hin & Hzero).
  - by apply elem_of_nil in Hin.
  - cbn [for_each]. destruct (decide (n_rel_of self nt = 0)) as [Hnt|Hnt].
    + by rewrite split_one_zero.
    + rewrite (split_one_even _ _ w); [| lia | apply Hsize; left]. cbn [bind].
      apply IH.
      * intros ? ? ?. apply Hsize. by right.
      * exists ntype. split; [|done]. unfold Dict.keys in *.
        rewrite fmap_cons, elem_of_cons in Hin. destruct Hin as [->|Hin]; done.
Qed.

Lemma split_tensors_Ok_pos self fused (dim : Z) dicts :
  split_tensors self fused dim = Ok dicts ->
  forall ntype, ntype ∈ Dict.keys fused -> 0 < n_rel_of self ntype.
Proof.
  unfold split_tensors. generalize (Dict.fromkeys (edge_types self) (@None T)) at 1.
  generalize (Dict.fromkeys (edge_types self) (@None T)).
  induction fused as [|[nt t] fused IH]; intros xd xs Hok ntype Hin.
  - by apply elem_of_nil in Hin.
  - cbn [for_each] in Hok. apply bind_Ok_inv in Hok as ([xs' xd'] & Hone & Hrest).
    unfold Dict.keys in Hin. rewrite fmap_cons, elem_of_cons in Hin.
    destruct Hin as [->|Hin].
    + by eapply split_one_Ok_pos.
    + by eapply IH.
Qed.

End split_facts.

Lemma elem_of_src_rels (ets : list EdgeType) (ntype : string) (e : EdgeType) :
  e ∈ src_rels ets ntype <-> e ∈ ets /\ src_of e = ntype.
Proof. unfold src_rels. rewrite list_elem_of_filter. naive_solver. Qed.

Lemma elem_of_dst_rels (ets : list EdgeType) (ntype : string) (e : EdgeType) :
  e ∈ dst_rels ets ntype <-> e ∈ ets /\ dst_of e = ntype /\ src_of e <> dst_of e.
Proof. unfold dst_rels. rewrite list_elem_of_filter. naive_solver. Qed.

Section split_lookup.
Context `{B : Backend} {T : Type} `{TL : TensorLike T}.
Context (self : Layer) (dim : Z) (w : nat).
Hypothesis Hrel : forall ntype,
  relations_of (relations_per_ntype self) ntype
  = (src_rels (edge_types self) ntype, dst_rels (edge_types self) ntype).

Lemma srcs_of_rel (ntype : string) : srcs_of self ntype = src_rels (edge_types self) ntype.
Proof using Hrel. unfold srcs_of. by rewrite Hrel. Qed.

Lemma dsts_of_rel (ntype : string) : dsts_of self ntype = dst_rels (edge_types self) ntype.
Proof using Hrel. unfold dsts_of. by rewrite Hrel. Qed.

Lemma last_index_srcs_other (e : EdgeType) (ntype : string) :
  src_of e <> ntype -> last_index e (srcs_of self ntype) = None.
Proof using Hrel.
  intros Hne. apply last_index_None. rewrite srcs_of_rel, elem_of_src_rels.
  naive_solver.
Qed.

Lemma last_index_dsts_other (e : EdgeType) (ntype : string) :
  dst_of e <> ntype -> last_index e (dsts_of self ntype) = None.
Proof using Hrel.
  intros Hne. apply last_index_None. rewrite dsts_of_rel, elem_of_dst_rels.
  naive_solver.
Qed.

(** A same-type relation is in no destination list. *)
Lemma last_index_dsts_same (e : EdgeType) (ntype : string) :
  src_of e = dst_of e -> last_index e (dsts_of self ntype) = None.
Proof using Hrel.
  intros Heq. apply last_index_None. rewrite dsts_of_rel, elem_of_dst_rels.
  naive_solver.
Qed.

Lemma get_split_steps (fused : list (string * T))
    (xs xd : list (EdgeType * option T)) (e : EdgeType) :
  NoDup (Dict.keys fused) ->
  Dict.get e (foldl (split_step self dim w) (xs, xd) fused).1
  = match src_chunk self fused dim w e with
    | Some c => Some (Some c)
    | None => Dict.get e xs
    end
  /\ Dict.get e (foldl (split_step self dim w) (xs, xd) fused).2
     = match dst_chunk self fused dim w e with
       | Some c => Some (Some c)
       | None => Dict.get e xd
       end.
Proof using Hrel.
  revert xs xd. induction fused as [|[nt t] fused IH]; intros xs xd Hnd.
  - done.
  - unfold Dict.keys in Hnd. rewrite fmap_cons in Hnd.
    apply NoDup_cons in Hnd as [Hnt Hnd]. cbn [fst] in Hnt.
    apply get_None_keys in Hnt.
    cbn [foldl]. unfold split_step at 2 4. cbn [fst snd].
    destruct (IH (assign (fun i => Some (narrow t dim (i * w) w)) 0
                         (srcs_of self nt) xs)
                 (assign (fun j => Some (narrow t dim
                            ((j + length (srcs_of self nt)) * w) w)) 0
                         (dsts_of self nt) xd) Hnd) as [IHs IHd].
    rewrite IHs, IHd. clear IHs IHd IH.
    unfold src_chunk, dst_chunk. cbn [Dict.get]. rewrite !get_assign. split.
    + destruct (decide (src_of e = nt)) as [Heq|Hne].
      * rewrite Heq, Hnt. by destruct (last_index e (srcs_of self nt)).
      * rewrite (last_index_srcs_other e nt) by done.
        by destruct (Dict.get (src_of e) fused),
                    (last_index e (srcs_of self (src_of e))).
    + destruct (decide (dst_of e = nt)) as [Heq|Hne].
      * rewrite Heq, Hnt. by destruct (last_index e (dsts_of self nt)).
      * rewrite (last_index_dsts_other e nt) by done.
        by destruct (Dict.get (dst_of e) fused),
                    (last_index e (dsts_of self (dst_of e))).
Qed.

(** [split_tensors] on fused tensors whose [dim] has [n_rel * w] entries:
    it returns, and each edge type holds its chunks. *)
Lemma split_tensors_chunks (fused : list (string * T)) :
  NoDup (Dict.keys fused) ->
  (forall ntype t, (ntype, t) ∈ fused ->
     0 < n_rel_of self ntype /\ size t dim = Ok (n_rel_of self ntype * w)) ->
  exists x_src_dict x_dst_dict,
    split_tensors self fused dim = Ok (x_src_dict, x_dst_dict)
    /\ (forall e, Dict.get e x_src_dict
                  = if decide (e ∈ edge_types self)
                    then Some (src_chunk self fused dim w e) else None)
    /\ (forall e, Dict.get e x_dst_dict
                  = if decide (e ∈ edge_types self)
                    then Some (dst_chunk self fused dim w e) else None).
Proof using Hrel.
  intros Hnd Heven. rewrite (split_tensors_even _ _ _ w) by done.
  destruct (foldl _ _ _) as [xs xd] eqn:Hfold.
  exists xs, xd. split; [done |].
  split; intros e.
  - pose proof (proj1 (get_split_steps fused
      (Dict.fromkeys (edge_types self) None)
      (Dict.fromkeys (edge_types self) None) e Hnd)) as Hget.
    rewrite Hfold in Hget. cbn [fst] in Hget. rewrite Hget, get_fromkeys.
    destruct (src_chunk self fused dim w e) as [c|] eqn:Hc; [|done].
    rewrite decide_True; [done |].
    unfold src_chunk in Hc. destruct (Dict.get (src_of e) fused); [|done].
    destruct (last_index e (srcs_of self (src_of e))) as [i|] eqn:Hi; [|done].
    apply last_index_Some in Hi as [Hi%list_elem_of_lookup_2 _].
    rewrite srcs_of_rel, elem_of_src_rels in Hi. by destruct Hi.
  - pose proof (proj2 (get_split_steps fused
      (Dict.fromkeys (edge_types self) None)
      (Dict.fromkeys (edge_types self) None) e Hnd)) as Hget.
    rewrite Hfold in Hget. cbn [snd] in Hget. rewrite Hget, get_fromkeys.
    destruct (dst_chunk self fused dim w e) as [c|] eqn:Hc; [|done].
    rewrite decide_True; [done |].
    unfold dst_chunk in Hc. destruct (Dict.get (dst_of e) fused); [|done].
    destruct (last_index e (dsts_of self (dst_of e))) as [i|] eqn:Hi; [|done].
    apply last_index_Some in Hi as [Hi%list_elem_of_lookup_2 _].
    rewrite dsts_of_rel, elem_of_dst_rels in Hi. by destruct Hi.
Qed.

End split_lookup.

(** ** Writing through views *)

Lemma get_elem_of {K V : Type} `{EqDecision K} (k : K) (v : V) (d : list (K * V)) :
  Dict.get k d = Some v -> (k, v) ∈ d.
Proof.
  induction d as [|[k' v'] d IH]; simpl; [done |].
  case_decide; [intros [= ->]; subst; left | intros ?; right; auto].
Qed.

Lemma elem_of_get {K V : Type} `{EqDecision K} (k : K) (v : V) (d : list (K * V)) :
  NoDup (Dict.keys d) -> (k, v) ∈ d -> Dict.get k d = Some v.
Proof.
  unfold Dict.keys. induction d as [|[k' v'] d IH]; csimpl.
  - intros _ ?%elem_of_nil. done.
  - intros [Hk' Hnd]%NoDup_cons [[= -> ->]|Hin]%elem_of_cons.
    + by rewrite decide_True.
    + rewrite decide_False; [auto |]. intros ->. apply Hk'.
      apply list_elem_of_fmap. by exists (k', v).
Qed.

Lemma get_fmap_values {K V W : Type} `{EqDecision K} (f : K -> V -> W) (k : K)
    (d : list (K * V)) :
  Dict.get k ((fun kv => (kv.1, f kv.1 kv.2)) <$> d) = f k <$> Dict.get k d.
Proof.
  induction d as [|[k' v] d IH]; csimpl; [done |]. case_decide; [by subst | done].
Qed.

Lemma keys_fmap_values {K V W : Type} (f : K -> V -> W) (d : list (K * V)) :
  Dict.keys ((fun kv => (kv.1, f kv.1 kv.2)) <$> d) = Dict.keys d.
Proof. unfold Dict.keys. by rewrite <- list_fmap_compose. Qed.

Section shapes.
Context {R : Type}.
Implicit Types (lin : list (string * Tensor R)) (w : Tensor R).

Lemma get_shapes_of lin (k : string) :
  Dict.get k (shapes_of lin) = (fun w => (nrows w, ncols w)) <$> Dict.get k lin.
Proof. apply (get_fmap_values (fun _ w => (nrows w, ncols w))). Qed.

Lemma keys_shapes_of lin : Dict.keys (shapes_of lin) = Dict.keys lin.
Proof. apply (keys_fmap_values (fun _ w => (nrows w, ncols w))). Qed.

Lemma shapes_of_set lin (k : string) w w' :
  Dict.get k lin = Some w -> nrows w' = nrows w -> ncols w' = ncols w ->
  shapes_of (Dict.set k w' lin) = shapes_of lin.
Proof.
  intros Hget Hr Hc. unfold shapes_of.
  induction lin as [|[k0 w0] lin IH]; simpl in Hget; [done |].
  csimpl. destruct (decide (k = k0)) as [->|Hne]; csimpl.
  - injection Hget as ->. by rewrite Hr, Hc.
  - by rewrite IH.
Qed.

Lemma shapes_of_get lin lin' (k : string) w :
  shapes_of lin' = shapes_of lin -> Dict.get k lin = Some w ->
  exists w', Dict.get k lin' = Some w' /\ nrows w' = nrows w /\ ncols w' = ncols w.
Proof.
  intros Hsh Hget. pose proof (get_shapes_of lin' k) as Hk.
  rewrite Hsh, get_shapes_of, Hget in Hk. simpl in Hk.
  destruct (Dict.get k lin') as [w'|]; [|done].
  injection Hk as Hr Hc. eauto.
Qed.

Lemma shapes_of_keys lin lin' :
  shapes_of lin' = shapes_of lin -> Dict.keys lin' = Dict.keys lin.
Proof. intros Hsh. by rewrite <- !keys_shapes_of, Hsh. Qed.

End shapes.

Section draw_facts.
Context `{B : Backend}.

Lemma length_draws (fan n : nat) (g : Generator) : length (draws fan n g).1 = n.
Proof.
  revert g. induction n as [|n IH]; intros g; simpl; [done |].
  destruct (uniform fan g) as [x g1]. specialize (IH g1).
  destruct (draws fan n g1) as [xs g2]. simpl in *. by rewrite IH.
Qed.

Lemma draw_rows_shape (fan nr nc : nat) (g : Generator) :
  length (draw_rows fan nr nc g).1 = nr
  /\ Forall (fun r => length r = nc) (draw_rows fan nr nc g).1.
Proof.
  revert g. induction nr as [|nr IH]; intros g; simpl; [by split |].
  pose proof (length_draws fan nc g) as Hr.
  destruct (draws fan nc g) as [r g1]. destruct (IH g1) as [IHl IHf].
  destruct (draw_rows fan nr nc g1) as [rs g2]. simpl in *.
  split; [by rewrite IHl | by constructor].
Qed.

Lemma wf_write_block (w : Tensor scalar) (v : View) (blk : list (list scalar)) :
  wf_tensor w -> length blk = v_nr v ->
  Forall (fun r => length r = v_nc v) blk ->
  v_c0 v + v_nc v <= ncols w ->
  wf_tensor (write_block w v blk).
Proof.
  intros [Hlen Hrows] Hblk Hcols Hfit. unfold wf_tensor, write_block. simpl. split.
  - rewrite !length_app, length_zip_with, !length_take, !length_drop. lia.
  - rewrite !Forall_app. split_and!.
    + by apply Forall_take.
    + apply Forall_zip_with_fst with (P := fun r => length r = ncols w).
      * by apply Forall_take, Forall_drop.
      * eapply Forall_impl; [exact Hcols |]. intros new Hnew old Hold.
        simpl in Hnew. rewrite !length_app, length_take, length_drop. lia.
    + by apply Forall_drop.
Qed.

Lemma glorot_view_inv (v : View) lin lin' (g g' : Generator) :
  glorot_view (Some v) (lin, g) = Ok (lin', g') ->
  exists w fan,
    Dict.get (v_key v) lin = Some w
    /\ glorot_fan (v_nr v) (v_nc v) = Ok fan
    /\ lin' = Dict.set (v_key v)
                (write_block w v (draw_rows fan (v_nr v) (v_nc v) g).1) lin
    /\ g' = (draw_rows fan (v_nr v) (v_nc v) g).2.
Proof.
  unfold glorot_view. intros (fan & Hfan & (w & Hw & Hok)%bind_Ok_inv)%bind_Ok_inv.
  cbn [fst snd] in *. unfold Dict.item in Hw.
  destruct (Dict.get (v_key v) lin) as [w'|] eqn:Hget; [|done].
  injection Hw as ->. exists w, fan.
  destruct (draw_rows fan (v_nr v) (v_nc v) g) as [blk g1].
  injection Hok as <- <-. done.
Qed.

(** [glorot] through a view keeps the shapes, and the tensors well formed
    when the view lies within the columns of its parameter. *)
Lemma glorot_view_shapes (value : option View) lin lin' (g g' : Generator) :
  glorot_view value (lin, g) = Ok (lin', g') ->
  shapes_of lin' = shapes_of lin.
Proof.
  destruct value as [v|]; [|by intros [= <- <-]].
  intros (w & fan & Hget & _ & -> & _)%glorot_view_inv.
  by eapply shapes_of_set.
Qed.

Lemma glorot_view_wf (value : option View) lin lin' (g g' : Generator) :
  glorot_view value (lin, g) = Ok (lin', g') ->
  (forall v w, value = Some v -> Dict.get (v_key v) lin = Some w ->
               v_c0 v + v_nc v <= ncols w) ->
  (forall k w, Dict.get k lin = Some w -> wf_tensor w) ->
  forall k w, Dict.get k lin' = Some w -> wf_tensor w.
Proof.
  destruct value as [v|]; [|by intros [= <- <-]].
  intros (w0 & fan & Hget & _ & -> & _)%glorot_view_inv Hfit Hwf k w.
  rewrite get_set. case_decide; [|apply Hwf].
  intros [= <-]. destruct (draw_rows_shape fan (v_nr v) (v_nc v) g).
  apply wf_write_block; eauto.
Qed.

End draw_facts.

(** ** [reset_parameters] keeps the layout *)

Section reset_facts.
Context `{B : Backend}.
Implicit Types (self : Layer) (g : Generator).

Lemma same_layout_refl self : same_layout self self.
Proof. split; try done. by destruct (bias self). Qed.

Lemma same_layout_trans self1 self2 self3 :
  same_layout self1 self2 -> same_layout self2 self3 -> same_layout self1 self3.
Proof.
  intros [? ? ? ? ? ? ? ? ? ? Ha1 Hb1] [? ? ? ? ? ? ? ? ? ? Ha2 Hb2].
  split; try congruence.
  destruct (bias self1), (bias self2), (bias self3); try done.
  intros e. by rewrite Hb2, Hb1.
Qed.

Lemma same_layout_n_rel self self' (ntype : string) :
  same_layout self self' -> n_rel_of self' ntype = n_rel_of self ntype.
Proof. intros []. unfold n_rel_of, srcs_of, dsts_of. by rewrite same_relations0. Qed.

Lemma layout_ok_same self self' :
  same_layout self self' -> lin_wf self' -> layout_ok self -> layout_ok self'.
Proof.
  intros Hsame Hwf [].
  assert (Hn : forall ntype, n_rel_of self' ntype = n_rel_of self ntype)
    by (intros; by apply same_layout_n_rel).
  destruct Hsame. split.
  - intros ntype. rewrite same_relations0, same_edge_types0. apply ok_rel0.
  - intros ntype. rewrite (shapes_of_keys _ _ same_lin_shapes0), same_node_types0.
    apply ok_lin_keys0.
  - by rewrite (shapes_of_keys _ _ same_lin_shapes0).
  - intros ntype w Hget. split; [by eapply Hwf |].
    destruct (shapes_of_get _ _ ntype w (eq_sym same_lin_shapes0) Hget)
      as (w0 & Hw0 & Hr & Hc).
    destruct (ok_lin_shape0 _ _ Hw0) as (_ & Hrows & Hin).
    rewrite Hn, same_num_heads0, same_out_channels0, same_in_channels0.
    split; congruence.
  - intros e. rewrite same_edge_types0, ok_attn0, same_num_heads0, same_out_channels0.
    specialize (same_attn_lengths0 e).
    destruct (Dict.get e (attn_weights self')) as [a'|],
             (Dict.get e (attn_weights self)) as [a|];
      cbn [fmap option_fmap option_map] in *; try done;
      try (split; intros (? & ? & _); done).
    injection same_attn_lengths0 as Hlen. split.
    + intros (? & [= <-] & ?). eexists. split; [done | congruence].
    + intros (? & [= <-] & ?). eexists. split; [done | congruence].
  - intros bs' e Hbs'. rewrite Hbs' in same_bias0.
    destruct (bias self) as [bs|] eqn:Hbs; [|done].
    rewrite same_edge_types0, (ok_bias0 bs e eq_refl).
    specialize (same_bias0 e).
    destruct (Dict.get e bs'), (Dict.get e bs); simpl in *; done.
Qed.

Lemma get_param_views (lin : list (string * Tensor scalar)) (k : string) :
  Dict.get k (param_views lin)
  = (fun w => mkView k 0 (nrows w) 0 (ncols w)) <$> Dict.get k lin.
Proof.
  unfold param_views. induction lin as [|[k' w] lin IH]; csimpl; [done |].
  case_decide; [by subst | done].
Qed.

Lemma keys_param_views (lin : list (string * Tensor scalar)) :
  Dict.keys (param_views lin) = Dict.keys lin.
Proof.
  unfold param_views, Dict.keys. rewrite <- list_fmap_compose.
  apply list_fmap_ext. by intros _ [k w] _.
Qed.

Lemma elem_of_param_views (lin : list (string * Tensor scalar)) (k : string) (v : View) :
  (k, v) ∈ param_views lin ->
  exists w, (k, w) ∈ lin /\ v = mkView k 0 (nrows w) 0 (ncols w).
Proof.
  unfold param_views. intros ([k' w] & [= -> ->] & Hin)%list_elem_of_fmap. eauto.
Qed.

(** The views that [reset_parameters] initializes lie in their parameter:
    all its columns, and rows within it. *)
Lemma src_chunk_view self (w : nat) (e : EdgeType) (v : View) :
  src_chunk self (param_views (lin_weights self)) 0 w e = Some v ->
  exists i t,
    last_index e (srcs_of self (src_of e)) = Some i
    /\ Dict.get (src_of e) (lin_weights self) = Some t
    /\ v = mkView (src_of e) (i * w) w 0 (ncols t).
Proof.
  unfold src_chunk. rewrite get_param_views.
  destruct (Dict.get (src_of e) (lin_weights self)) as [t|]; [|done]. simpl.
  destruct (last_index e (srcs_of self (src_of e))) as [i|]; [|done].
  intros [= <-]. by exists i, t.
Qed.

Lemma dst_chunk_view self (w : nat) (e : EdgeType) (v : View) :
  dst_chunk self (param_views (lin_weights self)) 0 w e = Some v ->
  exists j t,
    last_index e (dsts_of self (dst_of e)) = Some j
    /\ Dict.get (dst_of e) (lin_weights self) = Some t
    /\ v = mkView (dst_of e) ((j + length (srcs_of self (dst_of e))) * w) w
                  0 (ncols t).
Proof.
  unfold dst_chunk. rewrite get_param_views.
  destruct (Dict.get (dst_of e) (lin_weights self)) as [t|]; [|done]. simpl.
  destruct (last_index e (dsts_of self (dst_of e))) as [j|]; [|done].
  intros [= <-]. by exists j, t.
Qed.

End reset_facts.

Section reset_layout.
Context `{B : Backend}.
Implicit Types (self : Layer) (g : Generator).

Lemma item_Ok {K V : Type} `{EqDecision K} (k : K) (d : list (K * V)) (v : V) :
  Dict.item k d = Ok v <-> Dict.get k d = Some v.
Proof. unfold Dict.item. destruct (Dict.get k d); naive_solver. Qed.

Lemma glorot_attn_inv (a a' : list scalar) (h c : nat) g g' :
  glorot_attn a h c g = Ok (a', g') ->
  exists shape fan,
    view_shape (length a) h c = Ok shape
    /\ glorot_fan shape.1.2 shape.2 = Ok fan
    /\ a' = (draws fan (length a) g).1
    /\ g' = (draws fan (length a) g).2.
Proof.
  unfold glorot_attn.
  intros (shape & Hshape & (fan & Hfan & Hok)%bind_Ok_inv)%bind_Ok_inv.
  exists shape, fan. destruct (draws fan (length a) g). by injection Hok as <- <-.
Qed.

Lemma view_fits_shapes lin lin' (v : View) :
  shapes_of lin' = shapes_of lin -> view_fits lin v -> view_fits lin' v.
Proof.
  intros Hsh (t & Ht & Hfit).
  destruct (shapes_of_get _ _ _ _ Hsh Ht) as (t' & Ht' & _ & Hc).
  exists t'. split; [done | lia].
Qed.

Lemma glorot_view_fits (value : option View) lin lin' g g' :
  glorot_view value (lin, g) = Ok (lin', g') ->
  (forall v, value = Some v -> view_fits lin v) ->
  (forall k w, Dict.get k lin = Some w -> wf_tensor w) ->
  forall k w, Dict.get k lin' = Some w -> wf_tensor w.
Proof.
  intros Hok Hfit. eapply glorot_view_wf; [exact Hok |].
  intros v w -> Hw. destruct (Hfit v eq_refl) as (t & Ht & Hle). congruence.
Qed.

Lemma reset_edge_type_layout (w_src w_dst : list (EdgeType * option View))
    self1 g1 self2 g2 (e : EdgeType) :
  reset_edge_type w_src w_dst (self1, g1) e = Ok (self2, g2) ->
  (forall v, Dict.get e w_src = Some (Some v) -> view_fits (lin_weights self1) v) ->
  (forall v, Dict.get e w_dst = Some (Some v) -> view_fits (lin_weights self1) v) ->
  same_layout self1 self2 /\ (lin_wf self1 -> lin_wf self2).
Proof.
  unfold reset_edge_type.
  intros (vs & Hvs%item_Ok & ([lin1 ga] & Hsrc
    & ([lin2 gb] & Hdst & (a & Ha%item_Ok & ([a' gc] & Hattn
    & (b & Hb & [= <- <-])%bind_Ok_inv)%bind_Ok_inv)%bind_Ok_inv)%bind_Ok_inv)
    %bind_Ok_inv)%bind_Ok_inv Hfs Hfd.
  cbn [fst snd] in *.
  pose proof (glorot_view_shapes _ _ _ _ _ Hsrc) as Hsh1.
  assert (Hsh2 : shapes_of lin2 = shapes_of lin1).
  { destruct (decide (src_of e <> dst_of e)).
    - apply bind_Ok_inv in Hdst as (vd & _ & Hdst).
      by eapply glorot_view_shapes.
    - by injection Hdst as <- <-. }
  apply glorot_attn_inv in Hattn as (_ & fan & _ & _ & -> & _).
  split.
  - split; try done.
    + unfold set_params. cbn [lin_weights]. congruence.
    + intros e'. unfold set_params. cbn [attn_weights].
      rewrite get_set. destruct (decide (e = e')) as [<-|Hne]; [|done].
      rewrite Ha. simpl. by rewrite length_draws.
    + unfold set_params. cbn [bias]. destruct (bias self1) as [bs|].
      * apply bind_Ok_inv in Hb as (x & Hx%item_Ok & [= <-]).
        intros e'. rewrite get_set. destruct (decide (e = e')) as [<-|Hne]; [|done].
        rewrite Hx. simpl. unfold zeros. by rewrite length_replicate.
      * by injection Hb as <-.
  - intros Hwf. unfold lin_wf, set_params. cbn [lin_weights].
    assert (Hwf1 : forall k w, Dict.get k lin1 = Some w -> wf_tensor w).
    { eapply glorot_view_fits; [exact Hsrc | | exact Hwf].
      intros v ->. by apply Hfs. }
    destruct (decide (src_of e <> dst_of e)).
    + apply bind_Ok_inv in Hdst as (vd & Hvd%item_Ok & Hdst).
      eapply glorot_view_fits; [exact Hdst | | exact Hwf1].
      intros v ->. eapply view_fits_shapes; [exact Hsh1 |]. by apply Hfd.
    + by injection Hdst as <- <-.
Qed.

End reset_layout.

Section reset_parameters_layout.
Context `{B : Backend}.
Implicit Types (self : Layer) (g : Generator).

Lemma layout_ok_lin_wf self : layout_ok self -> lin_wf self.
Proof. intros [] k w Hw. by destruct (ok_lin_shape0 _ _ Hw). Qed.

Lemma layout_ok_view_size self (ntype : string) (v : View) :
  layout_ok self -> (ntype, v) ∈ param_views (lin_weights self) ->
  size v 0 = Ok (n_rel_of self ntype * block_of self).
Proof.
  intros Hok (w & Hw & ->)%elem_of_param_views.
  apply elem_of_get in Hw; [|apply Hok].
  destruct (ok_lin_shape _ Hok _ _ Hw) as (_ & Hrows & _).
  simpl. unfold view_size. simpl. unfold block_of. f_equal. lia.
Qed.

(** The views [reset_parameters] gets from [split_tensors]. *)
Lemma reset_views self (ws : list (EdgeType * option View) * list (EdgeType * option View)) :
  layout_ok self ->
  split_tensors self (param_views (lin_weights self)) 0 = Ok ws ->
  (forall ntype, ntype ∈ node_types self -> 0 < n_rel_of self ntype)
  /\ (forall e, Dict.get e ws.1
                = if decide (e ∈ edge_types self)
                  then Some (src_chunk self (param_views (lin_weights self)) 0
                                       (block_of self) e)
                  else None)
  /\ (forall e, Dict.get e ws.2
                = if decide (e ∈ edge_types self)
                  then Some (dst_chunk self (param_views (lin_weights self)) 0
                                       (block_of self) e)
                  else None).
Proof.
  intros Hok Hsplit.
  assert (Hpos : forall ntype, ntype ∈ node_types self -> 0 < n_rel_of self ntype).
  { intros ntype Hnt. eapply split_tensors_Ok_pos; [exact Hsplit |].
    rewrite keys_param_views. by apply Hok. }
  split; [done |].
  destruct (split_tensors_chunks self 0 (block_of self) (ok_rel _ Hok)
              (param_views (lin_weights self))) as (xs & xd & Heq & Hs & Hd).
  - rewrite keys_param_views. apply Hok.
  - intros ntype v Hin. split; [|by apply layout_ok_view_size].
    apply Hpos, Hok. rewrite <- keys_param_views.
    unfold Dict.keys. apply list_elem_of_fmap. by exists (ntype, v).
  - rewrite Hsplit in Heq. injection Heq as ->. done.
Qed.

Lemma reset_parameters_layout self (seed : option Z) g self' g' :
  layout_ok self ->
  reset_parameters self seed g = Ok (self', g') ->
  same_layout self self' /\ layout_ok self'
  /\ forall ntype, ntype ∈ node_types self -> 0 < n_rel_of self ntype.
Proof.
  intros Hok. unfold reset_parameters.
  intros (ws & Hsplit & Hloop)%bind_Ok_inv.
  destruct (reset_views _ _ Hok Hsplit) as (Hpos & Hsrc & Hdst).
  assert (Hinv : same_layout self self' /\ lin_wf self').
  { change (same_layout self (self', g').1 /\ lin_wf (self', g').1).
    apply (for_each_invariant
             (fun st => same_layout self st.1 /\ lin_wf st.1) _ _ _ _)
      with (3 := Hloop).
    - intros [self1 g1] e [self2 g2] He [Hsame Hwf] Hstep. cbn [fst] in *.
      apply reset_edge_type_layout in Hstep as [Hsame' Hwf'].
      + split; [by eapply same_layout_trans | by apply Hwf'].
      + intros v Hv. rewrite Hsrc, decide_True in Hv by done.
        injection Hv as Hv.
        apply src_chunk_view in Hv as (i & t & _ & Ht & ->).
        eapply view_fits_shapes; [apply Hsame |].
        exists t. split; [done | simpl; lia].
      + intros v Hv. rewrite Hdst, decide_True in Hv by done.
        injection Hv as Hv.
        apply dst_chunk_view in Hv as (j & t & _ & Ht & ->).
        eapply view_fits_shapes; [apply Hsame |].
        exists t. split; [done | simpl; lia].
    - cbn [fst]. split; [apply same_layout_refl | by apply layout_ok_lin_wf]. }
  destruct Hinv as [Hsame Hwf]. split_and!; [done | | done].
  by eapply layout_ok_same.
Qed.

(** A constructed layer: the layout holds and every node type has a relation. *)
Lemma init_layout (cfg : Config) g self g' :
  init cfg g = Ok (self, g') ->
  layout_ok self
  /\ (forall ntype, ntype ∈ node_types self -> 0 < n_rel_of self ntype)
  /\ exists self0, allocate cfg = Ok self0 /\ same_layout self0 self.
Proof.
  unfold init. intros (self0 & Halloc & Hreset)%bind_Ok_inv.
  pose proof (allocate_layout_ok _ _ Halloc) as Hok0.
  destruct (reset_parameters_layout _ _ _ _ _ Hok0 Hreset) as (Hsame & Hok & Hpos).
  split_and!; [done | | eauto].
  intros ntype Hnt. rewrite (same_layout_n_rel _ _ _ Hsame). apply Hpos.
  by rewrite <- (same_node_types _ _ Hsame).
Qed.

End reset_parameters_layout.

(** ** Whatever [split_tensors] returns *)

Section split_general.
Context `{B : Backend} {T : Type} `{TL : TensorLike T}.
Implicit Types (self : Layer) (fused : list (string * T)).

Lemma for_each_getitem_Ok (t_list : list T) (off start : nat) (ks : list EdgeType)
    (d d' : list (EdgeType * option T)) :
  for_each (fun d '(i, k) => c <- getitem t_list (i + off) ;; Ok (Dict.set k (Some c) d))
           (enumerate_from start ks) d = Ok d' ->
  d' = assign (fun i => t_list !! (i + off)) start ks d.
Proof.
  revert start d. induction ks as [|k ks IH]; intros start d; simpl.
  - by intros [= <-].
  - unfold getitem at 1. destruct (t_list !! (start + off)) as [c|] eqn:Hc; [|done].
    simpl. intros Hrest%IH. by rewrite assign_cons, Hc.
Qed.

Lemma split_one_Ok_assign self (dim : Z) xs xd (ntype : string) (t : T) xs' xd' :
  split_one self dim (xs, xd) (ntype, t) = Ok (xs', xd') ->
  exists f f', xs' = assign f 0 (srcs_of self ntype) xs
               /\ xd' = assign f' 0 (dsts_of self ntype) xd.
Proof.
  unfold split_one. fold (srcs_of self ntype) (dsts_of self ntype).
  intros (t_list & _ & (xs1 & Hxs & (xd1 & Hxd & [= <- <-])%bind_Ok_inv)
    %bind_Ok_inv)%bind_Ok_inv.
  rewrite (for_each_ext _
    (fun d '(i, k) => c <- getitem t_list (i + 0) ;; Ok (Dict.set k (Some c) d)))
    in Hxs.
  2:{ intros s [i k]. by rewrite Nat.add_0_r. }
  apply for_each_getitem_Ok in Hxs. apply for_each_getitem_Ok in Hxd. eauto.
Qed.

(** The loop never raises on account of the entries it does not visit. *)
Lemma split_tensors_total self fused (dim : Z) :
  (forall entry dicts, entry ∈ fused ->
     exists dicts', split_one self dim dicts entry = Ok dicts') ->
  exists res, split_tensors self fused dim = Ok res.
Proof.
  unfold split_tensors. generalize (Dict.fromkeys (edge_types self) (@None T),
                                    Dict.fromkeys (edge_types self) (@None T)).
  induction fused as [|entry fused IH]; intros dicts Hone; cbn [for_each]; [eauto |].
  destruct (Hone entry dicts) as [dicts' ->]; [left |]. cbn [bind].
  apply IH. intros ? ? ?. apply Hone. by right.
Qed.

Section with_index.
Context (self : Layer) (dim : Z).
Hypothesis Hrel : forall ntype,
  relations_of (relations_per_ntype self) ntype
  = (src_rels (edge_types self) ntype, dst_rels (edge_types self) ntype).

Lemma split_loop_frame fused xs xd xs' xd' :
  for_each (split_one self dim) fused (xs, xd) = Ok (xs', xd') ->
  (forall e, e ∉ edge_types self \/ src_of e ∉ Dict.keys fused ->
             Dict.get e xs' = Dict.get e xs)
  /\ (forall e, e ∉ edge_types self \/ dst_of e ∉ Dict.keys fused
                \/ src_of e = dst_of e ->
                Dict.get e xd' = Dict.get e xd)
  /\ (forall e, e ∈ Dict.keys xs' <->
                e ∈ Dict.keys xs
                \/ e ∈ edge_types self /\ src_of e ∈ Dict.keys fused)
  /\ (forall e, e ∈ Dict.keys xd' <->
                e ∈ Dict.keys xd
                \/ e ∈ edge_types self /\ dst_of e ∈ Dict.keys fused
                   /\ src_of e <> dst_of e)
  /\ (NoDup (Dict.keys xs) -> NoDup (Dict.keys xs'))
  /\ (NoDup (Dict.keys xd) -> NoDup (Dict.keys xd')).
Proof using Hrel.
  revert xs xd. induction fused as [|[nt t] fused IH]; intros xs xd; cbn [for_each].
  - intros [= <- <-]. split_and!; try done.
    + intros e. unfold Dict.keys at 3. rewrite fmap_nil, elem_of_nil. naive_solver.
    + intros e. unfold Dict.keys at 3. rewrite fmap_nil, elem_of_nil. naive_solver.
  - intros ([xs1 xd1] & Hone & Hrest)%bind_Ok_inv.
    apply split_one_Ok_assign in Hone as (f & f' & -> & ->).
    destruct (IH _ _ Hrest) as (IHs & IHd & IHks & IHkd & IHns & IHnd).
    assert (Hkeys : forall k : string,
              k ∈ Dict.keys ((nt, t) :: fused) <-> k = nt \/ k ∈ Dict.keys fused).
    { intros k. unfold Dict.keys. by rewrite fmap_cons, elem_of_cons. }
    split_and!.
    + intros e He. rewrite IHs, get_assign.
      * rewrite (proj2 (last_index_None e (srcs_of self nt))); [done |].
        rewrite (srcs_of_rel self Hrel), elem_of_src_rels.
        rewrite Hkeys in He. naive_solver.
      * rewrite Hkeys in He. naive_solver.
    + intros e He. rewrite IHd, get_assign.
      * rewrite (proj2 (last_index_None e (dsts_of self nt))); [done |].
        rewrite (dsts_of_rel self Hrel), elem_of_dst_rels.
        rewrite Hkeys in He. naive_solver.
      * rewrite Hkeys in He. naive_solver.
    + intros e. rewrite IHks, elem_of_keys_assign, Hkeys.
      rewrite (srcs_of_rel self Hrel), elem_of_src_rels. naive_solver.
    + intros e. rewrite IHkd, elem_of_keys_assign, Hkeys.
      rewrite (dsts_of_rel self Hrel), elem_of_dst_rels. naive_solver.
    + intros Hnd. by apply IHns, NoDup_keys_assign.
    + intros Hnd. by apply IHnd, NoDup_keys_assign.
Qed.

End with_index.
End split_general.

(** ** The projector *)

Section projector_facts.
Context `{B : Backend}.
Implicit Types (self : Layer) (x_dict : list (string * Tensor scalar)).

Lemma matmul_T_shape (x w t : Tensor scalar) :
  matmul_T x w = Ok t -> nrows t = nrows x /\ ncols t = nrows w /\ ncols x = ncols w.
Proof.
  unfold matmul_T. destruct (ncols x =? ncols w) eqn:Hc; [|done].
  intros [= <-]. apply Nat.eqb_eq in Hc. done.
Qed.

Lemma project_loop self (l : list (string * Tensor scalar))
    (d d' : list (string * option (Tensor scalar))) :
  for_each (project self) l d = Ok d' ->
  (forall k, k ∈ Dict.keys l -> k ∈ Dict.keys d) ->
  Dict.keys d' = Dict.keys d
  /\ (forall k, k ∈ Dict.keys l ->
        exists t, Dict.get k d' = Some (Some t))
  /\ (forall k t, Dict.get k d' = Some (Some t) ->
        Dict.get k d = Some (Some t)
        \/ exists x w, (k, x) ∈ l /\ Dict.get k (lin_weights self) = Some w
                       /\ matmul_T x w = Ok t).
Proof.
  revert d. induction l as [|[nt x] l IH]; intros d; cbn [for_each].
  - intros [= <-] _. split_and!; [done | | eauto].
    intros k Hk. unfold Dict.keys in Hk. by apply elem_of_nil in Hk.
  - intros (d1 & Hone & Hrest)%bind_Ok_inv Hsub.
    unfold project in Hone.
    apply bind_Ok_inv in Hone as (w & Hw%item_Ok & (y & Hy & [= <-])%bind_Ok_inv).
    assert (Hkeys : forall k : string,
              k ∈ Dict.keys ((nt, x) :: l) <-> k = nt \/ k ∈ Dict.keys l).
    { intros k. unfold Dict.keys. by rewrite fmap_cons, elem_of_cons. }
    assert (Hk1 : Dict.keys (Dict.set nt (Some y) d) = Dict.keys d).
    { rewrite keys_set, decide_True; [done |]. apply Hsub, Hkeys. by left. }
    destruct (IH _ Hrest) as (IHk & IHin & IHget).
    { intros k Hk. rewrite Hk1. apply Hsub, Hkeys. by right. }
    split_and!.
    + by rewrite IHk.
    + intros k Hk. destruct (decide (k ∈ Dict.keys l)) as [Hin|Hnin]; [by apply IHin |].
      apply Hkeys in Hk as [->|?]; [|done].
      assert (Hframe : forall (l0 : list (string * Tensor scalar)) d0 d0',
                for_each (project self) l0 d0 = Ok d0' -> nt ∉ Dict.keys l0 ->
                Dict.get nt d0' = Dict.get nt d0).
      { clear. induction l0 as [|[k0 x0] l0 IH0]; intros d0 d0'; cbn [for_each].
        - by intros [= <-].
        - intros (d1 & Hone & Hrest)%bind_Ok_inv Hnin.
          unfold Dict.keys in Hnin. rewrite fmap_cons, not_elem_of_cons in Hnin.
          destruct Hnin as [Hne Hnin]. cbn [fst] in Hne.
          rewrite (IH0 _ _ Hrest Hnin). unfold project in Hone.
          apply bind_Ok_inv in Hone as (w & _ & (y & _ & [= <-])%bind_Ok_inv).
          by rewrite get_set_ne. }
      rewrite (Hframe _ _ _ Hrest Hnin), get_set_eq. eauto.
    + intros k t Hget. apply IHget in Hget as [Hget|(x0 & w0 & Hin & Hw0 & Hm)].
      * rewrite get_set in Hget. destruct (decide (nt = k)) as [<-|Hne].
        -- injection Hget as ->. right. exists x, w. split; [left | done].
        -- by left.
      * right. exists x0, w0. split; [by right | done].
Qed.

(** What [forward] hands to [split_tensors]: a dict over the node types of
    [x_dict], holding [x @ lin_weights[ntype].T]. *)
Lemma projector_spec self x_dict (feat_dict : list (string * Tensor scalar)) :
  projector self x_dict = Ok feat_dict ->
  NoDup (Dict.keys feat_dict)
  /\ (forall k, k ∈ Dict.keys feat_dict <-> k ∈ Dict.keys x_dict)
  /\ (forall k t, Dict.get k feat_dict = Some t ->
        exists x w, (k, x) ∈ x_dict /\ Dict.get k (lin_weights self) = Some w
                    /\ matmul_T x w = Ok t).
Proof.
  unfold projector. intros (d & Hloop & Hd%all_assigned_inv)%bind_Ok_inv.
  apply project_loop in Hloop as (Hk & _ & Hget).
  2:{ intros k. by rewrite elem_of_keys_fromkeys. }
  split_and!.
  - rewrite <- (keys_fmap_Some feat_dict), <- Hd, Hk. apply NoDup_keys_fromkeys.
  - intros k. rewrite <- (keys_fmap_Some feat_dict), <- Hd, Hk.
    apply elem_of_keys_fromkeys.
  - intros k t Ht. destruct (Hget k t) as [Hinit|?]; [| |done].
    + by rewrite Hd, get_fmap_Some, Ht.
    + rewrite get_fromkeys in Hinit. by case_decide.
Qed.

End projector_facts.

(** * The claims *)

Lemma last_at_last_index {A : Type} `{EqDecision A} (l : list A) (i : nat) (e : A) :
  last_at l i e <-> last_index e l = Some i.
Proof. unfold last_at. by rewrite last_index_Some. Qed.

Section claims_split.
Context `{B : Backend}.

(** C9.  For a constructed layer, whatever fused dict [split_tensors] is
    given and whatever dimension, the two dicts it returns are keyed by
    exactly the edge types of the layer, each once; an edge type whose
    source and destination types are equal has [None] in [x_dst_dict]; an
    edge type whose source (destination) node type is not a key of the
    fused dict has [None] in [x_src_dict] (in [x_dst_dict]).  The call
    raises only while chunking an entry that is present: if the loop body
    returns on every entry of the fused dict, [split_tensors] returns. *)
Theorem split_tensors_keys_and_none {T : Type} `{TL : TensorLike T}
    (cfg : Config) (g g' : Generator) (self : Layer)
    (x_fused_dict : list (string * T)) (dim : Z) :
  init cfg g = Ok (self, g') ->
  (forall x_src_dict x_dst_dict,
     split_tensors self x_fused_dict dim = Ok (x_src_dict, x_dst_dict) ->
     (forall e, e ∈ Dict.keys x_src_dict <-> e ∈ edge_types self)
     /\ NoDup (Dict.keys x_src_dict)
     /\ (forall e, e ∈ Dict.keys x_dst_dict <-> e ∈ edge_types self)
     /\ NoDup (Dict.keys x_dst_dict)
     /\ (forall e, e ∈ edge_types self -> src_of e = dst_of e ->
           Dict.get e x_dst_dict = Some None)
     /\ (forall e, e ∈ edge_types self -> src_of e ∉ Dict.keys x_fused_dict ->
           Dict.get e x_src_dict = Some None)
     /\ (forall e, e ∈ edge_types self -> dst_of e ∉ Dict.keys x_fused_dict ->
           Dict.get e x_dst_dict = Some None))
  /\ ((forall entry dicts, entry ∈ x_fused_dict ->
         exists dicts', split_one self dim dicts entry = Ok dicts') ->
      exists res, split_tensors self x_fused_dict dim = Ok res).
Proof.
  intros (Hok & _ & _)%init_layout. split; [|apply split_tensors_total].
  intros xs xd Hsplit. unfold split_tensors in Hsplit.
  destruct (split_loop_frame self dim (ok_rel _ Hok) _ _ _ _ _ Hsplit)
    as (Hs & Hd & Hks & Hkd & Hns & Hnd).
  split_and!.
  - intros e. rewrite Hks, elem_of_keys_fromkeys. naive_solver.
  - apply Hns, NoDup_keys_fromkeys.
  - intros e. rewrite Hkd, elem_of_keys_fromkeys. naive_solver.
  - apply Hnd, NoDup_keys_fromkeys.
  - intros e He Heq. rewrite Hd by auto. rewrite get_fromkeys. by rewrite decide_True.
  - intros e He Hsrc. rewrite Hs by auto. rewrite get_fromkeys. by rewrite decide_True.
  - intros e He Hdst. rewrite Hd by auto. rewrite get_fromkeys. by rewrite decide_True.
Qed.

(** C3.  For a constructed layer and the fused feature dict that the
    projector makes of [x_dict], [split_tensors] along the columns returns,
    and for every node type of the dict, with [n_rel] incident relations:
    the width of its tensor is [n_rel * heads * out_channels];
    [torch.chunk] cuts it into exactly [n_rel] chunks of
    [heads * out_channels] columns, the [i]-th starting at column
    [i * heads * out_channels]; the chunk [i] is left in [x_src_dict] under
    the [i]-th edge type of the source list, and the chunk [n_src + j] in
    [x_dst_dict] under the [j]-th edge type of the destination list (an edge
    type listed twice keeps the chunk of its last position). *)
Theorem split_tensors_forward_chunks (cfg : Config) (g g' : Generator)
    (self : Layer) (x_dict feat_dict : list (string * Tensor scalar)) :
  init cfg g = Ok (self, g') ->
  projector self x_dict = Ok feat_dict ->
  exists x_src_dict x_dst_dict,
    split_tensors self feat_dict 1 = Ok (x_src_dict, x_dst_dict)
    /\ forall ntype t, Dict.get ntype feat_dict = Some t ->
         let n_rel := n_rel_of self ntype in
         let width := num_heads self * out_channels self in
         0 < n_rel
         /\ ncols t = n_rel * width
         /\ (exists t_list,
               torch_chunk t n_rel 1 = Ok t_list
               /\ length t_list = n_rel
               /\ (forall i, i < n_rel ->
                     t_list !! i = Some (tensor_narrow t 1 (i * width) width))
               /\ (forall i e, last_at (srcs_of self ntype) i e ->
                     Dict.get e x_src_dict = Some (t_list !! i))
               /\ (forall j e, last_at (dsts_of self ntype) j e ->
                     Dict.get e x_dst_dict
                     = Some (t_list !! (j + length (srcs_of self ntype))))).
Proof.
  intros (Hok & Hpos & _)%init_layout (Hnd & Hkeys & Hfeat)%projector_spec.
  assert (Heven : forall ntype t, (ntype, t) ∈ feat_dict ->
            0 < n_rel_of self ntype
            /\ size t 1 = Ok (n_rel_of self ntype * block_of self)).
  { intros ntype t Hin. apply elem_of_get in Hin; [|done].
    destruct (Hfeat _ _ Hin) as (x & w & _ & Hw & Hm).
    apply matmul_T_shape in Hm as (_ & Hc & _).
    destruct (ok_lin_shape _ Hok _ _ Hw) as (_ & Hrows & _). split.
    - apply Hpos, Hok, get_Some_keys. eauto.
    - simpl. unfold tensor_size. simpl. f_equal. unfold block_of. lia. }
  destruct (split_tensors_chunks self 1 (block_of self) (ok_rel _ Hok)
              feat_dict Hnd Heven) as (xs & xd & Hsplit & Hs & Hd).
  exists xs, xd. split; [done |].
  intros ntype t Ht n_rel width.
  destruct (Heven ntype t (get_elem_of _ _ _ Ht)) as [Hn Hsize].
  split; [done |]. split.
  { simpl in Hsize. unfold tensor_size in Hsize. simpl in Hsize.
    injection Hsize as Hsize. exact Hsize. }
  exists (even_chunks t n_rel width 1). split_and!.
  - by apply torch_chunk_exact.
  - apply length_even_chunks.
  - intros i Hi. by rewrite lookup_even_chunks.
  - intros i e Hlast. pose proof Hlast as [Hi%lookup_lt_Some _].
    apply last_at_last_index in Hlast.
    assert (He : e ∈ edge_types self /\ src_of e = ntype).
    { pose proof Hlast as Hl.
      apply last_index_Some in Hl as [Hl%list_elem_of_lookup_2 _].
      rewrite (srcs_of_rel self (ok_rel _ Hok)), elem_of_src_rels in Hl.
      naive_solver. }
    destruct He as [He Hsrc].
    rewrite Hs, decide_True by done. unfold src_chunk.
    rewrite Hsrc, Ht, Hlast. rewrite lookup_even_chunks; [done |].
    unfold n_rel, n_rel_of. lia.
  - intros j e Hlast. pose proof Hlast as [Hj%lookup_lt_Some _].
    apply last_at_last_index in Hlast.
    assert (He : e ∈ edge_types self /\ dst_of e = ntype).
    { pose proof Hlast as Hl.
      apply last_index_Some in Hl as [Hl%list_elem_of_lookup_2 _].
      rewrite (dsts_of_rel self (ok_rel _ Hok)), elem_of_dst_rels in Hl.
      naive_solver. }
    destruct He as [He Hdst].
    rewrite Hd, decide_True by done. unfold dst_chunk.
    rewrite Hdst, Ht, Hlast. rewrite lookup_even_chunks; [done |].
    unfold n_rel, n_rel_of. lia.
Qed.

End claims_split.

(** ** The claims on the small backend *)

Lemma toy_init_two : init Toy.cfg_two 0 = Ok (Toy.layer_two, 42).
Proof. reflexivity. Qed.

Lemma toy_projector_two : projector Toy.layer_two Toy.x_two = Ok Toy.feat_two.
Proof. reflexivity. Qed.

Lemma split_tensors_keys_and_none_witness :
  init Toy.cfg_two 0 = Ok (Toy.layer_two, 42)
  /\ exists res, split_tensors Toy.layer_two (@nil (string * Tensor Z)) 1 = Ok res.
Proof.
  split; [exact toy_init_two |].
  refine (proj2 (split_tensors_keys_and_none Toy.cfg_two 0 42 Toy.layer_two
                   (@nil (string * Tensor Z)) 1 toy_init_two) _).
  intros entry dicts Hin. exfalso. exact (proj1 (elem_of_nil entry) Hin).
Defined.

Lemma split_tensors_forward_chunks_witness :
  init Toy.cfg_two 0 = Ok (Toy.layer_two, 42)
  /\ projector Toy.layer_two Toy.x_two = Ok Toy.feat_two
  /\ exists x_src_dict x_dst_dict,
       split_tensors Toy.layer_two Toy.feat_two 1 = Ok (x_src_dict, x_dst_dict).
Proof.
  split; [exact toy_init_two |]. split; [exact toy_projector_two |].
  destruct (split_tensors_forward_chunks Toy.cfg_two 0 42 Toy.layer_two Toy.x_two
              Toy.feat_two toy_init_two toy_projector_two)
    as (xs & xd & Hsplit & _).
  exists xs, xd. exact Hsplit.
Defined.

(** ** Construction *)

Section claims_construction.
Context `{B : Backend}.

Lemma n_rel_of_unreferenced (self : Layer) (ntype : string) :
  layout_ok self ->
  (forall e, e ∈ edge_types self -> src_of e <> ntype /\ dst_of e <> ntype) ->
  n_rel_of self ntype = 0.
Proof.
  intros Hok Hnone. unfold n_rel_of.
  rewrite (srcs_of_rel self (ok_rel _ Hok)), (dsts_of_rel self (ok_rel _ Hok)).
  assert (Hs : src_rels (edge_types self) ntype = []).
  { destruct (src_rels (edge_types self) ntype) as [|e l] eqn:Hl; [done |].
    assert (He : e ∈ src_rels (edge_types self) ntype) by (rewrite Hl; left).
    apply elem_of_src_rels in He as [He Hsrc]. by destruct (Hnone e He). }
  assert (Hd : dst_rels (edge_types self) ntype = []).
  { destruct (dst_rels (edge_types self) ntype) as [|e l] eqn:Hl; [done |].
    assert (He : e ∈ dst_rels (edge_types self) ntype) by (rewrite Hl; left).
    apply elem_of_dst_rels in He as (He & Hdst & _). by destruct (Hnone e He). }
  by rewrite Hs, Hd.
Qed.

Lemma reset_parameters_zero (self : Layer) (seed : option Z) (g : Generator)
    (ntype : string) :
  layout_ok self -> ntype ∈ node_types self -> n_rel_of self ntype = 0 ->
  reset_parameters self seed g = Raise RuntimeError.
Proof.
  intros Hok Hnt Hzero. unfold reset_parameters.
  rewrite (split_tensors_zero self _ 0 (block_of self)); [done | |].
  - intros nt v Hin. by apply layout_ok_view_size.
  - exists ntype. split; [|done]. rewrite keys_param_views. by apply Hok.
Qed.

(** C1.  A node type that is declared and touched by no edge type gets a
    fused weight of zero rows and [in_channels[ntype]] columns, but the
    construction then raises: [reset_parameters] splits the weights and
    [torch.chunk] refuses [chunks = 0].  On the layer as allocated,
    [forward] on an [x_dict] that has the node type never returns either. *)
Theorem unreferenced_node_type_raises (cfg : Config) (self : Layer)
    (ntype : string) (g : Generator) :
  allocate cfg = Ok self ->
  ntype ∈ cfg_node_types cfg ->
  (forall e, e ∈ cfg_edge_types cfg -> src_of e <> ntype /\ dst_of e <> ntype) ->
  (exists w, Dict.get ntype (lin_weights self) = Some w
             /\ nrows w = 0
             /\ Dict.get ntype (in_channels self) = Some (ncols w))
  /\ init cfg g = Raise RuntimeError
  /\ (forall x_dict edge_index_dict out,
        ntype ∈ Dict.keys x_dict ->
        forward self x_dict edge_index_dict <> Ok out).
Proof.
  intros Halloc Hnt Hnone.
  pose proof (allocate_layout_ok _ _ Halloc) as Hok.
  destruct (allocate_fields _ _ Halloc) as (Hnts & Hets & _).
  rewrite <- Hnts in Hnt. rewrite <- Hets in Hnone.
  pose proof (n_rel_of_unreferenced _ _ Hok Hnone) as Hzero.
  split_and!.
  - pose proof (proj2 (ok_lin_keys _ Hok ntype) Hnt) as Hk.
    apply get_Some_keys in Hk as [w Hw].
    exists w. destruct (ok_lin_shape _ Hok _ _ Hw) as (_ & Hrows & Hin).
    rewrite Hzero in Hrows. done.
  - unfold init. rewrite Halloc. cbn [bind].
    by eapply reset_parameters_zero.
  - intros x_dict ei out Hin Hfwd. unfold forward in Hfwd.
    apply bind_Ok_inv in Hfwd as (feat & Hproj & (xs & Hsplit & _)%bind_Ok_inv).
    apply projector_spec in Hproj as (_ & Hkeys & _).
    apply Hkeys in Hin.
    pose proof (split_tensors_Ok_pos _ _ _ _ Hsplit ntype Hin). lia.
Qed.


End claims_construction.

Lemma toy_allocate_unreferenced :
  allocate Toy.cfg_unreferenced = Ok Toy.allocated_unreferenced.
Proof. reflexivity. Qed.


Lemma unreferenced_node_type_raises_witness :
  allocate Toy.cfg_unreferenced = Ok Toy.allocated_unreferenced
  /\ "B" ∈ cfg_node_types Toy.cfg_unreferenced
  /\ init Toy.cfg_unreferenced 0 = Raise RuntimeError.
Proof.
  assert (Hnt : "B" ∈ cfg_node_types Toy.cfg_unreferenced)
    by (right; left).
  assert (Hnone : forall e : EdgeType,
            e ∈ cfg_edge_types Toy.cfg_unreferenced ->
            src_of e <> "B" /\ dst_of e <> "B").
  { intros e He. apply list_elem_of_singleton in He. rewrite He.
    split; discriminate. }
  split; [exact toy_allocate_unreferenced |]. split; [exact Hnt |].
  exact (proj1 (proj2 (unreferenced_node_type_raises Toy.cfg_unreferenced
                         Toy.allocated_unreferenced "B" 0
                         toy_allocate_unreferenced Hnt Hnone))).
Defined.


(** ** [forward]: dispatch and aggregation *)

Section forward_facts.
Context `{B : Backend}.
Implicit Types (self : Layer) (x_dict : list (string * Tensor scalar)).

Lemma landing_cons (ntype : string) (e : EdgeType) (o : Tensor scalar)
    (tagged : list (EdgeType * Tensor scalar)) :
  landing ntype ((e, o) :: tagged)
  = if decide (dst_of e = ntype) then o :: landing ntype tagged
    else landing ntype tagged.
Proof. unfold landing. rewrite filter_cons. simpl. by case_decide. Qed.

(** The dispatch loop: one output per entry of [edge_index_dict], appended
    to the list of its destination type. *)
Lemma dispatch_loop self x_dict x_src_dict x_dst_dict
    (edge_index_dict : list (EdgeType * EdgeIndex))
    (acc out_dict : list (string * list (Tensor scalar))) :
  for_each (dispatch self x_dict x_src_dict x_dst_dict) edge_index_dict acc
  = Ok out_dict ->
  exists tagged,
    Forall2 (fun entry p =>
               p.1 = entry.1
               /\ relation_output self x_dict x_src_dict x_dst_dict entry.1 entry.2
                  = Ok p.2)
            edge_index_dict tagged
    /\ (forall ntype,
          Dict.get ntype out_dict
          = match landing ntype tagged with
            | [] => Dict.get ntype acc
            | l => Some (default [] (Dict.get ntype acc) ++ l)
            end)
    /\ (NoDup (Dict.keys acc) -> NoDup (Dict.keys out_dict)).
Proof.
  revert acc. induction edge_index_dict as [|[e idx] ei IH]; intros acc;
    cbn [for_each].
  - intros [= <-]. exists []. split_and!; [constructor | done | done].
  - intros (acc1 & Hone & Hrest)%bind_Ok_inv. unfold dispatch in Hone.
    apply bind_Ok_inv in Hone as (o & Ho & [= <-]).
    destruct (IH _ Hrest) as (tagged & Hall & Hget & Hnd).
    exists ((e, o) :: tagged). split_and!.
    + constructor; [by split | done].
    + intros ntype. rewrite Hget, landing_cons, get_set.
      destruct (decide (dst_of e = ntype)) as [<-|Hne].
      * destruct (landing (dst_of e) tagged) as [|o' l]; simpl; [done |].
        by rewrite <- app_assoc.
      * done.
    + intros Hacc. by apply Hnd, NoDup_keys_set.
Qed.

Lemma group_nonempty (xs : list (Tensor scalar)) (a : string) r :
  group xs a = Ok r -> xs <> [] -> exists t, r = Some t.
Proof.
  unfold group. destruct xs as [|x [|x' xs]]; [done | |].
  - intros [= <-]. eauto.
  - intros Hg _. case_decide.
    + apply bind_Ok_inv in Hg as (t & _ & [= <-]). eauto.
    + apply bind_Ok_inv in Hg as (t & _ & [= <-]). eauto.
Qed.

(** A single tensor is returned as it is, whatever the reduction. *)
Lemma group_singleton (x : Tensor scalar) (a : string) : group [x] a = Ok (Some x).
Proof. done. Qed.

(** The reduction loop: each list becomes the result of [group]. *)
Lemma reduce_loop self (out_dict : list (string * list (Tensor scalar)))
    (acc out : list (string * option (Tensor scalar))) :
  NoDup (Dict.keys out_dict) ->
  (forall k, k ∈ Dict.keys out_dict -> k ∉ Dict.keys acc) ->
  for_each (reduce_entry self) out_dict acc = Ok out ->
  Dict.keys out = Dict.keys acc ++ Dict.keys out_dict
  /\ (forall ntype, Dict.get ntype out_dict = None ->
        Dict.get ntype out = Dict.get ntype acc)
  /\ (forall ntype l, Dict.get ntype out_dict = Some l ->
        exists r, group l (aggr self) = Ok r /\ Dict.get ntype out = Some r).
Proof.
  revert acc. induction out_dict as [|[k v] od IH]; intros acc Hnd Hdisj;
    cbn [for_each].
  - intros [= <-]. split_and!; [by rewrite app_nil_r | done | done].
  - intros (acc1 & Hone & Hrest)%bind_Ok_inv. unfold reduce_entry in Hone.
    apply bind_Ok_inv in Hone as (r & Hr & [= <-]).
    unfold Dict.keys in Hnd. rewrite fmap_cons in Hnd.
    apply NoDup_cons in Hnd as [Hk Hnd]. cbn [fst] in Hk.
    assert (Hkacc : k ∉ Dict.keys acc).
    { apply Hdisj. unfold Dict.keys. rewrite fmap_cons. left. }
    assert (Hkeys1 : Dict.keys (Dict.set k r acc) = Dict.keys acc ++ [k]).
    { rewrite keys_set. by rewrite decide_False. }
    destruct (IH (Dict.set k r acc) Hnd) as (IHk & IHn & IHs); [|done|].
    { intros k' Hk'. rewrite Hkeys1, elem_of_app, list_elem_of_singleton.
      intros [Hin| ->]; [|done].
      eapply Hdisj; [|exact Hin]. unfold Dict.keys. rewrite fmap_cons. by right. }
    split_and!.
    + rewrite IHk, Hkeys1. unfold Dict.keys. rewrite fmap_cons.
      by rewrite <- app_assoc.
    + intros ntype Hnone. simpl in Hnone.
      destruct (decide (ntype = k)) as [->|Hne]; [done |].
      rewrite IHn by done. by apply get_set_ne.
    + intros ntype l Hl. simpl in Hl.
      destruct (decide (ntype = k)) as [->|Hne].
      * injection Hl as <-. exists r. split; [done |].
        rewrite IHn; [apply get_set_eq | by apply get_None_keys].
      * by apply IHs.
Qed.

(** The steps of a [forward] that returns. *)
Lemma forward_Ok_inv self x_dict (edge_index_dict : list (EdgeType * EdgeIndex)) out :
  forward self x_dict edge_index_dict = Ok out ->
  exists feat_dict x_src_dict x_dst_dict out_dict,
    projector self x_dict = Ok feat_dict
    /\ split_tensors self feat_dict 1 = Ok (x_src_dict, x_dst_dict)
    /\ for_each (dispatch self x_dict x_src_dict x_dst_dict) edge_index_dict []
       = Ok out_dict
    /\ for_each (reduce_entry self) out_dict [] = Ok out.
Proof.
  unfold forward.
  intros (feat & Hproj & ([xs xd] & Hsplit & (od & Hdisp & Hred)%bind_Ok_inv)
    %bind_Ok_inv)%bind_Ok_inv.
  by exists feat, xs, xd, od.
Qed.

End forward_facts.

Section constructed_forward.
Context `{B : Backend}.
Implicit Types (self : Layer) (x_dict : list (string * Tensor scalar)).

(** On a constructed layer the split of the projections returns, and every
    edge type holds the chunks of its two node types. *)
Lemma constructed_split (cfg : Config) (g g' : Generator) self x_dict
    (feat_dict : list (string * Tensor scalar)) :
  init cfg g = Ok (self, g') ->
  projector self x_dict = Ok feat_dict ->
  exists x_src_dict x_dst_dict,
    split_tensors self feat_dict 1 = Ok (x_src_dict, x_dst_dict)
    /\ (forall e, Dict.get e x_src_dict
                  = if decide (e ∈ edge_types self)
                    then Some (src_chunk self feat_dict 1 (block_of self) e)
                    else None)
    /\ (forall e, Dict.get e x_dst_dict
                  = if decide (e ∈ edge_types self)
                    then Some (dst_chunk self feat_dict 1 (block_of self) e)
                    else None).
Proof.
  intros (Hok & Hpos & _)%init_layout (Hnd & Hkeys & Hfeat)%projector_spec.
  apply (split_tensors_chunks self 1 (block_of self) (ok_rel _ Hok)); [done |].
  intros ntype t Hin. apply elem_of_get in Hin; [|done].
  destruct (Hfeat _ _ Hin) as (x & w & _ & Hw & Hm).
  apply matmul_T_shape in Hm as (_ & Hc & _).
  destruct (ok_lin_shape _ Hok _ _ Hw) as (_ & Hrows & _). split.
  - apply Hpos, Hok, get_Some_keys. eauto.
  - simpl. unfold tensor_size. simpl. f_equal. unfold block_of. lia.
Qed.

Lemma src_chunk_Some self (feat_dict : list (string * Tensor scalar)) (w : nat)
    (e : EdgeType) :
  layout_ok self -> e ∈ edge_types self ->
  is_Some (Dict.get (src_of e) feat_dict) ->
  is_Some (src_chunk self feat_dict 1 w e).
Proof.
  intros Hok He [t Ht]. unfold src_chunk. rewrite Ht.
  destruct (last_index e (srcs_of self (src_of e))) as [i|] eqn:Hi; [eauto |].
  apply last_index_None in Hi. exfalso. apply Hi.
  rewrite (srcs_of_rel self (ok_rel _ Hok)). by apply elem_of_src_rels.
Qed.

Lemma dst_chunk_Some self (feat_dict : list (string * Tensor scalar)) (w : nat)
    (e : EdgeType) :
  layout_ok self -> e ∈ edge_types self -> src_of e <> dst_of e ->
  is_Some (Dict.get (dst_of e) feat_dict) ->
  is_Some (dst_chunk self feat_dict 1 w e).
Proof.
  intros Hok He Hne [t Ht]. unfold dst_chunk. rewrite Ht.
  destruct (last_index e (dsts_of self (dst_of e))) as [i|] eqn:Hi; [eauto |].
  apply last_index_None in Hi. exfalso. apply Hi.
  rewrite (dsts_of_rel self (ok_rel _ Hok)). by apply elem_of_dst_rels.
Qed.

Lemma dst_chunk_same self (feat_dict : list (string * Tensor scalar)) (w : nat)
    (e : EdgeType) :
  layout_ok self -> src_of e = dst_of e -> dst_chunk self feat_dict 1 w e = None.
Proof.
  intros Hok Heq. unfold dst_chunk.
  rewrite (last_index_dsts_same self (ok_rel _ Hok)) by done.
  by destruct (Dict.get (dst_of e) feat_dict).
Qed.

End constructed_forward.

Section claims_forward.
Context `{B : Backend}.
Implicit Types (self : Layer) (x_dict : list (string * Tensor scalar)).

Lemma elem_of_Forall2_l {A C : Type} (P : A -> C -> Prop) (l : list A) (k : list C) (x : A) :
  Forall2 P l k -> x ∈ l -> exists y, y ∈ k /\ P x y.
Proof.
  induction 1 as [|a c l k Hac _ IH]; [by intros ?%elem_of_nil |].
  intros [->|Hin]%elem_of_cons.
  - exists c. split; [left | done].
  - destruct (IH Hin) as (y & Hy & Hxy). exists y. split; [by right | done].
Qed.

(** C4.  In a [forward] that returns, on a constructed layer, every entry
    [(e, edge_index)] of [edge_index_dict] is dispatched as follows.  The
    adjacency is [to_csc(edge_index, (n_src, n_dst))] with the row counts of
    the features of the two node types.  If the source type of [e] equals
    its destination type, the graph is made with [bipartite=False] and
    [mha_gat_n2n] is given the single chunk [x_src_dict[e]]; [x_dst_dict[e]]
    is [None] and [e] is in no destination list, so none of the fused
    weights has a destination block for it.  Otherwise the graph is made
    with [bipartite=True] and [mha_gat_n2n] is given the pair
    [(x_src_dict[e], x_dst_dict[e])].  In both cases the other arguments are
    the attention vector of [e], the graph, the head count, ["LeakyReLU"],
    the negative slope and the concat flag, and the output of the relation
    is the result, plus the bias of [e] when the layer has biases. *)
Theorem forward_dispatch (cfg : Config) (g g' : Generator) self x_dict
    (edge_index_dict : list (EdgeType * EdgeIndex)) out :
  init cfg g = Ok (self, g') ->
  forward self x_dict edge_index_dict = Ok out ->
  exists feat_dict x_src_dict x_dst_dict,
    projector self x_dict = Ok feat_dict
    /\ split_tensors self feat_dict 1 = Ok (x_src_dict, x_dst_dict)
    /\ forall e edge_index, (e, edge_index) ∈ edge_index_dict ->
         exists x_s x_d csc graph a c_src o out_e,
           Dict.get (src_of e) x_dict = Some x_s
           /\ Dict.get (dst_of e) x_dict = Some x_d
           /\ to_csc edge_index (nrows x_s, nrows x_d) = Ok csc
           /\ Dict.get e (attn_weights self) = Some a
           /\ Dict.get e x_src_dict = Some (Some c_src)
           /\ (if decide (src_of e = dst_of e)
               then
                 get_cugraph csc false = Ok graph
                 /\ Dict.get e x_dst_dict = Some None
                 /\ (forall ntype, e ∉ dsts_of self ntype)
                 /\ mha_gat_n2n (Single (Some c_src)) a graph (num_heads self)
                      "LeakyReLU" (negative_slope self) (concat_heads self)
                    = Ok o
               else
                 exists c_dst,
                   get_cugraph csc true = Ok graph
                   /\ Dict.get e x_dst_dict = Some (Some c_dst)
                   /\ mha_gat_n2n (Pair (Some c_src) (Some c_dst)) a graph
                        (num_heads self) "LeakyReLU" (negative_slope self)
                        (concat_heads self)
                      = Ok o)
           /\ match bias self with
              | Some bs => exists b, Dict.get e bs = Some b /\ add_bias o b = Ok out_e
              | None => out_e = o
              end
           /\ relation_output self x_dict x_src_dict x_dst_dict e edge_index
              = Ok out_e.
Proof.
  intros Hinit (feat & xs & xd & od & Hproj & Hsplit & Hdisp & _)%forward_Ok_inv.
  exists feat, xs, xd. split; [done |]. split; [done |].
  destruct (constructed_split _ _ _ _ _ _ Hinit Hproj)
    as (xs' & xd' & Hsplit' & Hs & Hd).
  rewrite Hsplit in Hsplit'. injection Hsplit' as <- <-.
  apply init_layout in Hinit as (Hok & _ & _).
  apply projector_spec in Hproj as (_ & Hkeys & _).
  apply dispatch_loop in Hdisp as (tagged & Hall & _ & _).
  intros e idx Hin.
  destruct (elem_of_Forall2_l _ _ _ _ Hall Hin) as ([e' out_e] & _ & _ & Hrel).
  cbn [fst snd] in Hrel. pose proof Hrel as Hrel'. unfold relation_output in Hrel.
  apply bind_Ok_inv in Hrel as (x_s & Hxs%item_Ok & Hrel).
  apply bind_Ok_inv in Hrel as (x_d & Hxd%item_Ok & Hrel).
  apply bind_Ok_inv in Hrel as (csc & Hcsc & Hrel).
  apply bind_Ok_inv in Hrel as (o & Ho & Hbias).
  assert (Hsrc_in : is_Some (Dict.get (src_of e) feat)).
  { apply get_Some_keys, Hkeys, get_Some_keys. eauto. }
  assert (Hdst_in : is_Some (Dict.get (dst_of e) feat)).
  { apply get_Some_keys, Hkeys, get_Some_keys. eauto. }
  assert (Hbias' : match bias self with
                   | Some bs => exists b, Dict.get e bs = Some b
                                          /\ add_bias o b = Ok out_e
                   | None => out_e = o
                   end).
  { destruct (bias self) as [bs|].
    - apply bind_Ok_inv in Hbias as (b & Hb%item_Ok & Hadd). eauto.
    - by injection Hbias as <-. }
  destruct (decide (src_of e = dst_of e)) as [Heq|Hne].
  - apply bind_Ok_inv in Ho as (graph & Hgraph & Ho).
    apply bind_Ok_inv in Ho as (f & Hf%item_Ok & Ho).
    apply bind_Ok_inv in Ho as (a & Ha%item_Ok & Ho).
    assert (He : e ∈ edge_types self).
    { rewrite Hs in Hf. by case_decide. }
    rewrite Hs, decide_True in Hf by done. injection Hf as Hf.
    destruct (src_chunk_Some self feat (block_of self) e Hok He Hsrc_in)
      as [c_src Hc].
    rewrite Hc in Hf. subst f.
    exists x_s, x_d, csc, graph, a, c_src, o, out_e.
    lazy beta iota. split_and!; try done.
    + by rewrite Hs, decide_True, Hc.
    + by rewrite Hd, decide_True, dst_chunk_same.
    + intros ntype. rewrite (dsts_of_rel self (ok_rel _ Hok)), elem_of_dst_rels.
      naive_solver.
  - apply bind_Ok_inv in Ho as (graph & Hgraph & Ho).
    apply bind_Ok_inv in Ho as (fs & Hfs%item_Ok & Ho).
    apply bind_Ok_inv in Ho as (fd & Hfd%item_Ok & Ho).
    apply bind_Ok_inv in Ho as (a & Ha%item_Ok & Ho).
    assert (He : e ∈ edge_types self).
    { rewrite Hs in Hfs. by case_decide. }
    rewrite Hs, decide_True in Hfs by done. injection Hfs as Hfs.
    rewrite Hd, decide_True in Hfd by done. injection Hfd as Hfd.
    destruct (src_chunk_Some self feat (block_of self) e Hok He Hsrc_in)
      as [c_src Hc].
    destruct (dst_chunk_Some self feat (block_of self) e Hok He Hne Hdst_in)
      as [c_dst Hc'].
    rewrite Hc in Hfs. rewrite Hc' in Hfd. subst fs fd.
    exists x_s, x_d, csc, graph, a, c_src, o, out_e.
    lazy beta iota. split_and!; try done.
    + by rewrite Hs, decide_True, Hc.
    + exists c_dst. split_and!; [done | | done].
      by rewrite Hd, decide_True, Hc'.
Qed.

Lemma Forall2_landing_length self x_dict x_src_dict x_dst_dict
    (edge_index_dict : list (EdgeType * EdgeIndex))
    (tagged : list (EdgeType * Tensor scalar)) (ntype : string) :
  Forall2 (fun entry p =>
             p.1 = entry.1
             /\ relation_output self x_dict x_src_dict x_dst_dict entry.1 entry.2
                = Ok p.2)
          edge_index_dict tagged ->
  length (landing ntype tagged)
  = length (filter (fun entry => dst_of entry.1 = ntype) edge_index_dict).
Proof.
  induction 1 as [|[e idx] [e' o] ei tagged [He _] _ IH]; [done |].
  cbn [fst] in He. subst e'. rewrite landing_cons, filter_cons. cbn [fst].
  case_decide; simpl; by rewrite IH.
Qed.

(** C6.  A [forward] that returns has computed one output per entry of
    [edge_index_dict] ([tagged], in the order of the entries); for a node
    type on which no output lands the result has no entry, and for any
    other node type it has exactly one entry, the tensor that [group]
    makes of the outputs landing on it, taken in the order of
    [edge_index_dict], with the configured [aggr]. *)
Theorem forward_aggregates_per_destination self x_dict
    (edge_index_dict : list (EdgeType * EdgeIndex)) out :
  forward self x_dict edge_index_dict = Ok out ->
  exists x_src_dict x_dst_dict tagged,
    tagged.*1 = edge_index_dict.*1
    /\ Forall2 (fun entry p =>
                  relation_output self x_dict x_src_dict x_dst_dict entry.1 entry.2
                  = Ok p.2)
               edge_index_dict tagged
    /\ NoDup (Dict.keys out)
    /\ forall ntype,
         match landing ntype tagged with
         | [] => ntype ∉ Dict.keys out
         | l => exists t, group l (aggr self) = Ok (Some t)
                          /\ Dict.get ntype out = Some (Some t)
         end.
Proof.
  intros (feat & xs & xd & od & _ & _ & Hdisp & Hred)%forward_Ok_inv.
  apply dispatch_loop in Hdisp as (tagged & Hall & Hget & Hnd).
  specialize (Hnd (NoDup_nil_2 (A:=string))).
  apply reduce_loop in Hred as (Hkeys & Hnone & Hsome); [|done|].
  2:{ intros k _ Hk. unfold Dict.keys in Hk. by apply elem_of_nil in Hk. }
  exists xs, xd, tagged. split_and!.
  - clear -Hall. induction Hall as [|[e idx] [e' o] ei tagged [He _] _ IH]; [done |].
    rewrite !fmap_cons. cbn [fst] in *. by rewrite He, IH.
  - eapply Forall2_impl; [exact Hall |]. by intros ? ? [_ ?].
  - by rewrite Hkeys.
  - intros ntype. specialize (Hget ntype).
    destruct (landing ntype tagged) as [|o l] eqn:Hl.
    + apply get_None_keys. rewrite Hnone; [done |]. by rewrite Hget.
    + simpl in Hget. destruct (Hsome _ _ Hget) as (r & Hr & Hout).
      destruct (group_nonempty _ _ _ Hr) as [t ->]; [done |]. eauto.
Qed.

(** C8.  Two states of a layer that differ in [aggr] only, on the same
    inputs: for a node type that receives the output of exactly one
    relation, the two results of [forward] have the same entry.  In
    particular with ["sum"] and ["mean"]. *)
Theorem aggr_irrelevant_for_single_relation self x_dict
    (edge_index_dict : list (EdgeType * EdgeIndex)) (aggr1 aggr2 : string)
    out1 out2 (ntype : string) :
  forward (with_aggr self aggr1) x_dict edge_index_dict = Ok out1 ->
  forward (with_aggr self aggr2) x_dict edge_index_dict = Ok out2 ->
  length (filter (fun entry => dst_of entry.1 = ntype) edge_index_dict) = 1 ->
  Dict.get ntype out1 = Dict.get ntype out2
  /\ exists t, Dict.get ntype out1 = Some (Some t).
Proof.
  intros (feat1 & xs1 & xd1 & od1 & Hproj1 & Hsplit1 & Hdisp1 & Hred1)%forward_Ok_inv
         (feat2 & xs2 & xd2 & od2 & Hproj2 & Hsplit2 & Hdisp2 & Hred2)%forward_Ok_inv
         Hone.
  change (projector self x_dict = Ok feat1) in Hproj1.
  change (projector self x_dict = Ok feat2) in Hproj2.
  rewrite Hproj1 in Hproj2. injection Hproj2 as <-.
  change (split_tensors self feat1 1 = Ok (xs1, xd1)) in Hsplit1.
  change (split_tensors self feat1 1 = Ok (xs2, xd2)) in Hsplit2.
  rewrite Hsplit1 in Hsplit2. injection Hsplit2 as <- <-.
  change (for_each (dispatch self x_dict xs1 xd1) edge_index_dict [] = Ok od1)
    in Hdisp1.
  change (for_each (dispatch self x_dict xs1 xd1) edge_index_dict [] = Ok od2)
    in Hdisp2.
  rewrite Hdisp1 in Hdisp2. injection Hdisp2 as <-.
  apply dispatch_loop in Hdisp1 as (tagged & Hall & Hget & Hnd).
  specialize (Hnd (NoDup_nil_2 (A:=string))).
  assert (Hdisj : forall k, k ∈ Dict.keys od1 ->
            k ∉ Dict.keys (@nil (string * option (Tensor scalar)))).
  { intros k _ Hk. unfold Dict.keys in Hk. by apply elem_of_nil in Hk. }
  apply reduce_loop in Hred1 as (_ & _ & Hsome1); [|done|done].
  apply reduce_loop in Hred2 as (_ & _ & Hsome2); [|done|done].
  pose proof (Forall2_landing_length _ _ _ _ _ _ ntype Hall) as Hlen.
  rewrite Hone in Hlen. specialize (Hget ntype).
  destruct (landing ntype tagged) as [|t [|t' l]]; [done | | done].
  simpl in Hget.
  destruct (Hsome1 _ _ Hget) as (r1 & Hr1 & Hout1).
  destruct (Hsome2 _ _ Hget) as (r2 & Hr2 & Hout2).
  rewrite group_singleton in Hr1, Hr2. injection Hr1 as <-. injection Hr2 as <-.
  split; [congruence | eauto].
Qed.

End claims_forward.

Lemma toy_forward_two : forward Toy.layer_two Toy.x_two Toy.edges_two = Ok Toy.out_two.
Proof. reflexivity. Qed.

Lemma toy_forward_two_sum :
  forward (with_aggr Toy.layer_two "sum") Toy.x_two Toy.edges_two = Ok Toy.out_two.
Proof. reflexivity. Qed.

Lemma toy_forward_two_mean :
  forward (with_aggr Toy.layer_two "mean") Toy.x_two Toy.edges_two
  = Ok Toy.out_two_mean.
Proof. reflexivity. Qed.

Lemma forward_dispatch_witness :
  init Toy.cfg_two 0 = Ok (Toy.layer_two, 42)
  /\ forward Toy.layer_two Toy.x_two Toy.edges_two = Ok Toy.out_two
  /\ exists feat_dict x_src_dict x_dst_dict,
       projector Toy.layer_two Toy.x_two = Ok feat_dict
       /\ split_tensors Toy.layer_two feat_dict 1 = Ok (x_src_dict, x_dst_dict).
Proof.
  split; [exact toy_init_two |]. split; [exact toy_forward_two |].
  destruct (forward_dispatch Toy.cfg_two 0 42 Toy.layer_two Toy.x_two
              Toy.edges_two Toy.out_two toy_init_two toy_forward_two)
    as (feat & xs & xd & Hproj & Hsplit & _).
  exists feat, xs, xd. exact (conj Hproj Hsplit).
Defined.

Lemma aggr_irrelevant_for_single_relation_witness :
  forward (with_aggr Toy.layer_two "sum") Toy.x_two Toy.edges_two = Ok Toy.out_two
  /\ forward (with_aggr Toy.layer_two "mean") Toy.x_two Toy.edges_two
     = Ok Toy.out_two_mean
  /\ length (filter (fun entry : EdgeType * list (nat * nat) => dst_of entry.1 = "B")
                    Toy.edges_two) = 1
  /\ Dict.get "B" Toy.out_two = Dict.get "B" Toy.out_two_mean.
Proof.
  assert (Hone : length (filter (fun entry : EdgeType * list (nat * nat) =>
                                   dst_of entry.1 = "B") Toy.edges_two) = 1)
    by reflexivity.
  split; [exact toy_forward_two_sum |]. split; [exact toy_forward_two_mean |].
  split; [exact Hone |].
  exact (proj1 (aggr_irrelevant_for_single_relation Toy.layer_two Toy.x_two
                  Toy.edges_two "sum" "mean" Toy.out_two Toy.out_two_mean "B"
                  toy_forward_two_sum toy_forward_two_mean Hone)).
Defined.

Lemma forward_aggregates_per_destination_witness :
  forward Toy.layer_two Toy.x_two Toy.edges_two = Ok Toy.out_two
  /\ NoDup (Dict.keys Toy.out_two).
Proof.
  split; [exact toy_forward_two |].
  destruct (forward_aggregates_per_destination Toy.layer_two Toy.x_two
              Toy.edges_two Toy.out_two toy_forward_two)
    as (xs & xd & tagged & _ & _ & Hnd & _).
  exact Hnd.
Defined.

(** ** The attention vector and the generator in [reset_parameters] *)

Section generator_facts.
Context `{B : Backend}.
Implicit Types (self : Layer) (g : Generator).

Lemma view_shape_attn (h c : nat) :
  0 < h -> 0 < c -> view_shape (2 * h * c) h c = Ok (2, h, c).
Proof.
  intros Hh Hc. unfold view_shape.
  assert (Hpos : 0 < h * c) by nia.
  replace (2 * h * c) with (2 * (h * c)) by lia.
  replace (2 * (h * c) =? h * c) with false by (symmetry; apply Nat.eqb_neq; lia).
  replace (0 <? h * c) with true by (symmetry; apply Nat.ltb_lt; lia).
  rewrite Nat.Div0.mod_mul. cbn [orb andb Nat.eqb].
  replace (h * c =? 0) with false by (symmetry; apply Nat.eqb_neq; lia).
  rewrite Nat.div_mul by lia. done.
Qed.

Lemma view_shape_Ok_pos (numel h c : nat) shape :
  view_shape numel h c = Ok shape -> 0 < h /\ 0 < c.
Proof.
  unfold view_shape. destruct (_ || _); [|done].
  destruct (h * c =? 0) eqn:Hz; [done |]. apply Nat.eqb_neq in Hz. nia.
Qed.

Lemma glorot_attn_draws (a a' : list scalar) (h c : nat) g g' :
  length a = 2 * h * c ->
  glorot_attn a h c g = Ok (a', g') ->
  0 < h /\ 0 < c
  /\ view_shape (length a) h c = Ok (2, h, c)
  /\ a' = (draws (h + c) (2 * h * c) g).1
  /\ g' = (draws (h + c) (2 * h * c) g).2.
Proof.
  intros Hlen (shape & fan & Hshape & Hfan & -> & ->)%glorot_attn_inv.
  destruct (view_shape_Ok_pos _ _ _ _ Hshape) as [Hh Hc].
  rewrite Hlen in Hshape |- *. rewrite view_shape_attn in Hshape by done.
  injection Hshape as <-. cbn [fst snd] in Hfan. unfold glorot_fan in Hfan.
  destruct (h + c =? 0); [done |]. injection Hfan as <-.
  rewrite view_shape_attn by done. done.
Qed.

Lemma draws_add (fan n m : nat) g :
  draws fan (n + m) g
  = ((draws fan n g).1 ++ (draws fan m (draws fan n g).2).1,
     (draws fan m (draws fan n g).2).2).
Proof.
  revert g. induction n as [|n IH]; intros g; simpl.
  - by destruct (draws fan m g).
  - destruct (uniform fan g) as [x g1]. rewrite IH.
    destruct (draws fan n g1) as [xs g2]. simpl.
    by destruct (draws fan m g2).
Qed.

Lemma draw_rows_generator (fan nr nc : nat) g :
  (draw_rows fan nr nc g).2 = (draws fan (nr * nc) g).2.
Proof.
  revert g. induction nr as [|nr IH]; intros g; simpl; [done |].
  rewrite draws_add. simpl.
  destruct (draws fan nc g) as [r g1]. specialize (IH g1).
  destruct (draw_rows fan nr nc g1) as [rs g2]. simpl in *. done.
Qed.

Lemma advance_app (l1 l2 : list (nat * nat)) g :
  advance (l1 ++ l2) g = advance l2 (advance l1 g).
Proof. unfold advance. apply foldl_app. Qed.

Lemma glorot_view_generator (value : option View) lin lin' g g' :
  glorot_view value (lin, g) = Ok (lin', g') ->
  g' = match value with
       | Some v => (draws (v_nr v + v_nc v) (v_nr v * v_nc v) g).2
       | None => g
       end.
Proof.
  destruct value as [v|]; [|by intros [= <- <-]].
  intros (w & fan & _ & Hfan & _ & ->)%glorot_view_inv.
  unfold glorot_fan in Hfan. destruct (_ =? 0); [done |]. injection Hfan as <-.
  apply draw_rows_generator.
Qed.

(** One iteration of the loop of [reset_parameters] advances the generator
    by the fills of its edge type. *)
Lemma reset_edge_type_generator self self1 g1 self2 g2
    (ws : list (EdgeType * option View) * list (EdgeType * option View))
    (e : EdgeType) :
  layout_ok self -> same_layout self self1 -> e ∈ edge_types self ->
  (forall e, Dict.get e ws.1
             = if decide (e ∈ edge_types self)
               then Some (src_chunk self (param_views (lin_weights self)) 0
                                    (block_of self) e)
               else None) ->
  (forall e, Dict.get e ws.2
             = if decide (e ∈ edge_types self)
               then Some (dst_chunk self (param_views (lin_weights self)) 0
                                    (block_of self) e)
               else None) ->
  reset_edge_type ws.1 ws.2 (self1, g1) e = Ok (self2, g2) ->
  g2 = advance (fills_of self e) g1.
Proof.
  intros Hok Hsame He Hs Hd. unfold reset_edge_type.
  intros (vs & Hvs%item_Ok & ([lin1 ga] & Hsrc
    & ([lin2 gb] & Hdst & (a & Ha%item_Ok & ([a' gc] & Hattn
    & (b & Hb & [= _ <-])%bind_Ok_inv)%bind_Ok_inv)%bind_Ok_inv)%bind_Ok_inv)
    %bind_Ok_inv)%bind_Ok_inv.
  cbn [fst snd] in *.
  rewrite Hs, decide_True in Hvs by done. injection Hvs as <-.
  apply glorot_view_generator in Hsrc.
  assert (Hga : ga = advance
            match Dict.get (src_of e) (lin_weights self) with
            | Some w => [(block_of self + ncols w, block_of self * ncols w)]
            | None => []
            end g1).
  { rewrite Hsrc. unfold src_chunk. rewrite get_param_views.
    destruct (Dict.get (src_of e) (lin_weights self)) as [t|]; [|done].
    simpl. destruct (last_index e (srcs_of self (src_of e))) as [i|] eqn:Hi; [done |].
    apply last_index_None in Hi. exfalso. apply Hi.
    rewrite (srcs_of_rel self (ok_rel _ Hok)). by apply elem_of_src_rels. }
  assert (Hgb : gb = advance
            (if decide (src_of e <> dst_of e)
             then match Dict.get (dst_of e) (lin_weights self) with
                  | Some w => [(block_of self + ncols w, block_of self * ncols w)]
                  | None => []
                  end
             else []) ga).
  { destruct (decide (src_of e <> dst_of e)) as [Hne|Heq].
    - apply bind_Ok_inv in Hdst as (vd & Hvd%item_Ok & Hdst).
      rewrite Hd, decide_True in Hvd by done. injection Hvd as <-.
      apply glorot_view_generator in Hdst. rewrite Hdst.
      unfold dst_chunk. rewrite get_param_views.
      destruct (Dict.get (dst_of e) (lin_weights self)) as [t|]; [|done].
      simpl. destruct (last_index e (dsts_of self (dst_of e))) as [i|] eqn:Hi;
        [done |].
      apply last_index_None in Hi. exfalso. apply Hi.
      rewrite (dsts_of_rel self (ok_rel _ Hok)). by apply elem_of_dst_rels.
    - by injection Hdst as _ <-. }
  assert (Hlen : length a = 2 * num_heads self * out_channels self).
  { destruct (proj1 (ok_attn _ Hok e) He) as (a0 & Ha0 & Hlen0).
    pose proof (same_attn_lengths _ _ Hsame e) as Hl.
    rewrite Ha, Ha0 in Hl. simpl in Hl. congruence. }
  rewrite (same_num_heads _ _ Hsame), (same_out_channels _ _ Hsame) in Hattn.
  apply glorot_attn_draws in Hattn as (_ & _ & _ & _ & ->); [|done].
  unfold fills_of. rewrite !advance_app, <- Hga, <- Hgb. done.
Qed.

Lemma reset_loop_generator self
    (ws : list (EdgeType * option View) * list (EdgeType * option View))
    (l : list EdgeType) self1 g1 self' g' :
  layout_ok self -> same_layout self self1 -> lin_wf self1 ->
  (forall e, e ∈ l -> e ∈ edge_types self) ->
  (forall e, Dict.get e ws.1
             = if decide (e ∈ edge_types self)
               then Some (src_chunk self (param_views (lin_weights self)) 0
                                    (block_of self) e)
               else None) ->
  (forall e, Dict.get e ws.2
             = if decide (e ∈ edge_types self)
               then Some (dst_chunk self (param_views (lin_weights self)) 0
                                    (block_of self) e)
               else None) ->
  for_each (reset_edge_type ws.1 ws.2) l (self1, g1) = Ok (self', g') ->
  g' = advance (e ← l; fills_of self e) g1.
Proof.
  intros Hok Hsame Hwf Hl Hs Hd. revert self1 g1 Hsame Hwf.
  induction l as [|e l IH]; intros self1 g1 Hsame Hwf; cbn [for_each].
  - by intros [= _ <-].
  - intros ([self2 g2] & Hstep & Hrest)%bind_Ok_inv.
    assert (g2 = advance (fills_of self e) g1) as ->.
    { eapply reset_edge_type_generator;
        [exact Hok | exact Hsame | apply Hl; left | exact Hs | exact Hd
        | exact Hstep]. }
    apply reset_edge_type_layout in Hstep as [Hsame' Hwf'].
    + rewrite bind_cons, advance_app.
      eapply IH; [| |by apply Hwf' | exact Hrest].
      * intros e' He'. apply Hl. by right.
      * by eapply same_layout_trans.
    + intros v Hv. rewrite Hs, decide_True in Hv by (apply Hl; left).
      injection Hv as Hv. apply src_chunk_view in Hv as (i & t & _ & Ht & ->).
      eapply view_fits_shapes; [apply Hsame |].
      exists t. split; [done | simpl; lia].
    + intros v Hv. rewrite Hd, decide_True in Hv by (apply Hl; left).
      injection Hv as Hv. apply dst_chunk_view in Hv as (j & t & _ & Ht & ->).
      eapply view_fits_shapes; [apply Hsame |].
      exists t. split; [done | simpl; lia].
Qed.

Lemma reset_parameters_generator self (seed : option Z) g self' g' :
  layout_ok self ->
  reset_parameters self seed g = Ok (self', g') ->
  g' = advance (draw_schedule self)
               match seed with
               | Some s => manual_seed s
               | None => g
               end.
Proof.
  intros Hok. unfold reset_parameters.
  intros (ws & Hsplit & Hloop)%bind_Ok_inv.
  destruct (reset_views _ _ Hok Hsplit) as (_ & Hs & Hd).
  eapply reset_loop_generator; [exact Hok | apply same_layout_refl
    | by apply layout_ok_lin_wf | done | exact Hs | exact Hd | exact Hloop].
Qed.

End generator_facts.

Section claims_reset.
Context `{B : Backend}.
Implicit Types (self : Layer) (g : Generator).


(** C10.  [reset_parameters] on a constructed layer leaves the generator
    of the process where the draws of the layer take it from the seeded
    state [manual_seed(seed)] when a seed is given, whatever its state
    before the call, and from its state before the call when the seed is
    [None]: all later draws of the process start from there. *)
Theorem reset_parameters_generator_state (cfg : Config) (g0 g1 : Generator) self
    (seed : option Z) g self' g' :
  init cfg g0 = Ok (self, g1) ->
  reset_parameters self seed g = Ok (self', g') ->
  g' = match seed with
       | Some s => advance (draw_schedule self) (manual_seed s)
       | None => advance (draw_schedule self) g
       end
  /\ forall s ga gb,
       reset_parameters self (Some s) ga = reset_parameters self (Some s) gb.
Proof.
  intros (Hok & _ & _)%init_layout Hreset. split; [|done].
  rewrite (reset_parameters_generator _ _ _ _ _ Hok Hreset). by destruct seed.
Qed.

End claims_reset.



Lemma toy_reset_two :
  reset_parameters Toy.layer_two (Some 7%Z) 5 = Ok (Toy.reset_two.1, Toy.reset_two.2).
Proof. reflexivity. Qed.


Lemma reset_parameters_generator_state_witness :
  init Toy.cfg_two 0 = Ok (Toy.layer_two, 42)
  /\ reset_parameters Toy.layer_two (Some 7%Z) 5
     = Ok (Toy.reset_two.1, Toy.reset_two.2)
  /\ (Toy.reset_two.2 : @Generator Toy.backend)
     = advance (draw_schedule Toy.layer_two) (manual_seed 7).
Proof.
  split; [exact toy_init_two |]. split; [exact toy_reset_two |].
  exact (proj1 (reset_parameters_generator_state Toy.cfg_two 0 42 Toy.layer_two
                  (Some 7%Z) 5 Toy.reset_two.1 Toy.reset_two.2
                  toy_init_two toy_reset_two)).
Defined.

(** * Further properties of the code *)

(** ** When the allocation returns *)




Section allocate_total.
Context `{B : Backend}.






End allocate_total.

(** ** When [reset_parameters] and the construction return *)

Section reset_total.
Context `{B : Backend}.
Implicit Types (self : Layer) (g : Generator).







End reset_total.

Section construction_total.
Context `{B : Backend}.
Implicit Types (self : Layer) (g : Generator).




End construction_total.

(** ** The biases *)

Section bias_facts.
Context `{B : Backend}.
Implicit Types (self : Layer) (g : Generator).

Lemma zeros_zeros (x : list scalar) : zeros (zeros x) = zeros x.
Proof. unfold zeros. by rewrite length_replicate. Qed.

Lemma reset_edge_type_bias (w_src w_dst : list (EdgeType * option View))
    self1 g1 self2 g2 (e : EdgeType) :
  reset_edge_type w_src w_dst (self1, g1) e = Ok (self2, g2) ->
  match bias self1, bias self2 with
  | Some bs1, Some bs2 =>
      forall k, Dict.get k bs2
                = (fun x => if decide (k = e) then zeros x else x) <$> Dict.get k bs1
  | None, None => True
  | _, _ => False
  end.
Proof.
  unfold reset_edge_type.
  intros (vs & _ & (lg1 & _ & (lg2 & _ & (a & _ & (ag & _
    & (b & Hb & [= <- _])%bind_Ok_inv)%bind_Ok_inv)%bind_Ok_inv)%bind_Ok_inv)
    %bind_Ok_inv)%bind_Ok_inv.
  unfold set_params. cbn [bias].
  destruct (bias self1) as [bs1|]; [|by injection Hb as <-].
  apply bind_Ok_inv in Hb as (x & Hx%item_Ok & [= <-]).
  intros k. rewrite get_set. destruct (decide (e = k)) as [<-|Hne].
  - rewrite Hx. simpl. by rewrite decide_True.
  - destruct (Dict.get k bs1); simpl; [|done]. by rewrite decide_False.
Qed.

Lemma reset_loop_bias (w_src w_dst : list (EdgeType * option View))
    (l : list EdgeType) self1 g1 self2 g2 :
  for_each (reset_edge_type w_src w_dst) l (self1, g1) = Ok (self2, g2) ->
  match bias self1, bias self2 with
  | Some bs1, Some bs2 =>
      forall k, Dict.get k bs2
                = (fun x => if decide (k ∈ l) then zeros x else x) <$> Dict.get k bs1
  | None, None => True
  | _, _ => False
  end.
Proof.
  revert self1 g1. induction l as [|e l IH]; intros self1 g1; cbn [for_each].
  - intros [= <- _]. destruct (bias self1) as [bs1|]; [|done].
    intros k. by destruct (Dict.get k bs1).
  - intros ([self' g'] & Hstep%reset_edge_type_bias & Hrest%IH)%bind_Ok_inv.
    destruct (bias self1) as [bs1|], (bias self') as [bs'|],
             (bias self2) as [bs2|]; try done.
    intros k. rewrite Hrest, Hstep.
    destruct (Dict.get k bs1) as [x|]; simpl; [|done]. f_equal.
    destruct (decide (k = e)) as [->|Hne].
    + rewrite (decide_True (P:=e ∈ e :: l)) by left.
      case_decide; [apply zeros_zeros | done].
    + destruct (decide (k ∈ l)) as [Hin|Hnin].
      * rewrite decide_True; [done | by right].
      * rewrite decide_False; [done |]. rewrite elem_of_cons. naive_solver.
Qed.

Lemma allocate_bias (cfg : Config) self :
  allocate cfg = Ok self ->
  match bias self with
  | Some bs =>
      cfg_bias cfg = true
      /\ forall e, e ∈ cfg_edge_types cfg ->
           Dict.get e bs
           = Some (torch_empty1 (if cfg_concat cfg
                                 then cfg_heads cfg * cfg_out_channels cfg
                                 else cfg_out_channels cfg))
  | None => cfg_bias cfg = false
  end.
Proof.
  unfold allocate. destruct (version_lt pyg_version (2, 4, 0)); [done |].
  pose proof (register_edge_types cfg (cfg_edge_types cfg) []
                (Dict.fromkeys (cfg_edge_types cfg) None)
                (Dict.fromkeys (cfg_edge_types cfg) None)) as Hreg.
  cbv zeta in Hreg.
  destruct (foldl _ _ _) as [[rel attn] biases]. cbn [fst snd] in Hreg.
  destruct Hreg as (_ & _ & Hbias).
  intros (lin & _ & (lin' & _ & (attn' & _ & (b & Hb & [= <-])%bind_Ok_inv)
    %bind_Ok_inv)%bind_Ok_inv)%bind_Ok_inv.
  cbn [bias]. destruct (cfg_bias cfg); [|by injection Hb as <-].
  apply bind_Ok_inv in Hb as (bs & Hbs%all_assigned_inv & [= <-]).
  split; [done |]. intros e He. specialize (Hbias e).
  rewrite Hbs, get_fmap_Some, decide_True in Hbias by done.
  destruct (Dict.get e bs) as [x|]; [|done].
  destruct (cfg_concat cfg); by injection Hbias as ->.
Qed.

(** X4.  After the construction every edge type has an attention vector
    of length [2 * heads * out_channels]; with [bias=False] the layer has
    no bias ([self.bias] is [None]); with [bias=True] every edge type has a
    bias vector that is all zeros, of length [heads * out_channels] when
    the heads are concatenated and [out_channels] otherwise. *)
Theorem init_attention_and_bias (cfg : Config) (g g' : Generator) self :
  init cfg g = Ok (self, g') ->
  (forall e, e ∈ cfg_edge_types cfg ->
     exists a, Dict.get e (attn_weights self) = Some a
               /\ length a = 2 * cfg_heads cfg * cfg_out_channels cfg)
  /\ match bias self with
     | Some bs =>
         cfg_bias cfg = true
         /\ forall e, e ∈ cfg_edge_types cfg ->
              Dict.get e bs
              = Some (replicate (if cfg_concat cfg
                                 then cfg_heads cfg * cfg_out_channels cfg
                                 else cfg_out_channels cfg) scalar_zero)
     | None => cfg_bias cfg = false
     end.
Proof.
  intros Hinit. pose proof Hinit as (Hok & _ & _)%init_layout.
  unfold init in Hinit. apply bind_Ok_inv in Hinit as (self0 & Halloc & Hreset).
  destruct (allocate_fields _ _ Halloc) as (_ & Hets & Hh & Hc & _).
  pose proof (allocate_layout_ok _ _ Halloc) as Hok0.
  destruct (reset_parameters_layout _ _ _ _ _ Hok0 Hreset) as (Hsame & _ & _).
  split.
  - intros e He. rewrite <- Hh, <- Hc.
    rewrite <- (same_num_heads _ _ Hsame), <- (same_out_channels _ _ Hsame).
    apply (ok_attn _ Hok).
    by rewrite (same_edge_types _ _ Hsame), Hets.
  - pose proof (allocate_bias _ _ Halloc) as Hb0.
    unfold reset_parameters in Hreset.
    apply bind_Ok_inv in Hreset as (ws & _ & Hloop%reset_loop_bias).
    destruct (bias self0) as [bs0|], (bias self) as [bs|]; try done.
    destruct Hb0 as [Hflag Hb0]. split; [done |].
    intros e He. rewrite Hloop, (Hb0 e He). simpl.
    rewrite decide_True by (by rewrite Hets).
    unfold zeros, torch_empty1. by rewrite length_replicate.
Qed.

(** X5.  On a layer constructed with [bias=False], the output of a
    relation in [forward] is the tensor that [mha_gat_n2n] returned,
    itself: nothing is added to it. *)
Theorem relation_output_without_bias (cfg : Config) (g g' : Generator) self
    (x_dict : list (string * Tensor scalar))
    (x_src_dict x_dst_dict : list (EdgeType * option (Tensor scalar)))
    (e : EdgeType) (edge_index : EdgeIndex) (out : Tensor scalar) :
  init cfg g = Ok (self, g') ->
  cfg_bias cfg = false ->
  relation_output self x_dict x_src_dict x_dst_dict e edge_index = Ok out ->
  exists feat a graph,
    Dict.get e (attn_weights self) = Some a
    /\ mha_gat_n2n feat a graph (num_heads self) "LeakyReLU" (negative_slope self)
                   (concat_heads self) = Ok out.
Proof.
  intros Hinit Hflag Hrel.
  destruct (init_layout _ _ _ _ Hinit) as (_ & _ & self0 & Halloc & Hsame).
  assert (Hnone : bias self = None).
  { pose proof (allocate_bias _ _ Halloc) as Hb0.
    pose proof (same_bias _ _ Hsame) as Hb.
    destruct (bias self0) as [bs0|]; [destruct Hb0; congruence |].
    by destruct (bias self). }
  unfold relation_output in Hrel. rewrite Hnone in Hrel.
  apply bind_Ok_inv in Hrel as (xs & _ & Hrel).
  apply bind_Ok_inv in Hrel as (xd & _ & Hrel).
  apply bind_Ok_inv in Hrel as (csc & _ & Hrel).
  apply bind_Ok_inv in Hrel as (o & Ho & [= <-]).
  destruct (decide (src_of e = dst_of e)).
  - apply bind_Ok_inv in Ho as (graph & _ & Ho).
    apply bind_Ok_inv in Ho as (f & _ & Ho).
    apply bind_Ok_inv in Ho as (a & Ha%item_Ok & Ho). eauto.
  - apply bind_Ok_inv in Ho as (graph & _ & Ho).
    apply bind_Ok_inv in Ho as (fs & _ & Ho).
    apply bind_Ok_inv in Ho as (fd & _ & Ho).
    apply bind_Ok_inv in Ho as (a & Ha%item_Ok & Ho). eauto.
Qed.

End bias_facts.

(** ** What [forward] requires and returns *)

Lemma for_each_Ok_each {A S : Type} (body : S -> A -> result S) (xs : list A)
    (acc acc' : S) (x : A) :
  for_each body xs acc = Ok acc' -> x ∈ xs -> exists s s', body s x = Ok s'.
Proof.
  revert acc. induction xs as [|y xs IH]; intros acc; cbn [for_each].
  - intros _ ?%elem_of_nil. done.
  - intros (s & Hy & Hrest)%bind_Ok_inv [->|Hin]%elem_of_cons; [eauto |].
    by eapply IH.
Qed.

Section forward_inputs.
Context `{B : Backend}.
Implicit Types (self : Layer) (x_dict : list (string * Tensor scalar)).

(** X6.  A [forward] that returns on a constructed layer was given only
    declared node types, each with features as wide as its [in_channels],
    and only edge types of the layer whose source and destination types
    are both keys of [x_dict]. *)
Theorem forward_requirements (cfg : Config) (g g' : Generator) self x_dict
    (edge_index_dict : list (EdgeType * EdgeIndex)) out :
  init cfg g = Ok (self, g') ->
  forward self x_dict edge_index_dict = Ok out ->
  (forall ntype x, (ntype, x) ∈ x_dict ->
     ntype ∈ node_types self
     /\ Dict.get ntype (in_channels self) = Some (ncols x))
  /\ (forall e edge_index, (e, edge_index) ∈ edge_index_dict ->
        e ∈ edge_types self
        /\ src_of e ∈ Dict.keys x_dict /\ dst_of e ∈ Dict.keys x_dict).
Proof.
  intros (Hok & _ & _)%init_layout
         (feat & xs & xd & od & Hproj & Hsplit & Hdisp & _)%forward_Ok_inv.
  split.
  - intros ntype x Hin. unfold projector in Hproj.
    apply bind_Ok_inv in Hproj as (d & Hloop & _).
    destruct (for_each_Ok_each _ _ _ _ _ Hloop Hin) as (s & s' & Hone).
    unfold project in Hone.
    apply bind_Ok_inv in Hone as (w & Hw%item_Ok & (y & Hy & _)%bind_Ok_inv).
    apply matmul_T_shape in Hy as (_ & _ & Hc).
    destruct (ok_lin_shape _ Hok _ _ Hw) as (_ & _ & Hin_ch). split.
    + apply Hok, get_Some_keys. eauto.
    + by rewrite Hc.
  - intros e idx Hin.
    destruct (for_each_Ok_each _ _ _ _ _ Hdisp Hin) as (s & s' & Hone).
    unfold dispatch in Hone. apply bind_Ok_inv in Hone as (o & Ho & _).
    unfold relation_output in Ho.
    apply bind_Ok_inv in Ho as (x_s & Hxs%item_Ok & Ho).
    apply bind_Ok_inv in Ho as (x_d & Hxd%item_Ok & Ho).
    apply bind_Ok_inv in Ho as (csc & _ & Ho).
    apply bind_Ok_inv in Ho as (o' & Ho & _).
    assert (Hkey : e ∈ Dict.keys xs).
    { destruct (decide (src_of e = dst_of e)).
      - apply bind_Ok_inv in Ho as (graph & _ & Ho).
        apply bind_Ok_inv in Ho as (f & Hf%item_Ok & _).
        apply get_Some_keys. eauto.
      - apply bind_Ok_inv in Ho as (graph & _ & Ho).
        apply bind_Ok_inv in Ho as (f & Hf%item_Ok & _).
        apply get_Some_keys. eauto. }
    unfold split_tensors in Hsplit.
    destruct (split_loop_frame self 1 (ok_rel _ Hok) _ _ _ _ _ Hsplit)
      as (_ & _ & Hks & _).
    apply Hks in Hkey. rewrite elem_of_keys_fromkeys in Hkey.
    split_and!.
    + naive_solver.
    + apply get_Some_keys. eauto.
    + apply get_Some_keys. eauto.
Qed.



(** X9.  With an empty [edge_index_dict], [forward] on a constructed layer
    returns the empty dict as soon as the projections of [x_dict] go
    through. *)
Theorem forward_no_edges (cfg : Config) (g g' : Generator) self x_dict
    (feat_dict : list (string * Tensor scalar)) :
  init cfg g = Ok (self, g') ->
  projector self x_dict = Ok feat_dict ->
  forward self x_dict [] = Ok [].
Proof.
  intros Hinit Hproj.
  destruct (constructed_split _ _ _ _ _ _ Hinit Hproj) as (xs & xd & Hsplit & _).
  unfold forward. rewrite Hproj. cbn [bind]. rewrite Hsplit. done.
Qed.

Lemma dispatch_loop_keys self x_dict x_src_dict x_dst_dict
    (edge_index_dict : list (EdgeType * EdgeIndex))
    (acc out_dict : list (string * list (Tensor scalar))) :
  for_each (dispatch self x_dict x_src_dict x_dst_dict) edge_index_dict acc
  = Ok out_dict ->
  Dict.keys out_dict
  = foldl (fun seen k => if decide (k ∈ seen) then seen else seen ++ [k])
          (Dict.keys acc) (dst_of <$> edge_index_dict.*1).
Proof.
  revert acc. induction edge_index_dict as [|[e idx] ei IH]; intros acc;
    cbn [for_each].
  - by intros [= <-].
  - intros (acc1 & Hone & Hrest)%bind_Ok_inv. unfold dispatch in Hone.
    apply bind_Ok_inv in Hone as (o & _ & [= <-]).
    rewrite (IH _ Hrest), keys_set. done.
Qed.

(** X10.  The result of [forward] lists the destination node types of the
    entries of [edge_index_dict], each once, in the order of their first
    appearance. *)
Theorem forward_keys_in_order self x_dict
    (edge_index_dict : list (EdgeType * EdgeIndex)) out :
  forward self x_dict edge_index_dict = Ok out ->
  Dict.keys out = in_order_of_appearance (dst_of <$> edge_index_dict.*1).
Proof.
  intros (feat & xs & xd & od & _ & _ & Hdisp & Hred)%forward_Ok_inv.
  pose proof (dispatch_loop_keys _ _ _ _ _ _ _ Hdisp) as Hkeys.
  apply dispatch_loop in Hdisp as (tagged & _ & _ & Hnd).
  specialize (Hnd (NoDup_nil_2 (A:=string))).
  apply reduce_loop in Hred as (Hout & _ & _); [|done|].
  2:{ intros k _ Hk. unfold Dict.keys in Hk. by apply elem_of_nil in Hk. }
  by rewrite Hout, Hkeys.
Qed.

End forward_inputs.

(** ** A fused tensor shorter than the relation count *)

Lemma chunk_ranges_short (d k : nat) :
  0 < d -> d < k -> length (chunk_ranges d k) = d.
Proof.
  intros Hd Hk. unfold chunk_ranges.
  assert (Hsplit : (d + k - 1) / k = 1).
  { replace (d + k - 1) with (1 * k + (d - 1)) by lia.
    rewrite Nat.div_add_l by lia. rewrite Nat.div_small by lia. done. }
  rewrite Hsplit. cbn [Nat.eqb andb]. unfold split_ranges. cbn [Nat.eqb].
  rewrite length_fmap, length_seq.
  replace (d + 1 - 1) with d by lia. rewrite Nat.div_1_r. lia.
Qed.

Section short_tensor.
Context `{B : Backend} {T : Type} `{TL : TensorLike T}.

(** X8.  [split_tensors] does not check that the split dimension is a
    multiple of the relation count.  When the first fused tensor has a
    non-empty split dimension shorter than the number of relations incident
    to its node type, [torch.chunk] returns fewer chunks than relations
    and [split_tensors] raises [IndexError]. *)
Theorem split_tensors_short_raises (self : Layer) (ntype : string) (t : T)
    (rest : list (string * T)) (dim : Z) (d : nat) :
  size t dim = Ok d -> 0 < d -> d < n_rel_of self ntype ->
  split_tensors self ((ntype, t) :: rest) dim = Raise IndexError.
Proof.
  intros Hsize Hd Hlt. unfold split_tensors. cbn [for_each].
  assert (Hone : forall dicts, split_one self dim dicts (ntype, t) = Raise IndexError);
    [|by rewrite Hone].
  intros [xs xd]. unfold split_one.
  fold (srcs_of self ntype) (dsts_of self ntype) (n_rel_of self ntype).
  unfold torch_chunk.
  replace (n_rel_of self ntype =? 0) with false
    by (symmetry; apply Nat.eqb_neq; lia).
  rewrite Hsize. cbn [bind].
  set (t_list := (fun '(start, len) => narrow t dim start len)
                   <$> chunk_ranges d (n_rel_of self ntype)).
  assert (Hlen : length t_list = d).
  { unfold t_list. rewrite length_fmap. by apply chunk_ranges_short. }
  rewrite (for_each_ext _
    (fun d '(i, k) => c <- getitem t_list (i + 0) ;; Ok (Dict.set k (Some c) d))).
  2:{ intros s [i k]. by rewrite Nat.add_0_r. }
  unfold enumerate.
  destruct (decide (length (srcs_of self ntype) <= d)) as [Hsrc|Hsrc].
  - rewrite for_each_getitem by lia. cbn [bind].
    rewrite for_each_getitem_short; [done | unfold n_rel_of in Hlt; lia |].
    intros Hnil. unfold n_rel_of in Hlt. rewrite Hnil in Hlt. simpl in Hlt. lia.
  - rewrite for_each_getitem_short; [done | lia |].
    intros Hnil. rewrite Hnil in Hsrc. simpl in Hsrc. lia.
Qed.

End short_tensor.

(** ** The further properties on the small backend *)




Lemma init_attention_and_bias_witness :
  init Toy.cfg_two 0 = Ok (Toy.layer_two, 42)
  /\ forall e, e ∈ cfg_edge_types Toy.cfg_two ->
       exists a, Dict.get e (attn_weights Toy.layer_two) = Some a
                 /\ length a = 2 * cfg_heads Toy.cfg_two * cfg_out_channels Toy.cfg_two.
Proof.
  split; [exact toy_init_two |].
  exact (proj1 (init_attention_and_bias Toy.cfg_two 0 42 Toy.layer_two toy_init_two)).
Defined.

Lemma toy_init_nobias :
  init Toy.cfg_nobias 0 = Ok (Toy.layer_nobias, Toy.generator_nobias).
Proof. reflexivity. Qed.

Lemma toy_relation_nobias :
  relation_output Toy.layer_nobias Toy.x_two
    [(("A", "r1", "B"), Some (mkTensor 2 2 [[1; 2]; [3; 4]]%Z))]
    [(("A", "r1", "B"), Some (mkTensor 1 2 [[5; 6]]%Z))]
    ("A", "r1", "B") [(0, 0)]
  = Ok Toy.relation_nobias.
Proof. reflexivity. Qed.

Lemma relation_output_without_bias_witness :
  init Toy.cfg_nobias 0 = Ok (Toy.layer_nobias, Toy.generator_nobias)
  /\ cfg_bias Toy.cfg_nobias = false
  /\ exists feat a graph,
       Dict.get ("A", "r1", "B") (attn_weights Toy.layer_nobias) = Some a
       /\ mha_gat_n2n feat a graph (num_heads Toy.layer_nobias) "LeakyReLU"
            (negative_slope Toy.layer_nobias) (concat_heads Toy.layer_nobias)
          = Ok Toy.relation_nobias.
Proof.
  split; [exact toy_init_nobias |]. split; [reflexivity |].
  exact (relation_output_without_bias Toy.cfg_nobias 0 Toy.generator_nobias
           Toy.layer_nobias Toy.x_two _ _ ("A", "r1", "B") [(0, 0)]
           Toy.relation_nobias toy_init_nobias eq_refl toy_relation_nobias).
Defined.

Lemma forward_requirements_witness :
  init Toy.cfg_two 0 = Ok (Toy.layer_two, 42)
  /\ forward Toy.layer_two Toy.x_two Toy.edges_two = Ok Toy.out_two
  /\ forall e edge_index, (e, edge_index) ∈ Toy.edges_two ->
       e ∈ edge_types Toy.layer_two
       /\ src_of e ∈ Dict.keys Toy.x_two /\ dst_of e ∈ Dict.keys Toy.x_two.
Proof.
  split; [exact toy_init_two |]. split; [exact toy_forward_two |].
  exact (proj2 (forward_requirements Toy.cfg_two 0 42 Toy.layer_two Toy.x_two
                  Toy.edges_two Toy.out_two toy_init_two toy_forward_two)).
Defined.



Lemma split_tensors_short_raises_witness :
  size (mkTensor 1 2 [[1; 2]]%Z) 1 = Ok 2
  /\ 2 < n_rel_of Toy.layer_two "A"
  /\ split_tensors Toy.layer_two [("A", mkTensor 1 2 [[1; 2]]%Z)] 1
     = Raise IndexError.
Proof.
  assert (Hlt : 2 < n_rel_of Toy.layer_two "A") by (apply Nat.ltb_lt; reflexivity).
  split; [reflexivity |]. split; [exact Hlt |].
  exact (split_tensors_short_raises Toy.layer_two "A" (mkTensor 1 2 [[1; 2]]%Z)
           [] 1 2 eq_refl (Nat.lt_0_succ 1) Hlt).
Defined.

Lemma forward_no_edges_witness :
  init Toy.cfg_two 0 = Ok (Toy.layer_two, 42)
  /\ projector Toy.layer_two Toy.x_two = Ok Toy.feat_two
  /\ forward Toy.layer_two Toy.x_two [] = Ok [].
Proof.
  split; [exact toy_init_two |]. split; [exact toy_projector_two |].
  exact (forward_no_edges Toy.cfg_two 0 42 Toy.layer_two Toy.x_two Toy.feat_two
           toy_init_two toy_projector_two).
Defined.

Lemma forward_keys_in_order_witness :
  forward Toy.layer_two Toy.x_two Toy.edges_two = Ok Toy.out_two
  /\ Dict.keys Toy.out_two
     = in_order_of_appearance (dst_of <$> Toy.edges_two.*1).
Proof.
  split; [exact toy_forward_two |].
  exact (forward_keys_in_order Toy.layer_two Toy.x_two Toy.edges_two Toy.out_two
           toy_forward_two).
Defined.

(** ** Re-initialization with a seed *)

Section write_block_facts.
Context `{B : Backend}.

Lemma lookup_write_block_outside (w : Tensor scalar) (v : View)
    (blk : list (list scalar)) (p : nat) :
  wf_tensor w -> length blk = v_nr v -> v_r0 v + v_nr v <= nrows w ->
  p < v_r0 v \/ v_r0 v + v_nr v <= p ->
  rows (write_block w v blk) !! p = rows w !! p.
Proof.
  intros [Hlen _] Hblk Hfit Hp. unfold write_block. cbn [rows].
  assert (Hzip : length (zip_with
                   (fun old new => take (v_c0 v) old ++ new ++ drop (v_c0 v + v_nc v) old)
                   (take (v_nr v) (drop (v_r0 v) (rows w))) blk) = v_nr v).
  { rewrite length_zip_with, length_take, length_drop. lia. }
  destruct Hp as [Hp|Hp].
  - rewrite lookup_app_l by (rewrite length_take; lia).
    by apply lookup_take_lt.
  - rewrite lookup_app_r by (rewrite length_take; lia).
    rewrite lookup_app_r by (rewrite length_take, Hzip; lia).
    rewrite lookup_drop, length_take, Hzip. f_equal. lia.
Qed.

Lemma lookup_write_block_inside (w : Tensor scalar) (v : View)
    (blk : list (list scalar)) (p : nat) :
  wf_tensor w -> length blk = v_nr v -> v_r0 v + v_nr v <= nrows w ->
  v_c0 v = 0 -> v_nc v = ncols w ->
  Forall (fun r => length r = v_nc v) blk ->
  v_r0 v <= p < v_r0 v + v_nr v ->
  rows (write_block w v blk) !! p = blk !! (p - v_r0 v).
Proof.
  intros [Hlen Hrows] Hblk Hfit Hc0 Hnc Hcols Hp. unfold write_block. cbn [rows].
  rewrite lookup_app_r by (rewrite length_take; lia).
  rewrite length_take. replace (v_r0 v `min` length (rows w)) with (v_r0 v) by lia.
  rewrite lookup_app_l.
  2:{ rewrite length_zip_with, length_take, length_drop. lia. }
  rewrite lookup_zip_with.
  destruct (lookup_lt_is_Some_2 (take (v_nr v) (drop (v_r0 v) (rows w)))
              (p - v_r0 v)) as [old Hold].
  { rewrite length_take, length_drop. lia. }
  destruct (lookup_lt_is_Some_2 blk (p - v_r0 v)) as [new Hnew]; [lia |].
  rewrite Hold, Hnew. simpl. f_equal.
  assert (Hlold : length old = ncols w).
  { apply lookup_take_Some in Hold as [Hold _]. rewrite lookup_drop in Hold.
    by eapply (Forall_lookup_1 _ _ _ _ Hrows). }
  rewrite Hc0. simpl. rewrite Hnc. rewrite drop_ge by lia. by rewrite app_nil_r.
Qed.

(** Two stores of the same shapes, the same view, the same generator state:
    [glorot] writes the same rows in both and leaves the same generator. *)
Lemma glorot_view_lockstep (value : option View) (P : string -> nat -> Prop)
    lin_a lin_b (g : Generator) lin_a' g_a lin_b' g_b :
  glorot_view value (lin_a, g) = Ok (lin_a', g_a) ->
  glorot_view value (lin_b, g) = Ok (lin_b', g_b) ->
  (forall k w, Dict.get k lin_a = Some w -> wf_tensor w) ->
  (forall k w, Dict.get k lin_b = Some w -> wf_tensor w) ->
  (forall v w, value = Some v ->
     Dict.get (v_key v) lin_a = Some w \/ Dict.get (v_key v) lin_b = Some w ->
     v_c0 v = 0 /\ v_nc v = ncols w /\ v_r0 v + v_nr v <= nrows w) ->
  agree_rows P lin_a lin_b ->
  g_a = g_b
  /\ agree_rows (fun ntype p =>
                   P ntype p
                   \/ exists v, value = Some v /\ ntype = v_key v
                                /\ v_r0 v <= p < v_r0 v + v_nr v)
                lin_a' lin_b'.
Proof.
  destruct value as [v|].
  2:{ intros [= <- <-] [= <- <-] _ _ _ Hagree. split; [done |].
      intros ntype p wa wb [HP|(v & ? & _)]; [by apply Hagree | done]. }
  intros (wa & fan & Hwa & Hfan & -> & ->)%glorot_view_inv
         (wb & fan' & Hwb & Hfan' & -> & ->)%glorot_view_inv Hwfa Hwfb Hfit Hagree.
  rewrite Hfan in Hfan'. injection Hfan' as <-. split; [done |].
  destruct (draw_rows_shape fan (v_nr v) (v_nc v) g) as [Hblk Hcols].
  destruct (Hfit v wa eq_refl (or_introl Hwa)) as (Hc0 & Hnca & Hfa).
  destruct (Hfit v wb eq_refl (or_intror Hwb)) as (_ & Hncb & Hfb).
  intros ntype p wa' wb' HP. rewrite !get_set.
  destruct (decide (v_key v = ntype)) as [<-|Hne].
  - intros [= <-] [= <-].
    destruct (decide (v_r0 v <= p < v_r0 v + v_nr v)) as [Hin|Hout].
    + rewrite !lookup_write_block_inside; eauto.
    + rewrite !lookup_write_block_outside; eauto; [|lia|lia].
      destruct HP as [HP|(v' & [= <-] & _ & ?)]; [|lia]. by eapply Hagree.
  - intros Ha Hb. destruct HP as [HP|(v' & [= <-] & ? & _)]; [|done].
    by eapply Hagree.
Qed.

End write_block_facts.

Section lockstep.
Context `{B : Backend}.
Implicit Types (self : Layer) (g : Generator).

Lemma src_chunk_same_layout self self' (e : EdgeType) :
  same_layout self self' ->
  src_chunk self' (param_views (lin_weights self')) 0 (block_of self') e
  = src_chunk self (param_views (lin_weights self)) 0 (block_of self) e.
Proof.
  intros Hsame. unfold src_chunk, srcs_of, block_of.
  rewrite (same_relations _ _ Hsame), (same_num_heads _ _ Hsame),
    (same_out_channels _ _ Hsame), !get_param_views.
  pose proof (get_shapes_of (lin_weights self') (src_of e)) as Hsh.
  rewrite (same_lin_shapes _ _ Hsame), get_shapes_of in Hsh.
  destruct (Dict.get (src_of e) (lin_weights self')) as [w'|],
           (Dict.get (src_of e) (lin_weights self)) as [w|]; try done.
  simpl in *. injection Hsh as <- <-. done.
Qed.

Lemma dst_chunk_same_layout self self' (e : EdgeType) :
  same_layout self self' ->
  dst_chunk self' (param_views (lin_weights self')) 0 (block_of self') e
  = dst_chunk self (param_views (lin_weights self)) 0 (block_of self) e.
Proof.
  intros Hsame. unfold dst_chunk, dsts_of, srcs_of, block_of.
  rewrite (same_relations _ _ Hsame), (same_num_heads _ _ Hsame),
    (same_out_channels _ _ Hsame), !get_param_views.
  pose proof (get_shapes_of (lin_weights self') (dst_of e)) as Hsh.
  rewrite (same_lin_shapes _ _ Hsame), get_shapes_of in Hsh.
  destruct (Dict.get (dst_of e) (lin_weights self')) as [w'|],
           (Dict.get (dst_of e) (lin_weights self)) as [w|]; try done.
  simpl in *. injection Hsh as <- <-. done.
Qed.

(** A view that [split_tensors] made of the weights of [self] lies within
    any tensor of the same shape. *)
Lemma src_chunk_fits self (e : EdgeType) (v : View) lin (w : Tensor scalar) :
  layout_ok self -> shapes_of lin = shapes_of (lin_weights self) ->
  src_chunk self (param_views (lin_weights self)) 0 (block_of self) e = Some v ->
  Dict.get (v_key v) lin = Some w ->
  v_c0 v = 0 /\ v_nc v = ncols w /\ v_r0 v + v_nr v <= nrows w.
Proof.
  intros Hok Hsh (i & t & Hi & Ht & ->)%src_chunk_view Hw. cbn in *.
  destruct (shapes_of_get _ _ _ _ Hsh Ht) as (w' & Hw' & Hr & Hc).
  rewrite Hw in Hw'. injection Hw' as <-.
  destruct (ok_lin_shape _ Hok _ _ Ht) as (_ & Hrows & _).
  apply last_index_Some in Hi as [Hi%lookup_lt_Some _].
  split_and!; [done | done |]. rewrite Hr, Hrows. unfold n_rel_of, block_of. nia.
Qed.

Lemma dst_chunk_fits self (e : EdgeType) (v : View) lin (w : Tensor scalar) :
  layout_ok self -> shapes_of lin = shapes_of (lin_weights self) ->
  dst_chunk self (param_views (lin_weights self)) 0 (block_of self) e = Some v ->
  Dict.get (v_key v) lin = Some w ->
  v_c0 v = 0 /\ v_nc v = ncols w /\ v_r0 v + v_nr v <= nrows w.
Proof.
  intros Hok Hsh (j & t & Hj & Ht & ->)%dst_chunk_view Hw. cbn in *.
  destruct (shapes_of_get _ _ _ _ Hsh Ht) as (w' & Hw' & Hr & Hc).
  rewrite Hw in Hw'. injection Hw' as <-.
  destruct (ok_lin_shape _ Hok _ _ Ht) as (_ & Hrows & _).
  apply last_index_Some in Hj as [Hj%lookup_lt_Some _].
  split_and!; [done | done |]. rewrite Hr, Hrows. unfold n_rel_of, block_of. nia.
Qed.

Lemma agree_rows_impl {R : Type} (P Q : string -> nat -> Prop)
    (lin_a lin_b : list (string * Tensor R)) :
  (forall ntype p, Q ntype p -> P ntype p) ->
  agree_rows P lin_a lin_b -> agree_rows Q lin_a lin_b.
Proof. intros HQ Hag ntype p wa wb Hp. apply Hag. by apply HQ. Qed.

(** One iteration of the loop of [reset_parameters], run from the same
    generator state on two states of one layer: the generator ends in the
    same state, the two stores agree on the rows written, and the attention
    and bias vectors of the edge type are the same. *)
Lemma reset_edge_type_lockstep self a1 b1 g a2 ga b2 gb
    (wsa wsb : list (EdgeType * option View) * list (EdgeType * option View))
    (P : string -> nat -> Prop) (e : EdgeType) :
  layout_ok self -> same_layout self a1 -> same_layout self b1 ->
  lin_wf a1 -> lin_wf b1 -> e ∈ edge_types self ->
  Dict.get e wsa.1
  = Some (src_chunk self (param_views (lin_weights self)) 0 (block_of self) e) ->
  Dict.get e wsa.2
  = Some (dst_chunk self (param_views (lin_weights self)) 0 (block_of self) e) ->
  Dict.get e wsb.1
  = Some (src_chunk self (param_views (lin_weights self)) 0 (block_of self) e) ->
  Dict.get e wsb.2
  = Some (dst_chunk self (param_views (lin_weights self)) 0 (block_of self) e) ->
  reset_edge_type wsa.1 wsa.2 (a1, g) e = Ok (a2, ga) ->
  reset_edge_type wsb.1 wsb.2 (b1, g) e = Ok (b2, gb) ->
  agree_rows P (lin_weights a1) (lin_weights b1) ->
  ga = gb
  /\ agree_rows (fun ntype p => P ntype p \/ written self e ntype p)
                (lin_weights a2) (lin_weights b2)
  /\ (forall k, k = e \/ Dict.get k (attn_weights a1) = Dict.get k (attn_weights b1) ->
                Dict.get k (attn_weights a2) = Dict.get k (attn_weights b2))
  /\ (forall k, k = e \/ bias_at a1 k = bias_at b1 k ->
                bias_at a2 k = bias_at b2 k).
Proof.
  intros Hok Hsa Hsb Hwfa Hwfb He Hsa1 Hda1 Hsb1 Hdb1 Hra Hrb Hag.
  pose proof (reset_edge_type_bias _ _ _ _ _ _ _ Hra) as Hba.
  pose proof (reset_edge_type_bias _ _ _ _ _ _ _ Hrb) as Hbb.
  unfold reset_edge_type in Hra, Hrb.
  apply bind_Ok_inv in Hra as (vsa & Hvsa%item_Ok & ([la1 ga1] & Hsrca
    & ([la2 ga2] & Hdsta & (aa & Haa%item_Ok & ([aa' ga3] & Hattna
    & (ba & _ & [= <- <-])%bind_Ok_inv)%bind_Ok_inv)%bind_Ok_inv)%bind_Ok_inv)
    %bind_Ok_inv).
  apply bind_Ok_inv in Hrb as (vsb & Hvsb%item_Ok & ([lb1 gb1] & Hsrcb
    & ([lb2 gb2] & Hdstb & (ab & Hab%item_Ok & ([ab' gb3] & Hattnb
    & (bb & _ & [= <- <-])%bind_Ok_inv)%bind_Ok_inv)%bind_Ok_inv)%bind_Ok_inv)
    %bind_Ok_inv).
  cbn [fst snd] in *.
  rewrite Hsa1 in Hvsa. injection Hvsa as <-.
  rewrite Hsb1 in Hvsb. injection Hvsb as <-.
  pose proof (same_lin_shapes _ _ Hsa) as Hsha.
  pose proof (same_lin_shapes _ _ Hsb) as Hshb.
  (* the source view *)
  destruct (glorot_view_lockstep _ P _ _ _ _ _ _ _ Hsrca Hsrcb Hwfa Hwfb)
    as [<- Hag1]; [| exact Hag |].
  { intros v w Hv [Hw|Hw].
    - exact (src_chunk_fits self e v _ w Hok Hsha Hv Hw).
    - exact (src_chunk_fits self e v _ w Hok Hshb Hv Hw). }
  pose proof (glorot_view_shapes _ _ _ _ _ Hsrca) as Hsha1.
  pose proof (glorot_view_shapes _ _ _ _ _ Hsrcb) as Hshb1.
  rewrite Hsha in Hsha1. rewrite Hshb in Hshb1.
  assert (Hwfa1 : forall k w, Dict.get k la1 = Some w -> wf_tensor w).
  { eapply glorot_view_wf; [exact Hsrca | | exact Hwfa].
    intros v w Hv Hw. destruct (src_chunk_fits self e v _ w Hok Hsha Hv Hw) as (-> & -> & _).
    done. }
  assert (Hwfb1 : forall k w, Dict.get k lb1 = Some w -> wf_tensor w).
  { eapply glorot_view_wf; [exact Hsrcb | | exact Hwfb].
    intros v w Hv Hw. destruct (src_chunk_fits self e v _ w Hok Hshb Hv Hw) as (-> & -> & _).
    done. }
  (* the destination view *)
  assert (Hdst : ga2 = gb2
                 /\ agree_rows (fun ntype p => P ntype p \/ written self e ntype p)
                               la2 lb2).
  { destruct (decide (src_of e <> dst_of e)) as [Hne|Heq].
    - apply bind_Ok_inv in Hdsta as (vda & Hvda%item_Ok & Hdsta).
      apply bind_Ok_inv in Hdstb as (vdb & Hvdb%item_Ok & Hdstb).
      rewrite Hda1 in Hvda. injection Hvda as <-.
      rewrite Hdb1 in Hvdb. injection Hvdb as <-.
      destruct (fun Hfit => glorot_view_lockstep _ _ _ _ _ _ _ _ _
                              Hdsta Hdstb Hwfa1 Hwfb1 Hfit Hag1) as [<- Hag2].
      { intros v w Hv [Hw|Hw].
        - exact (dst_chunk_fits self e v _ w Hok Hsha1 Hv Hw).
        - exact (dst_chunk_fits self e v _ w Hok Hshb1 Hv Hw). }
      split; [done |]. eapply agree_rows_impl; [|exact Hag2].
      intros ntype p [Hp|[Hw|[_ Hw]]]; [by left; left | |]; unfold written.
      + left; right. exact Hw.
      + right. exact Hw.
    - injection Hdsta as <- <-. injection Hdstb as <- <-.
      split; [done |]. eapply agree_rows_impl; [|exact Hag1].
      intros ntype p [Hp|[Hw|[Hne _]]]; [by left | | done].
      right. exact Hw. }
  destruct Hdst as [<- Hag2].
  (* the attention vector *)
  assert (Hlena : length aa = 2 * num_heads self * out_channels self).
  { destruct (proj1 (ok_attn _ Hok e) He) as (a0 & Ha0 & Hlen0).
    pose proof (same_attn_lengths _ _ Hsa e) as Hl.
    rewrite Haa, Ha0 in Hl. simpl in Hl. congruence. }
  assert (Hlenb : length ab = 2 * num_heads self * out_channels self).
  { destruct (proj1 (ok_attn _ Hok e) He) as (a0 & Ha0 & Hlen0).
    pose proof (same_attn_lengths _ _ Hsb e) as Hl.
    rewrite Hab, Ha0 in Hl. simpl in Hl. congruence. }
  rewrite (same_num_heads _ _ Hsa), (same_out_channels _ _ Hsa) in Hattna.
  rewrite (same_num_heads _ _ Hsb), (same_out_channels _ _ Hsb) in Hattnb.
  apply glorot_attn_draws in Hattna as (_ & _ & _ & -> & ->); [|done].
  apply glorot_attn_draws in Hattnb as (_ & _ & _ & -> & ->); [|done].
  unfold set_params, bias_at in *. cbn [lin_weights attn_weights bias] in *.
  split_and!; [done | done | |].
  - intros k Hk. rewrite !get_set.
    destruct (decide (e = k)) as [<-|Hne]; [done |].
    destruct Hk as [->|Hk]; done.
  - intros k Hk.
    pose proof (same_bias _ _ Hsa) as Hla. pose proof (same_bias _ _ Hsb) as Hlb.
    destruct (bias self) as [bs|], (bias a1) as [bsa|], (bias b1) as [bsb|],
      ba as [bsa'|], bb as [bsb'|]; try done.
    rewrite Hba, Hbb. specialize (Hla k). specialize (Hlb k).
    destruct (decide (k = e)) as [->|Hne].
    + destruct (Dict.get e bsa) as [xa|], (Dict.get e bsb) as [xb|],
        (Dict.get e bs) as [x|]; simpl in *; try done.
      unfold zeros. congruence.
    + destruct Hk as [->|Hk]; [done |]. rewrite Hk.
      by destruct (Dict.get k bsb).
Qed.

Lemma reset_loop_lockstep self
    (wsa wsb : list (EdgeType * option View) * list (EdgeType * option View))
    (l : list EdgeType) a1 b1 g a' ga b' gb (P : string -> nat -> Prop) :
  layout_ok self -> same_layout self a1 -> same_layout self b1 ->
  lin_wf a1 -> lin_wf b1 ->
  (forall e, e ∈ l -> e ∈ edge_types self) ->
  (forall e, e ∈ edge_types self ->
     Dict.get e wsa.1
     = Some (src_chunk self (param_views (lin_weights self)) 0 (block_of self) e)
     /\ Dict.get e wsa.2
        = Some (dst_chunk self (param_views (lin_weights self)) 0 (block_of self) e)
     /\ Dict.get e wsb.1
        = Some (src_chunk self (param_views (lin_weights self)) 0 (block_of self) e)
     /\ Dict.get e wsb.2
        = Some (dst_chunk self (param_views (lin_weights self)) 0 (block_of self) e)) ->
  for_each (reset_edge_type wsa.1 wsa.2) l (a1, g) = Ok (a', ga) ->
  for_each (reset_edge_type wsb.1 wsb.2) l (b1, g) = Ok (b', gb) ->
  agree_rows P (lin_weights a1) (lin_weights b1) ->
  ga = gb
  /\ agree_rows (fun ntype p => P ntype p \/ exists e, e ∈ l /\ written self e ntype p)
                (lin_weights a') (lin_weights b')
  /\ (forall k, k ∈ l \/ Dict.get k (attn_weights a1) = Dict.get k (attn_weights b1) ->
                Dict.get k (attn_weights a') = Dict.get k (attn_weights b'))
  /\ (forall k, k ∈ l \/ bias_at a1 k = bias_at b1 k ->
                bias_at a' k = bias_at b' k).
Proof.
  intros Hok Hsa Hsb Hwfa Hwfb Hl Hws. revert a1 b1 g P Hsa Hsb Hwfa Hwfb.
  induction l as [|e l IH]; intros a1 b1 g P Hsa Hsb Hwfa Hwfb; cbn [for_each].
  - intros [= <- <-] [= <- <-] Hag. split_and!; [done | | |].
    + eapply agree_rows_impl; [|exact Hag].
      intros ntype p [Hp|(e & He%elem_of_nil & _)]; done.
    + intros k [Hk%elem_of_nil|Hk]; done.
    + intros k [Hk%elem_of_nil|Hk]; done.
  - intros ([a2 ga2] & Hstepa & Hresta)%bind_Ok_inv
           ([b2 gb2] & Hstepb & Hrestb)%bind_Ok_inv Hag.
    assert (He : e ∈ edge_types self) by (apply Hl; left).
    destruct (Hws e He) as (Hsa1 & Hda1 & Hsb1 & Hdb1).
    destruct (reset_edge_type_lockstep self a1 b1 g a2 ga2 b2 gb2 wsa wsb P e
                Hok Hsa Hsb Hwfa Hwfb He Hsa1 Hda1 Hsb1 Hdb1 Hstepa Hstepb Hag)
      as (<- & Hag2 & Hattn2 & Hbias2).
    assert (Hfits : forall (a : Layer) v, same_layout self a ->
              src_chunk self (param_views (lin_weights self)) 0 (block_of self) e = Some v
              \/ dst_chunk self (param_views (lin_weights self)) 0 (block_of self) e = Some v ->
              view_fits (lin_weights a) v).
    { intros a v Hsame Hv. eapply view_fits_shapes; [apply Hsame |].
      destruct Hv as [Hv|Hv].
      - apply src_chunk_view in Hv as (i & t & _ & Ht & ->).
        exists t. split; [done | simpl; lia].
      - apply dst_chunk_view in Hv as (j & t & _ & Ht & ->).
        exists t. split; [done | simpl; lia]. }
    apply reset_edge_type_layout in Hstepa as [Hsa' Hwfa'].
    2:{ intros v Hv. rewrite Hsa1 in Hv. injection Hv as Hv. apply Hfits; auto. }
    2:{ intros v Hv. rewrite Hda1 in Hv. injection Hv as Hv. apply Hfits; auto. }
    apply reset_edge_type_layout in Hstepb as [Hsb' Hwfb'].
    2:{ intros v Hv. rewrite Hsb1 in Hv. injection Hv as Hv. apply Hfits; auto. }
    2:{ intros v Hv. rewrite Hdb1 in Hv. injection Hv as Hv. apply Hfits; auto. }
    destruct (IH (fun e' He' => Hl e' (list_elem_of_further _ _ _ He'))
                a2 b2 ga2 _
                (same_layout_trans _ _ _ Hsa Hsa') (same_layout_trans _ _ _ Hsb Hsb')
                (Hwfa' Hwfa) (Hwfb' Hwfb) Hresta Hrestb Hag2)
      as (<- & Hag' & Hattn' & Hbias').
    split_and!; [done | | |].
    + eapply agree_rows_impl; [|exact Hag'].
      intros ntype p [Hp|(e' & [->|He']%elem_of_cons & Hw)].
      * by left; left.
      * by left; right.
      * right. eauto.
    + intros k [[->|Hk]%elem_of_cons|Hk]; apply Hattn'; auto.
    + intros k [[->|Hk]%elem_of_cons|Hk]; apply Hbias'; auto.
Qed.

(** When no edge type is listed twice, the blocks written for the edge
    types cover every row of every fused weight. *)
Lemma written_covers self (ntype : string) (w : Tensor scalar) (p : nat) :
  layout_ok self -> NoDup (edge_types self) ->
  Dict.get ntype (lin_weights self) = Some w -> p < nrows w ->
  exists e, e ∈ edge_types self /\ written self e ntype p.
Proof.
  intros Hok Hnd Hw Hp.
  destruct (ok_lin_shape _ Hok _ _ Hw) as (_ & Hrows & _).
  pose proof (srcs_of_rel self (ok_rel _ Hok) ntype) as Hsrcs.
  pose proof (dsts_of_rel self (ok_rel _ Hok) ntype) as Hdsts.
  assert (Hblk : nrows w = n_rel_of self ntype * block_of self)
    by (unfold block_of; lia).
  clear Hrows.
  assert (Hpos : 0 < block_of self).
  { destruct (block_of self); [|lia]. rewrite Nat.mul_0_r in Hblk. lia. }
  assert (Hk : p / block_of self < n_rel_of self ntype).
  { apply Nat.Div0.div_lt_upper_bound. lia. }
  pose proof (Nat.div_mod_eq p (block_of self)) as Hdm.
  pose proof (Nat.mod_upper_bound p (block_of self)) as Hmod.
  set (k := p / block_of self) in *.
  destruct (decide (k < length (srcs_of self ntype))) as [Hlt|Hge].
  - destruct (lookup_lt_is_Some_2 _ _ Hlt) as [e He].
    assert (Hin : e ∈ srcs_of self ntype) by (by eapply list_elem_of_lookup_2).
    rewrite Hsrcs in Hin. apply elem_of_src_rels in Hin as [Hin Hsrc].
    exists e. split; [done |]. left.
    exists (mkView ntype (k * block_of self) (block_of self) 0 (ncols w)).
    split_and!; [| done | simpl; lia | simpl; lia].
    unfold src_chunk. rewrite get_param_views, Hsrc, Hw. simpl.
    rewrite (last_index_NoDup e _ k); [done | | done].
    rewrite Hsrcs. by apply NoDup_filter.
  - unfold n_rel_of in Hk.
    assert (Hj : k - length (srcs_of self ntype) < length (dsts_of self ntype)) by lia.
    destruct (lookup_lt_is_Some_2 _ _ Hj) as [e He].
    assert (Hin : e ∈ dsts_of self ntype) by (by eapply list_elem_of_lookup_2).
    rewrite Hdsts in Hin. apply elem_of_dst_rels in Hin as (Hin & Hdst & Hne).
    exists e. split; [done |]. right. split; [done |].
    exists (mkView ntype (k * block_of self) (block_of self) 0 (ncols w)).
    split_and!; [| done | simpl; lia | simpl; lia].
    unfold dst_chunk. rewrite get_param_views, Hdst, Hw. simpl.
    rewrite (last_index_NoDup e _ (k - length (srcs_of self ntype))); [| | done].
    + replace (k - length (srcs_of self ntype) + length (srcs_of self ntype))
        with k by lia. done.
    + rewrite Hdsts. by apply NoDup_filter.
Qed.

End lockstep.

Section same_seed.
Context `{B : Backend}.
Implicit Types (self : Layer) (g : Generator).

(** X11.  Re-initialization forgets the previous values.  Let [a] and [b]
    be two states of one layer (same configuration, parameters of the same
    shapes, any values) whose edge types are listed once each.  If
    [reset_parameters] is run on both with the same seed, or on both without
    a seed from the same generator state, then afterwards every fused
    weight, every attention vector and every bias vector is the same in
    both, and the generator is left in the same state. *)
Theorem reset_parameters_same_seed self_a self_b (seed : option Z)
    g_a g_b self_a' g_a' self_b' g_b' :
  layout_ok self_a -> layout_ok self_b -> same_layout self_a self_b ->
  NoDup (edge_types self_a) ->
  (seed = None -> g_a = g_b) ->
  reset_parameters self_a seed g_a = Ok (self_a', g_a') ->
  reset_parameters self_b seed g_b = Ok (self_b', g_b') ->
  g_a' = g_b'
  /\ (forall ntype,
        Dict.get ntype (lin_weights self_a') = Dict.get ntype (lin_weights self_b'))
  /\ (forall e, e ∈ edge_types self_a ->
        Dict.get e (attn_weights self_a') = Dict.get e (attn_weights self_b'))
  /\ (forall e, bias_at self_a' e = bias_at self_b' e).
Proof.
  intros Hoka Hokb Hsame Hnd Hg Hra Hrb.
  destruct (reset_parameters_layout _ _ _ _ _ Hoka Hra) as (Hsa' & Hoka' & _).
  destruct (reset_parameters_layout _ _ _ _ _ Hokb Hrb) as (Hsb' & Hokb' & _).
  unfold reset_parameters in Hra, Hrb.
  apply bind_Ok_inv in Hra as (wsa & Hsplita & Hloopa).
  apply bind_Ok_inv in Hrb as (wsb & Hsplitb & Hloopb).
  destruct (reset_views _ _ Hoka Hsplita) as (_ & Hsrca & Hdsta).
  destruct (reset_views _ _ Hokb Hsplitb) as (_ & Hsrcb & Hdstb).
  assert (Hgen : match seed with Some s => manual_seed s | None => g_b end
                 = match seed with Some s => manual_seed s | None => g_a end).
  { destruct seed; [done |]. symmetry. by apply Hg. }
  rewrite Hgen in Hloopb. clear Hgen.
  rewrite (same_edge_types _ _ Hsame) in Hloopb.
  assert (Hws : forall e, e ∈ edge_types self_a ->
     Dict.get e wsa.1
     = Some (src_chunk self_a (param_views (lin_weights self_a)) 0 (block_of self_a) e)
     /\ Dict.get e wsa.2
        = Some (dst_chunk self_a (param_views (lin_weights self_a)) 0 (block_of self_a) e)
     /\ Dict.get e wsb.1
        = Some (src_chunk self_a (param_views (lin_weights self_a)) 0 (block_of self_a) e)
     /\ Dict.get e wsb.2
        = Some (dst_chunk self_a (param_views (lin_weights self_a)) 0 (block_of self_a) e)).
  { intros e He. rewrite Hsrca, Hdsta, Hsrcb, Hdstb.
    rewrite (same_edge_types _ _ Hsame), !decide_True by done.
    rewrite (src_chunk_same_layout _ _ e Hsame), (dst_chunk_same_layout _ _ e Hsame).
    done. }
  assert (Hag0 : agree_rows (fun _ _ => False) (lin_weights self_a) (lin_weights self_b))
    by (by intros ntype p wa wb []).
  destruct (reset_loop_lockstep self_a wsa wsb (edge_types self_a) self_a self_b
              _ self_a' g_a' self_b' g_b' (fun _ _ => False)
              Hoka (same_layout_refl _) Hsame
              (layout_ok_lin_wf _ Hoka) (layout_ok_lin_wf _ Hokb)
              (fun e He => He) Hws Hloopa Hloopb Hag0) as (Hg' & Hag & Hattn & Hbias).
  split_and!; [done | | by auto |].
  - intros ntype.
    pose proof (get_shapes_of (lin_weights self_a') ntype) as Hsha.
    pose proof (get_shapes_of (lin_weights self_b') ntype) as Hshb.
    rewrite (same_lin_shapes _ _ Hsa') in Hsha.
    rewrite (same_lin_shapes _ _ Hsb'), (same_lin_shapes _ _ Hsame), Hsha in Hshb.
    destruct (Dict.get ntype (lin_weights self_a')) as [wa|] eqn:Hwa,
             (Dict.get ntype (lin_weights self_b')) as [wb|] eqn:Hwb;
      simpl in Hshb; try done.
    injection Hshb as Hr Hc. f_equal.
    destruct (ok_lin_shape _ Hoka' _ _ Hwa) as ([Hlena _] & _ & _).
    destruct (ok_lin_shape _ Hokb' _ _ Hwb) as ([Hlenb _] & _ & _).
    assert (Hrows : rows wa = rows wb).
    { apply list_eq. intros p. destruct (decide (p < nrows wa)) as [Hp|Hp].
      - destruct (shapes_of_get _ _ ntype wa (eq_sym (same_lin_shapes _ _ Hsa')) Hwa)
          as (w0 & Hw0 & Hr0 & _).
        destruct (written_covers self_a ntype w0 p Hoka Hnd Hw0) as (e & He & Hw);
          [lia |].
        eapply Hag; [right; eauto | exact Hwa | exact Hwb].
      - rewrite !lookup_ge_None_2; [done | lia | lia]. }
    destruct wa, wb. simpl in *. congruence.
  - intros e. apply Hbias.
    destruct (decide (e ∈ edge_types self_a)) as [He|He]; [by left | right].
    pose proof (same_bias _ _ Hsame) as Hb. unfold bias_at.
    destruct (bias self_a) as [bsa|] eqn:Hbsa, (bias self_b) as [bsb|] eqn:Hbsb;
      try done.
    assert (Ha : ~ is_Some (Dict.get e bsa))
      by (by rewrite <- (ok_bias _ Hoka bsa e Hbsa)).
    assert (Hb' : ~ is_Some (Dict.get e bsb)).
    { rewrite <- (ok_bias _ Hokb bsb e Hbsb), (same_edge_types _ _ Hsame). done. }
    destruct (Dict.get e bsa), (Dict.get e bsb); try done; exfalso; eauto.
Qed.

End same_seed.

Lemma toy_reseed_two :
  reset_parameters Toy.layer_two (Some 3%Z) 0
  = Ok (Toy.reseed_two.1, Toy.reseed_two.2).
Proof. reflexivity. Qed.

Lemma toy_reseed_again :
  reset_parameters Toy.reset_two.1 (Some 3%Z) Toy.reset_two.2
  = Ok (Toy.reseed_again.1, Toy.reseed_again.2).
Proof. reflexivity. Qed.

Lemma toy_nodup_two : NoDup (edge_types Toy.layer_two).
Proof. apply (bool_decide_unpack _). reflexivity. Qed.

Lemma reset_parameters_same_seed_witness :
  NoDup (edge_types Toy.layer_two)
  /\ reset_parameters Toy.layer_two (Some 3%Z) 0
     = Ok (Toy.reseed_two.1, Toy.reseed_two.2)
  /\ reset_parameters Toy.reset_two.1 (Some 3%Z) Toy.reset_two.2
     = Ok (Toy.reseed_again.1, Toy.reseed_again.2)
  /\ forall ntype,
       Dict.get ntype (lin_weights Toy.reseed_two.1)
       = Dict.get ntype (lin_weights Toy.reseed_again.1).
Proof.
  split; [exact toy_nodup_two |]. split; [exact toy_reseed_two |].
  split; [exact toy_reseed_again |].
  destruct (init_layout _ _ _ _ toy_init_two) as (Hoka & _ & _).
  destruct (reset_parameters_layout _ _ _ _ _ Hoka toy_reset_two) as (Hsame & Hokb & _).
  exact (proj1 (proj2 (reset_parameters_same_seed Toy.layer_two Toy.reset_two.1
           (Some 3%Z) 0 Toy.reset_two.2 _ _ _ _ Hoka Hokb Hsame toy_nodup_two
           (fun H => ltac:(discriminate H)) toy_reseed_two toy_reseed_again))).
Defined.

(** ** Edge types listed more than once *)

Section frame.
Context `{B : Backend}.
Implicit Types (self : Layer) (g : Generator).

(** [glorot] through a view leaves the rows outside the view as they were. *)
Lemma glorot_view_frame (value : option View) lin lin' g g'
    (ntype : string) (p : nat) (w' : Tensor scalar) :
  glorot_view value (lin, g) = Ok (lin', g') ->
  (forall k w, Dict.get k lin = Some w -> wf_tensor w) ->
  (forall v w, value = Some v -> Dict.get (v_key v) lin = Some w ->
               v_r0 v + v_nr v <= nrows w) ->
  Dict.get ntype lin' = Some w' ->
  ~ (exists v, value = Some v /\ ntype = v_key v /\ v_r0 v <= p < v_r0 v + v_nr v) ->
  exists w, Dict.get ntype lin = Some w /\ rows w' !! p = rows w !! p.
Proof.
  destruct value as [v|]; [|intros [= <- <-]; eauto].
  intros (w0 & fan & Hget & _ & -> & _)%glorot_view_inv Hwf Hfit Hw' Hout.
  rewrite get_set in Hw'. destruct (decide (v_key v = ntype)) as [<-|Hne]; [|eauto].
  injection Hw' as <-. exists w0. split; [done |].
  destruct (draw_rows_shape fan (v_nr v) (v_nc v) g) as [Hlen _].
  apply lookup_write_block_outside; eauto.
  destruct (decide (p < v_r0 v)); [by left | right].
  destruct (decide (v_r0 v + v_nr v <= p)); [done |].
  exfalso. apply Hout. exists v. split_and!; [done | done | lia | lia].
Qed.

Lemma reset_edge_type_frame self s1 g1 s2 g2
    (ws : list (EdgeType * option View) * list (EdgeType * option View))
    (e : EdgeType) (ntype : string) (p : nat) (w2 : Tensor scalar) :
  layout_ok self -> same_layout self s1 -> lin_wf s1 ->
  Dict.get e ws.1
  = Some (src_chunk self (param_views (lin_weights self)) 0 (block_of self) e) ->
  Dict.get e ws.2
  = Some (dst_chunk self (param_views (lin_weights self)) 0 (block_of self) e) ->
  reset_edge_type ws.1 ws.2 (s1, g1) e = Ok (s2, g2) ->
  Dict.get ntype (lin_weights s2) = Some w2 ->
  ~ written self e ntype p ->
  exists w1, Dict.get ntype (lin_weights s1) = Some w1
             /\ rows w2 !! p = rows w1 !! p.
Proof.
  intros Hok Hsame Hwf Hs Hd Hstep Hw2 Hout. unfold reset_edge_type in Hstep.
  apply bind_Ok_inv in Hstep as (vs & Hvs%item_Ok & ([l1 ga] & Hsrc
    & ([l2 gb] & Hdst & (a & _ & (ag & _
    & (b & _ & [= <- _])%bind_Ok_inv)%bind_Ok_inv)%bind_Ok_inv)%bind_Ok_inv)
    %bind_Ok_inv).
  cbn [fst snd] in *. unfold set_params in Hw2. cbn [lin_weights] in Hw2.
  rewrite Hs in Hvs. injection Hvs as <-.
  pose proof (same_lin_shapes _ _ Hsame) as Hsh.
  pose proof (glorot_view_shapes _ _ _ _ _ Hsrc) as Hsh1. rewrite Hsh in Hsh1.
  assert (Hwf1 : forall k w, Dict.get k l1 = Some w -> wf_tensor w).
  { eapply glorot_view_wf; [exact Hsrc | | exact Hwf].
    intros v w Hv Hw.
    destruct (src_chunk_fits self e v _ w Hok Hsh Hv Hw) as (-> & -> & _). done. }
  assert (Hmid : exists w1', Dict.get ntype l1 = Some w1'
                             /\ rows w2 !! p = rows w1' !! p).
  { destruct (decide (src_of e <> dst_of e)) as [Hne|Heq].
    - apply bind_Ok_inv in Hdst as (vd & Hvd%item_Ok & Hdst).
      rewrite Hd in Hvd. injection Hvd as <-.
      eapply glorot_view_frame; [exact Hdst | exact Hwf1 | | exact Hw2 |].
      + intros v w Hv Hw. by destruct (dst_chunk_fits self e v _ w Hok Hsh1 Hv Hw)
          as (_ & _ & ?).
      + intros Hin. apply Hout. right. done.
    - injection Hdst as <- _. eauto. }
  destruct Hmid as (w1' & Hw1' & ->).
  eapply glorot_view_frame; [exact Hsrc | exact Hwf | | exact Hw1' |].
  - intros v w Hv Hw. by destruct (src_chunk_fits self e v _ w Hok Hsh Hv Hw)
      as (_ & _ & ?).
  - intros Hin. apply Hout. left. done.
Qed.

Lemma reset_loop_frame self
    (ws : list (EdgeType * option View) * list (EdgeType * option View))
    (l : list EdgeType) s1 g1 s' g' (ntype : string) (p : nat) (w' : Tensor scalar) :
  layout_ok self -> same_layout self s1 -> lin_wf s1 ->
  (forall e, e ∈ l ->
     Dict.get e ws.1
     = Some (src_chunk self (param_views (lin_weights self)) 0 (block_of self) e)
     /\ Dict.get e ws.2
        = Some (dst_chunk self (param_views (lin_weights self)) 0 (block_of self) e)) ->
  for_each (reset_edge_type ws.1 ws.2) l (s1, g1) = Ok (s', g') ->
  Dict.get ntype (lin_weights s') = Some w' ->
  (forall e, e ∈ l -> ~ written self e ntype p) ->
  exists w1, Dict.get ntype (lin_weights s1) = Some w1
             /\ rows w' !! p = rows w1 !! p.
Proof.
  intros Hok. revert s1 g1.
  induction l as [|e l IH]; intros s1 g1 Hsame Hwf Hws; cbn [for_each].
  - intros [= <- <-] Hw' _. eauto.
  - intros ([s2 g2] & Hstep & Hrest)%bind_Ok_inv Hw' Hout.
    destruct (Hws e) as [Hs Hd]; [by left |].
    pose proof Hstep as Hlay.
    apply reset_edge_type_layout in Hlay as [Hsame' Hwf'].
    + destruct (IH s2 g2 (same_layout_trans _ _ _ Hsame Hsame') (Hwf' Hwf)
                  (fun e' He' => Hws e' (list_elem_of_further _ _ _ He'))
                  Hrest Hw' (fun e' He' => Hout e' (list_elem_of_further _ _ _ He')))
        as (w2 & Hw2 & ->).
      eapply reset_edge_type_frame; [exact Hok | exact Hsame | exact Hwf | exact Hs
        | exact Hd | exact Hstep | exact Hw2 | apply Hout; left].
    + intros v Hv. rewrite Hs in Hv. injection Hv as Hv.
      apply src_chunk_view in Hv as (i & t & _ & Ht & ->).
      eapply view_fits_shapes; [apply Hsame |].
      exists t. split; [done | simpl; lia].
    + intros v Hv. rewrite Hd in Hv. injection Hv as Hv.
      apply dst_chunk_view in Hv as (j & t & _ & Ht & ->).
      eapply view_fits_shapes; [apply Hsame |].
      exists t. split; [done | simpl; lia].
Qed.

(** [reset_parameters] changes no row of a fused weight outside the blocks
    of the views it initializes. *)
Lemma reset_parameters_frame self (seed : option Z) g self' g'
    (ntype : string) (p : nat) (w' : Tensor scalar) :
  layout_ok self ->
  reset_parameters self seed g = Ok (self', g') ->
  Dict.get ntype (lin_weights self') = Some w' ->
  (forall e, e ∈ edge_types self -> ~ written self e ntype p) ->
  exists w, Dict.get ntype (lin_weights self) = Some w
            /\ rows w' !! p = rows w !! p.
Proof.
  intros Hok Hreset Hw' Hout. unfold reset_parameters in Hreset.
  apply bind_Ok_inv in Hreset as (ws & Hsplit & Hloop).
  destruct (reset_views _ _ Hok Hsplit) as (_ & Hs & Hd).
  eapply reset_loop_frame; [exact Hok | apply same_layout_refl
    | by apply layout_ok_lin_wf | | exact Hloop | exact Hw' | exact Hout].
  intros e He. by rewrite Hs, Hd, !decide_True.
Qed.

(** X12.  An edge type listed twice gets two blocks of rows in the fused
    weight of its node types, and only the last one is ever initialized.
    If the relation list of a node type (its source relations, then its
    destination relations) has the same edge type at positions [i < j],
    then [reset_parameters] leaves every row of block [i] of that node
    type's fused weight as it found it. *)
Theorem reset_parameters_skips_repeated self (seed : option Z) g self' g'
    (ntype : string) (e : EdgeType) (i j p : nat) (w' : Tensor scalar) :
  layout_ok self ->
  reset_parameters self seed g = Ok (self', g') ->
  (srcs_of self ntype ++ dsts_of self ntype) !! i = Some e ->
  (srcs_of self ntype ++ dsts_of self ntype) !! j = Some e ->
  i < j ->
  i * block_of self <= p < i * block_of self + block_of self ->
  Dict.get ntype (lin_weights self') = Some w' ->
  exists w, Dict.get ntype (lin_weights self) = Some w
            /\ rows w' !! p = rows w !! p.
Proof.
  intros Hok Hreset Hi Hj Hij Hp Hw'.
  eapply reset_parameters_frame; [exact Hok | exact Hreset | exact Hw' |].
  pose proof (srcs_of_rel self (ok_rel _ Hok)) as Hsrcs.
  pose proof (dsts_of_rel self (ok_rel _ Hok)) as Hdsts.
  assert (Hdisj : forall e0, e0 ∈ srcs_of self ntype -> e0 ∈ dsts_of self ntype -> False).
  { intros e0. rewrite Hsrcs, Hdsts, elem_of_src_rels, elem_of_dst_rels.
    intros [_ Hs] (_ & Hd & Hne). congruence. }
  intros e' He' [(v & (k & t & Hk & _ & ->)%src_chunk_view & Hnt & Hr)
                |[Hne (v & (k & t & Hk & _ & ->)%dst_chunk_view & Hnt & Hr)]];
    cbn [v_key v_r0 v_nr] in *; subst ntype.
  - assert (k = i) as -> by nia.
    apply last_index_Some in Hk as [Hk Hlast].
    pose proof (lookup_lt_Some _ _ _ Hk) as Hlen.
    rewrite lookup_app_l in Hi by done. rewrite Hk in Hi. injection Hi as ->.
    destruct (decide (j < length (srcs_of self (src_of e)))) as [Hlt|Hge].
    + rewrite lookup_app_l in Hj by done. by apply (Hlast j).
    + rewrite lookup_app_r in Hj by lia.
      apply (Hdisj e); by eapply list_elem_of_lookup_2.
  - assert (k + length (srcs_of self (dst_of e')) = i) as <- by nia.
    apply last_index_Some in Hk as [Hk Hlast].
    rewrite lookup_app_r in Hi by lia.
    replace (k + length (srcs_of self (dst_of e')) - length (srcs_of self (dst_of e')))
      with k in Hi by lia.
    rewrite Hk in Hi. injection Hi as ->.
    rewrite lookup_app_r in Hj by lia.
    apply (Hlast (j - length (srcs_of self (dst_of e)))); [lia | done].
Qed.

End frame.

Lemma toy_allocate_repeated : allocate Toy.cfg_repeated = Ok Toy.allocated_repeated.
Proof. reflexivity. Qed.

Lemma toy_reset_repeated :
  reset_parameters Toy.allocated_repeated None 0
  = Ok (Toy.reset_repeated.1, Toy.reset_repeated.2).
Proof. reflexivity. Qed.

Lemma reset_parameters_skips_repeated_witness :
  allocate Toy.cfg_repeated = Ok Toy.allocated_repeated
  /\ reset_parameters Toy.allocated_repeated None 0
     = Ok (Toy.reset_repeated.1, Toy.reset_repeated.2)
  /\ exists w' w,
       Dict.get "A" (lin_weights Toy.reset_repeated.1) = Some w'
       /\ Dict.get "A" (lin_weights Toy.allocated_repeated) = Some w
       /\ rows w' !! 0 = rows w !! 0.
Proof.
  split; [exact toy_allocate_repeated |]. split; [exact toy_reset_repeated |].
  destruct (reset_parameters_skips_repeated Toy.allocated_repeated None 0
              Toy.reset_repeated.1 Toy.reset_repeated.2 "A" ("A", "r", "A") 0 1 0
              _
              (allocate_layout_ok _ _ toy_allocate_repeated) toy_reset_repeated
              eq_refl eq_refl (Nat.lt_0_succ 0)
              (conj (Nat.le_refl 0) (Nat.lt_0_succ 0)) eq_refl)
    as (w & Hw & Hrow).
  eexists _, w. split; [reflexivity |]. split; [exact Hw | exact Hrow].
Defined.
